(** * web_automation_ai: the plan executor of [ai_mcp/executor.py]

    A shallow embedding of the price-constraint parser, the product
    extractor and the plan execution engine, together with the
    properties of the natural-language specification that concern them;
    and of the code around them: the text of the search URL, the planner
    of [ai_mcp/planner.py], the page context of [ai_mcp/mcp_client.py]
    and [ai_mcp/browser_utils.py], [retry] of [core/utils.py] and the
    service of [api/app.py], with properties read off that code.

    Conventions of the model.
    - Python and JavaScript strings are byte strings ([string]); the
      character classes, [lower] and the case-insensitive comparison are
      the ASCII ones, so the model is exact on ASCII text.
    - Python and JavaScript numbers are IEEE-754 binary64 values
      ([spec_float] at precision 53); decimal text is converted by a
      correctly rounded division.
    - The browser is an external world: every Playwright call is answered
      by a handler that either returns a value or throws, and that may
      change the world.  Waiting ([asyncio.sleep]) and printing have no
      model. *)

From Stdlib Require Import Bool Arith PeanoNat ZArith NArith Lia List.
From Stdlib Require Import Ascii String SpecFloat Sorted Permutation DecimalString.
Import ListNotations.

#[local] Open Scope string_scope.
#[local] Open Scope list_scope.

(* ================================================================== *)
(** * Characters and strings *)
(* ================================================================== *)

Definition ord (c : ascii) : N := N_of_ascii c.

(** [\d] on ASCII text. *)
Definition is_digit (c : ascii) : bool :=
  ((48 <=? ord c) && (ord c <=? 57))%N.

(** [str.isspace] and [\s] on ASCII text: TAB..CR, FS..US and space. *)
Definition py_isspace (c : ascii) : bool :=
  (((9 <=? ord c) && (ord c <=? 13)) || ((28 <=? ord c) && (ord c <=? 32)))%N.

(** JavaScript [WhiteSpace] and [LineTerminator] on ASCII text. *)
Definition js_isspace (c : ascii) : bool :=
  (((9 <=? ord c) && (ord c <=? 13)) || (ord c =? 32))%N.

Definition is_upper (c : ascii) : bool :=
  ((65 <=? ord c) && (ord c <=? 90))%N.

Definition lower_char (c : ascii) : ascii :=
  if is_upper c then ascii_of_N (ord c + 32) else c.

(** [str.lower()] *)
Fixpoint lower (s : string) : string :=
  match s with
  | EmptyString => EmptyString
  | String c s' => String (lower_char c) (lower s')
  end.

Fixpoint lstrip_by (sp : ascii -> bool) (s : string) : string :=
  match s with
  | EmptyString => EmptyString
  | String c s' => if sp c then lstrip_by sp s' else s
  end.

Fixpoint rstrip_by (sp : ascii -> bool) (s : string) : string :=
  match s with
  | EmptyString => EmptyString
  | String c s' =>
      match rstrip_by sp s' with
      | EmptyString => if sp c then EmptyString else String c EmptyString
      | r => String c r
      end
  end.

(** [str.strip()] *)
Definition strip (s : string) : string := rstrip_by py_isspace (lstrip_by py_isspace s).

(** [String.prototype.trim()] *)
Definition js_trim (s : string) : string := rstrip_by js_isspace (lstrip_by js_isspace s).

Fixpoint starts_with (p s : string) : bool :=
  match p, s with
  | EmptyString, _ => true
  | String a p', String b s' => Ascii.eqb a b && starts_with p' s'
  | String _ _, EmptyString => false
  end.

(** [needle in hay] *)
Fixpoint contains (needle hay : string) : bool :=
  starts_with needle hay ||
  match hay with
  | EmptyString => false
  | String _ hay' => contains needle hay'
  end.

Fixpoint drop (n : nat) (s : string) : string :=
  match n, s with
  | O, _ => s
  | S n', String _ s' => drop n' s'
  | S _, EmptyString => EmptyString
  end.

Fixpoint take (n : nat) (s : string) : string :=
  match n, s with
  | S n', String c s' => String c (take n' s')
  | _, _ => EmptyString
  end.

(** No character of [s] is a decimal digit. *)
Fixpoint no_digitb (s : string) : bool :=
  match s with
  | EmptyString => true
  | String c s' => negb (is_digit c) && no_digitb s'
  end.

(* ================================================================== *)
(** * The fragment of Python's [re] used by the executor *)
(* ================================================================== *)

Module Re.

(** Character sets: [\d], [\s] and bracket or literal sets. *)
Inductive cset : Type :=
| CDigit
| CSpace
| CChars (members : string).

(** Patterns.  Repetition is only ever applied to a character set in the
  executor's patterns ([\s*], [\s+], [\d+], [\d{1,2}], [[-–to]+]). *)
Inductive regex : Type :=
| Eps
| One (cs : cset)
| Cat (r1 r2 : regex)
| Alt (r1 r2 : regex)
| Opt (r : regex)
| Rep (cs : cset) (lo : nat) (hi : option nat)
| Grp (name : string) (r : regex).

Definition Chr (c : ascii) : regex := One (CChars (String c EmptyString)).

Fixpoint lit (s : string) : regex :=
match s with
| EmptyString => Eps
| String c s' => Cat (Chr c) (lit s')
end.

Fixpoint alts (r : regex) (rs : list regex) : regex :=
match rs with
| [] => r
| r' :: rs' => Alt r (alts r' rs')
end.

(** A group is recorded as the span of positions it matched, counted
    from the start of the match. *)
Definition span : Type := (nat * nat)%type.

Definition captures : Type := list (string * span).

Fixpoint lookup_span (name : string) (cs : captures) : option span :=
  match cs with
  | [] => None
  | (n, v) :: cs' => if String.eqb n name then Some v else lookup_span name cs'
  end.

Section Matcher.

(** [re.I] *)
Variable icase : bool.

Definition chr_eq (a b : ascii) : bool :=
  if icase then Ascii.eqb (lower_char a) (lower_char b) else Ascii.eqb a b.

Fixpoint memb (c : ascii) (members : string) : bool :=
  match members with
  | EmptyString => false
  | String m ms => chr_eq c m || memb c ms
  end.

Definition cset_mem (cs : cset) (c : ascii) : bool :=
  match cs with
  | CDigit => is_digit c
  | CSpace => py_isspace c
  | CChars members => memb c members
  end.

Definition more (hi : option nat) : bool :=
  match hi with
  | Some O => false
  | _ => true
  end.

Section Exec.
Context {R : Type}.

(** Greedy bounded repetition of a character set, backtracking one
    character at a time when the continuation fails. *)
Fixpoint rep (cs : cset) (lo : nat) (hi : option nat) (s : string) (pos : nat)
         (k : string -> nat -> option R) : option R :=
  let stop := match lo with O => k s pos | S _ => None end in
  match s with
  | EmptyString => stop
  | String c s' =>
      if cset_mem cs c && more hi then
        match rep cs (pred lo) (option_map pred hi) s' (S pos) k with
        | Some r => Some r
        | None => stop
        end
      else stop
  end.

(** Backtracking matcher in continuation-passing style: alternatives
    left to right, optional and repeated parts greedy.  [s] is the text
    still to be read and [pos] the number of characters read so far. *)
Fixpoint exec (r : regex) (s : string) (pos : nat) (cs : captures)
         (k : string -> nat -> captures -> option R) : option R :=
  match r with
  | Eps => k s pos cs
  | One c =>
      match s with
      | String a s' => if cset_mem c a then k s' (S pos) cs else None
      | EmptyString => None
      end
  | Cat r1 r2 => exec r1 s pos cs (fun s1 p1 c1 => exec r2 s1 p1 c1 k)
  | Alt r1 r2 =>
      match exec r1 s pos cs k with
      | Some x => Some x
      | None => exec r2 s pos cs k
      end
  | Opt r1 =>
      match exec r1 s pos cs k with
      | Some x => Some x
      | None => k s pos cs
      end
  | Rep c lo hi => rep c lo hi s pos (fun s' p' => k s' p' cs)
  | Grp n r1 =>
      exec r1 s pos cs (fun s' p' c' => k s' p' ((n, (pos, p')) :: c'))
  end.
End Exec.

(** A match anchored at the head of [s]: the groups, the number of
    characters matched and the unread rest. *)
Definition match_at (r : regex) (s : string) : option (captures * nat * string) :=
  exec r s 0 [] (fun s' e cs => Some (cs, e, s')).

Record match_obj : Type := MatchObj {
  m_start : nat;        (* where the match starts in the searched text *)
  m_subject : string;   (* the searched text from there on *)
  m_end : nat;          (* the length of the match *)
  m_spans : captures
}.

(** [pattern.search]: the leftmost position at which the pattern matches. *)
Fixpoint search_from (r : regex) (i : nat) (s : string) : option match_obj :=
  match match_at r s with
  | Some (cs, e, _) => Some (MatchObj i s e cs)
  | None =>
      match s with
      | EmptyString => None
      | String _ s' => search_from r (S i) s'
      end
  end.

Definition search (r : regex) (s : string) : option match_obj :=
  search_from r 0 s.

(** [pattern.sub("", s)]: delete every non-overlapping match, scanning
    left to right.  [skip] counts the characters of the current match
    that are still to be dropped. *)
Fixpoint sub_del (r : regex) (skip : nat) (s : string) : string :=
  match s with
  | EmptyString => EmptyString
  | String c s' =>
      match skip with
      | S n => sub_del r n s'
      | O =>
          match match_at r s with
          | Some (_, S n, _) => sub_del r n s'
          | _ => String c (sub_del r 0 s')
          end
      end
  end.

Definition sub_empty (r : regex) (s : string) : string := sub_del r 0 s.

End Matcher.

(** [m.group(name)], [None] when the group took no part in the match. *)
Definition group (name : string) (m : match_obj) : option string :=
  match lookup_span name (m_spans m) with
  | Some (b, e) => Some (take (e - b) (drop b (m_subject m)))
  | None => None
  end.

(** The language of a pattern, independently of the matcher. *)
Inductive Matches (icase : bool) : regex -> string -> Prop :=
| MEps : Matches icase Eps EmptyString
| MOne c a : cset_mem icase c a = true -> Matches icase (One c) (String a EmptyString)
| MCat r1 r2 w1 w2 :
  Matches icase r1 w1 -> Matches icase r2 w2 -> Matches icase (Cat r1 r2) (w1 ++ w2)
| MAltL r1 r2 w : Matches icase r1 w -> Matches icase (Alt r1 r2) w
| MAltR r1 r2 w : Matches icase r2 w -> Matches icase (Alt r1 r2) w
| MOptNone r : Matches icase (Opt r) EmptyString
| MOptSome r w : Matches icase r w -> Matches icase (Opt r) w
| MRep c lo hi w :
  (forall a, In a (list_ascii_of_string w) -> cset_mem icase c a = true) ->
  lo <= length w ->
  (forall h, hi = Some h -> length w <= h) ->
  Matches icase (Rep c lo hi) w
| MGrp n r w : Matches icase r w -> Matches icase (Grp n r) w.

End Re.

(* ================================================================== *)
(** * Numbers *)
(* ================================================================== *)

Definition float : Type := spec_float.

Definition prec : Z := 53.
Definition emax : Z := 1024.

Definition f_lt (x y : float) : bool := SFltb x y.
Definition f_le (x y : float) : bool := SFleb x y.

Definition f_zero : float := S754_zero false.
Definition f_nan : float := S754_nan.

(** [math.isfinite] and [Number.isFinite] *)
Definition isfinite (x : float) : bool :=
  match x with
  | S754_zero _ | S754_finite _ _ _ => true
  | S754_infinity _ | S754_nan => false
  end.

(** The binary64 value nearest to [n / d]. *)
Definition float_of_ratio (n d : N) : float :=
  match n, d with
  | N0, _ => f_zero
  | Npos p, Npos q => SFdiv prec emax (S754_finite false p 0) (S754_finite false q 0)
  | Npos _, N0 => S754_infinity false
  end.

Definition digit_val (c : ascii) : N := (ord c - 48)%N.

Fixpoint digits_val (acc : N) (s : string) : N :=
  match s with
  | EmptyString => acc
  | String c s' => digits_val (10 * acc + digit_val c)%N s'
  end.

Fixpoint take_digits (s : string) : string * string :=
  match s with
  | String c s' =>
      if is_digit c then let (d, r) := take_digits s' in (String c d, r)
      else (EmptyString, s)
  | EmptyString => (EmptyString, EmptyString)
  end.

(** The number denoted by an integer part and a fraction part. *)
Definition decimal (ip fp : string) : float :=
  float_of_ratio (digits_val 0 (ip ++ fp)) (10 ^ N.of_nat (length fp)).

(** [float(text)] for the text matched by [\d+(?:\.\d{1,2})?], the only
    text the parser converts. *)
Definition py_float (text : string) : float :=
  let (ip, r) := take_digits text in
  match r with
  | String "."%char fr => decimal ip (fst (take_digits fr))
  | _ => decimal ip EmptyString
  end.

(* ================================================================== *)
(** * Price parsing *)
(* ================================================================== *)

Import Re.

Definition ws_star : regex := Rep CSpace 0 None.
Definition ws_plus : regex := Rep CSpace 1 None.

(** [\d+(?:\.\d{1,2})?] *)
Definition number : regex :=
  Cat (Rep CDigit 1 None) (Opt (Cat (Chr ".") (Rep CDigit 1 (Some 2)))).

(** [above|over|under|below|less\s+than|more\s+than|at\s+least|>=|>|<=|<] *)
Definition op_alternatives : regex :=
  alts (lit "above")
       [ lit "over"; lit "under"; lit "below";
         Cat (lit "less") (Cat ws_plus (lit "than"));
         Cat (lit "more") (Cat ws_plus (lit "than"));
         Cat (lit "at") (Cat ws_plus (lit "least"));
         lit ">="; lit ">"; lit "<="; lit "<" ].

(** [(?P<op>...)?\s*\$?\s*(?P<val>\d+(?:\.\d{1,2})?)], compiled with [re.I] *)
Definition PRICE_RE : regex :=
  Cat (Opt (Grp "op" op_alternatives))
      (Cat ws_star (Cat (Opt (Chr "$")) (Cat ws_star (Grp "val" number)))).

(** [\$?\s*(?P<lo>num)\s*[-–to]+\s*\$?\s*(?P<hi>num)], compiled with [re.I] *)
Definition RANGE_RE : regex :=
  Cat (Opt (Chr "$"))
      (Cat ws_star
           (Cat (Grp "lo" number)
                (Cat ws_star
                     (Cat (Rep (CChars "-–to") 1 None)
                          (Cat ws_star
                               (Cat (Opt (Chr "$"))
                                    (Cat ws_star (Grp "hi" number)))))))).

(** [m.group(name) or ""] *)
Definition group_or_empty (name : string) (m : match_obj) : string :=
  match group name m with
  | Some v => v
  | None => EmptyString
  end.

Definition string_in (s : string) (l : list string) : bool :=
  existsb (String.eqb s) l.

Definition lower_ops : list string := ["above"; "over"; "more than"; "at least"; ">"; ">="].
Definition upper_ops : list string := ["under"; "below"; "less than"; "<"; "<="].

(** [parse_price_filters]: [(min_price, max_price, cleaned_query)] *)
Definition parse_price_filters (goal : string) : option float * option float * string :=
  let g := strip goal in
  match search true RANGE_RE g with
  | Some m =>
      let lo := py_float (group_or_empty "lo" m) in
      let hi := py_float (group_or_empty "hi" m) in
      let cleaned := strip (sub_empty true RANGE_RE g) in
      (Some lo, Some hi, cleaned)
  | None =>
      match search true PRICE_RE g with
      | Some m =>
          let op := lower (group_or_empty "op" m) in
          let val := py_float (group_or_empty "val" m) in
          let cleaned := strip (sub_empty true PRICE_RE g) in
          if string_in op lower_ops then (Some val, None, cleaned)
          else if string_in op upper_ops then (None, Some val, cleaned)
          else (None, None, g)
      | None => (None, None, g)
      end
  end.

Definition f30 : float := Eval vm_compute in py_float "30".
Definition f50 : float := Eval vm_compute in py_float "50".

Inductive exn : Type :=
| PyExc (cls msg : string).

(** [str(e)] *)
Definition exn_str (e : exn) : string :=
  match e with PyExc _ msg => msg end.

Inductive reply (A : Type) : Type :=
| Returns (a : A)
| Throws (e : exn).
Arguments Returns {A} a.
Arguments Throws {A} e.

Inductive target : Type :=
| Url (u : string)
| AmazonSearch (goal : string).

Definition f100 : float := Eval vm_compute in py_float "100".

(** [int(round(p * 100))] raises [OverflowError] when the product is
    infinite. *)
Definition cents_overflow (p : option float) : bool :=
  match p with
  | Some x => negb (isfinite (SFmul prec emax x f100))
  | None => false
  end.

(** [build_amazon_search_url]: the search URL and the parsed bound.  The
    text of the URL (stop-word removal, quoting, the [p_36] filter) is not
    modelled; the URL built for [goal] is the target [AmazonSearch goal]. *)
Definition build_amazon_search_url (goal : string)
  : reply (target * option float * option float) :=
  let '(min_p, max_p, _) := parse_price_filters goal in
  if cents_overflow min_p || cents_overflow max_p
  then Throws (PyExc "OverflowError" "cannot convert float infinity to integer")
  else Returns (AmazonSearch goal, min_p, max_p).

(* ================================================================== *)
(** * Data model *)
(* ================================================================== *)

Record Product : Type := mkProduct {
  title : string;
  link : string;
  price : float
}.

(** The result dictionary [{"data": [], "errors": []}], with the optional
    key ["selected"]. *)
Record Results : Type := mkResults {
  data : list Product;
  selected : option Product;
  errors : list string
}.

(** A plan step, read with [step.get]: absent keys are [None]. *)
Record Step : Type := mkStep {
  action : option string;
  selector : option string;
  value : option string
}.

(** What the replanning callback returns: a mapping that may have the key
    ["steps"]. *)
Record PlanObj : Type := mkPlanObj {
  plan_steps : option (list Step)
}.

Record Sample : Type := mkSample {
  s_tag : string;
  s_role : string;
  s_aria : option string;
  s_text : string
}.

Record PageContext : Type := mkContext {
  ctx_title : option string;
  ctx_url : option string;
  element_samples : list Sample
}.

(** An element as far as the card scripts read it. *)
Record Elem : Type := mkElem {
  textContent : string;
  href : option string
}.

(** A product card is known through [card.querySelector(selector)]. *)
Definition Card : Type := string -> option Elem.

Definition handle : Type := nat.

Definition nonempty (s : string) : bool :=
  match s with
  | EmptyString => false
  | String _ _ => true
  end.

(** [x or default] on an optional string *)
Definition str_or (o : option string) (default : string) : string :=
  match o with
  | Some s => if nonempty s then s else default
  | None => default
  end.

(** JavaScript truthiness of a string-or-null value *)
Definition truthy (o : option string) : bool :=
  match o with
  | Some s => nonempty s
  | None => false
  end.

Definition is_nil {A : Type} (l : list A) : bool :=
  match l with
  | [] => true
  | _ :: _ => false
  end.

(* ================================================================== *)
(** * The card scripts evaluated in the page *)
(* ================================================================== *)

Definition keep_price_char (c : ascii) : bool :=
  is_digit c || Ascii.eqb c "." || Ascii.eqb c "," || Ascii.eqb c "-".

Fixpoint filter_str (p : ascii -> bool) (s : string) : string :=
  match s with
  | EmptyString => EmptyString
  | String c s' => if p c then String c (filter_str p s') else filter_str p s'
  end.

(** [s.split(/-|–/)[0]] on text that has no en dash left *)
Fixpoint before_dash (s : string) : string :=
  match s with
  | EmptyString => EmptyString
  | String c s' => if Ascii.eqb c "-" then EmptyString else String c (before_dash s')
  end.

(** [parseFloat] on text made of digits and dots: the longest prefix that
    is a decimal literal, [NaN] when there is none. *)
Definition js_parseFloat (s : string) : float :=
  let (ip, r) := take_digits s in
  let fp := match r with
            | String "."%char fr => fst (take_digits fr)
            | _ => EmptyString
            end in
  if nonempty ip || nonempty fp then decimal ip fp else f_nan.

(** [money]: the price a text denotes, [NaN] when it denotes none. *)
Definition money (priceText : option string) : float :=
  match priceText with
  | None => f_nan
  | Some EmptyString => f_nan
  | Some s =>
      js_parseFloat
        (filter_str (fun c => negb (Ascii.eqb c ","))
                    (before_dash (filter_str keep_price_char s)))
  end.

Definition first_of (card : Card) (selectors : list string) : option Elem :=
  fold_right (fun sel rest => match card sel with Some e => Some e | None => rest end)
             None selectors.

Definition exists_any (card : Card) (selectors : list string) : bool :=
  existsb (fun sel => match card sel with Some _ => true | None => false end) selectors.

Definition sponsored_markers : list string :=
  ["[aria-label='Sponsored']"; ".s-sponsored-label-text"; ".puis-sponsored-label-text"].

Definition isSponsored (card : Card) : bool := exists_any card sponsored_markers.

Definition absolute_link (h : option string) : option string :=
  match h with
  | Some u =>
      if nonempty u then
        Some (if starts_with "http" u then u else ("https://www.amazon.com" ++ u)%string)
      else None
  | None => None
  end.

Definition text_of (e : option Elem) : option string := option_map textContent e.

Definition title_selectors : list string :=
  ["h2 a span";
   ".a-size-medium.a-color-base.a-text-normal";
   ".a-size-base-plus.a-color-base.a-text-normal"].

Definition link_selectors : list string :=
  ["h2 a[href]"; "a.a-link-normal.s-underline-text"; "a.a-link-normal"].

Definition offscreen_selectors : list string :=
  [".a-price .a-offscreen";
   ".a-text-price .a-offscreen";
   "span[data-a-color='price'] .a-offscreen";
   "span[data-a-color='base'] .a-offscreen";
   "span.a-price[data-a-size] .a-offscreen";
   ".a-price .a-price-range .a-offscreen";
   ".a-price-whole"].

(** The price text the main script settles on: the offscreen text, else
    whole and fraction joined, else the bare currency symbol. *)
Definition card_price_text (card : Card) : option string :=
  let priceText := text_of (first_of card offscreen_selectors) in
  let priceText :=
    if truthy priceText then priceText
    else
      let whole := str_or (text_of (card ".a-price .a-price-whole")) "" in
      let frac := str_or (text_of (card ".a-price .a-price-fraction")) "00" in
      if nonempty (js_trim whole) then Some (whole ++ "." ++ frac)%string else priceText in
  if truthy priceText then priceText
  else
    match card ".a-price-symbol" with
    | Some symbol => Some (textContent symbol)
    | None => priceText
    end.

Definition card_title (card : Card) : option string :=
  option_map (fun e => js_trim (textContent e)) (first_of card title_selectors).

Definition card_link (card : Card) : option string :=
  absolute_link (match first_of card link_selectors with
                 | Some e => href e
                 | None => None
                 end).

Definition f_pos (x : float) : bool := f_lt f_zero x.

(** [!Number.isFinite(price) || price <= 0] is false *)
Definition good_price (x : float) : bool := isfinite x && negb (f_le x f_zero).

Definition make_product (t l : option string) (p : float) (sponsored : bool)
  : option Product :=
  match t, l with
  | Some t', Some l' =>
      if nonempty t' && good_price p && negb sponsored
      then Some (mkProduct t' l' p) else None
  | _, _ => None
  end.

(** The main card script (the arrow function mapped over the cards). *)
Definition card_product (card : Card) : option Product :=
  make_product (card_title card) (card_link card)
               (money (card_price_text card)) (isSponsored card).

(** The fallback-layout card script. *)
Definition card_product_fallback (c : Card) : option Product :=
  let t := match text_of (c "h2 a span") with
           | Some t => if nonempty (js_trim t) then Some (js_trim t) else None
           | None => None
           end in
  let h := match c "h2 a[href]" with
           | Some e => if truthy (href e) then href e else None
           | None => None
           end in
  let priceText :=
    if truthy (text_of (c ".a-price .a-offscreen")) then text_of (c ".a-price .a-offscreen")
    else if truthy (text_of (c ".a-color-price")) then text_of (c ".a-color-price")
    else None in
  make_product t (absolute_link h) (money priceText) (isSponsored c).

(** [cards.map(f).filter(Boolean)] *)
Fixpoint map_filter {A B : Type} (f : A -> option B) (l : list A) : list B :=
  match l with
  | [] => []
  | x :: l' =>
      match f x with
      | Some y => y :: map_filter f l'
      | None => map_filter f l'
      end
  end.

(* ================================================================== *)
(** * Python list helpers *)
(* ================================================================== *)

(** [within_bounds] *)
Definition within_bounds (min_price max_price : option float) (p : Product) : bool :=
  match min_price with
  | Some lo => if f_lt (price p) lo then false
               else match max_price with
                    | Some hi => negb (f_lt hi (price p))
                    | None => true
                    end
  | None => match max_price with
            | Some hi => negb (f_lt hi (price p))
            | None => true
            end
  end.

(** The post-extraction filter of [extract_products]. *)
Definition keep_product (min_price max_price : option float) (p : Product) : bool :=
  within_bounds min_price max_price p && isfinite (price p) && f_pos (price p).

(** [list.sort(key=price)] is a stable sort that compares keys with [<]
    only.  On keys that [<] orders totally there is one stable sorted
    arrangement; it is computed here by stable insertion. *)
Fixpoint insert_by_price (x : Product) (l : list Product) : list Product :=
  match l with
  | [] => [x]
  | y :: l' =>
      if f_lt (price y) (price x) then y :: insert_by_price x l'
      else x :: l
  end.

Fixpoint sort_by_price (l : list Product) : list Product :=
  match l with
  | [] => []
  | x :: l' => insert_by_price x (sort_by_price l')
  end.

(** [min(products, key=price)]: the first element with the least key. *)
Fixpoint min_from (best : Product) (l : list Product) : Product :=
  match l with
  | [] => best
  | x :: l' => min_from (if f_lt (price x) (price best) then x else best) l'
  end.

Definition min_by_price (l : list Product) : option Product :=
  match l with
  | [] => None
  | x :: l' => Some (min_from x l')
  end.

(* ================================================================== *)
(** * The browser as an external world *)
(* ================================================================== *)

(** The Playwright and file-system calls the executor makes.  Timeouts
    are not arguments here: a call that times out throws. *)
Inductive call : Type -> Type :=
| PwStart : call unit
| Launch (headless : bool) : call unit
| NewContext : call unit
| NewPage : call unit
| ContextClose : call unit
| BrowserClose : call unit
| PwStop : call unit
| WaitForLoadState (state : string) : call unit
| AddInitScript : call unit
| SetExtraHttpHeaders : call unit
| SetViewportSize (width height : Z) : call unit
| Goto (t : target) : call unit
| WaitForTimeout (ms : Z) : call unit
| WaitForSelector (sel state : string) : call unit
| Click (sel : string) : call unit
| Fill (sel v : string) : call unit
| Focus (sel : string) : call unit
| KeyboardPress (key : string) : call unit
| MouseWheel (dx dy : Z) : call unit
| LocatorClick (sel : string) : call unit
| Content : call string
| PageTitle : call string
| PageUrl : call string
| Screenshot (path : string) : call unit
| WriteFile (path text : string) : call unit
| QuerySelectorAll (sel : string) : call (list handle)
| EvalOnSelectorAll (sel : string) : call (list Card)
| ElTagName (h : handle) : call string
| ElGetAttribute (h : handle) (name : string) : call (option string)
| ElIsVisible (h : handle) : call bool
| ElInnerText (h : handle) : call string.

(** What a run leaves behind, most recent first: the calls made, the
    invocations of the replanning callback and, as a marker, every
    extraction the engine stored. *)
Inductive event : Type :=
| Called {A : Type} (c : call A)
| Replanned (goal : string) (ctx : PageContext)
| Extracted (products : list Product).

Definition is_eval (e : event) : bool :=
  match e with
  | Called (EvalOnSelectorAll _) => true
  | _ => false
  end.

(** The outcome of a computation: a value, a Python exception, or a loop
    that has not ended within the fuel it was given. *)
Inductive res (A : Type) : Type :=
| Ok (a : A)
| Raise (e : exn)
| Diverge.
Arguments Ok {A} a.
Arguments Raise {A} e.
Arguments Diverge {A}.

Declare Scope exec_scope.
Delimit Scope exec_scope with exec.

Section Executor.

Variable W : Type.
Variable perform : forall A : Type, call A -> W -> reply A * W.

Record session : Type := mkSession {
  world : W;
  trace : list event
}.

Definition M (A : Type) : Type := session -> res A * session.

Definition ret {A : Type} (a : A) : M A := fun s => (Ok a, s).

Definition bind {A B : Type} (m : M A) (f : A -> M B) : M B :=
  fun s =>
    match m s with
    | (Ok a, s') => f a s'
    | (Raise e, s') => (Raise e, s')
    | (Diverge, s') => (Diverge, s')
    end.

Definition raise {A : Type} (e : exn) : M A := fun s => (Raise e, s).

Definition diverge {A : Type} : M A := fun s => (Diverge, s).

(** [try: m  except Exception as e: h e] *)
Definition try_catch {A : Type} (m : M A) (h : exn -> M A) : M A :=
  fun s =>
    match m s with
    | (Raise e, s') => h e s'
    | r => r
    end.

(** [try: m  finally: f] *)
Definition try_finally {A : Type} (m : M A) (f : M unit) : M A :=
  fun s =>
    match m s with
    | (Ok a, s') =>
        match f s' with
        | (Ok _, s'') => (Ok a, s'')
        | (Raise e, s'') => (Raise e, s'')
        | (Diverge, s'') => (Diverge, s'')
        end
    | (Raise e, s') =>
        match f s' with
        | (Ok _, s'') => (Raise e, s'')
        | (Raise e', s'') => (Raise e', s'')
        | (Diverge, s'') => (Diverge, s'')
        end
    | (Diverge, s') => (Diverge, s')
    end.

Definition emit (ev : event) : M unit :=
  fun s => (Ok tt, mkSession (world s) (ev :: trace s)).

(** One call into the world. *)
Definition do {A : Type} (c : call A) : M A :=
  fun s =>
    match perform A c (world s) with
    | (Returns a, w') => (Ok a, mkSession w' (Called c :: trace s))
    | (Throws e, w') => (Raise e, mkSession w' (Called c :: trace s))
    end.

Notation "x <- m ;; k" := (bind m (fun x => k))
  (at level 61, m at next level, right associativity) : exec_scope.
Notation "m ;; k" := (bind m (fun _ => k))
  (at level 61, right associativity) : exec_scope.
#[local] Open Scope exec_scope.

(** [try: m  except Exception: pass] *)
Definition swallow (m : M unit) : M unit := try_catch m (fun _ => ret tt).

Fixpoint repeat_m (n : nat) (m : M unit) : M unit :=
  match n with
  | O => ret tt
  | S n' => m ;; repeat_m n' m
  end.

Fixpoint for_each {A : Type} (f : A -> M unit) (l : list A) : M unit :=
  match l with
  | [] => ret tt
  | x :: l' => f x ;; for_each f l'
  end.

(* ---------------------------------------------------------------- *)
(** ** Utility helpers *)

Definition SEARCH_INPUTS : list string :=
  ["input#twotabsearchtextbox"; "input[name='field-keywords']"].

Definition SEARCH_SUBMITS : list string :=
  ["input#nav-search-submit-button"; "input[type='submit'][value]"; "input[type='submit']"].

Definition _wait_ready : M unit :=
  swallow (do (WaitForLoadState "domcontentloaded")).

(** [[selector] + [s for s in fallbacks if s != selector and s]] *)
Definition candidates (sel : string) (fallbacks : list string) : list string :=
  sel :: filter (fun s => negb (String.eqb s sel) && nonempty s) fallbacks.

(** [for sel in sels: try: attempt(sel); return True  except Exception: continue],
    falling through with [False]. *)
Fixpoint try_each (attempt : string -> M unit) (sels : list string) : M bool :=
  match sels with
  | [] => ret false
  | sel :: rest =>
      ok <- try_catch (attempt sel ;; ret true) (fun _ => ret false) ;;
      if ok then ret true else try_each attempt rest
  end.

Definition _click_with_fallbacks (sel : string) : M bool :=
  clicked <- try_each (fun s => do (WaitForSelector s "visible") ;; do (Click s))
                      (candidates sel SEARCH_SUBMITS) ;;
  if clicked then ret true
  else
    try_each (fun si => do (WaitForSelector si "visible") ;;
                        do (Focus si) ;;
                        do (KeyboardPress "Enter"))
             SEARCH_INPUTS.

Definition _fill_with_fallbacks (sel v : string) : M bool :=
  try_each (fun s => do (WaitForSelector s "attached") ;;
                     do (WaitForSelector s "visible") ;;
                     do (Fill s v))
           (candidates sel SEARCH_INPUTS).

(** The replanning callback: a function of the goal and the page
    context that returns a plan object or [None], or throws; it may
    change the world. *)
Definition llm_callback : Type :=
  string -> PageContext -> W -> reply (option PlanObj) * W.

Definition call_llm_fn (llm_fn : option llm_callback) (goal : string)
           (context : PageContext) : M (option PlanObj) :=
  match llm_fn with
  | None => ret None
  | Some f =>
      fun s =>
        match f goal context (world s) with
        | (Returns r, w') => (Ok r, mkSession w' (Replanned goal context :: trace s))
        | (Throws e, w') => (Raise e, mkSession w' (Replanned goal context :: trace s))
        end
  end.

(* ---------------------------------------------------------------- *)
(** ** The context snapshot of [browser_utils.extract_mcp_context_payload] *)

Definition sample_element (el : handle) : M (option Sample) :=
  try_catch
    (tag <- do (ElTagName el) ;;
     role <- do (ElGetAttribute el "role") ;;
     aria <- do (ElGetAttribute el "aria-label") ;;
     visible <- do (ElIsVisible el) ;;
     txt <- (if visible then do (ElInnerText el) else ret EmptyString) ;;
     let txt := take 80 (strip txt) in
     if nonempty txt || truthy aria || truthy role
     then ret (Some (mkSample tag (str_or role "none") aria txt))
     else ret None)
    (fun _ => ret None).

Fixpoint sample_elements (els : list handle) (acc : list Sample) : M (list Sample) :=
  match els with
  | [] => ret acc
  | el :: rest =>
      o <- sample_element el ;;
      sample_elements rest (match o with Some x => acc ++ [x] | None => acc end)
  end.

Definition extract_mcp_context_payload : M PageContext :=
  try_catch
    (t <- do PageTitle ;;
     u <- do PageUrl ;;
     try_catch
       (elements <- do (QuerySelectorAll "*") ;;
        samples <- sample_elements (firstn 100 elements) [] ;;
        ret (mkContext (Some t) (Some u) samples))
       (fun _ => ret (mkContext (Some t) (Some u) [])))
    (fun _ => ret (mkContext None None [])).

(* ---------------------------------------------------------------- *)
(** ** Product extraction *)

Definition debug_html_path : string := "debug_amazon_item.html".

Definition block_markers : list string :=
  ["captcha"; "robot check"; "enter the characters you see"; "/errors/validateCaptcha"].

(** [any(b in html.lower() for b in block_markers)] *)
Definition blocked (html : string) : bool :=
  existsb (fun b => contains b (lower html)) block_markers.

Definition popup_selectors : list string :=
  ["input#sp-cc-accept"; "button[name='glowDoneButton']"; "input[name='glowDoneButton']"].

Definition items_selector : string :=
  "div.s-main-slot div[data-asin]:not([data-asin='']), div.s-widget-container".

Definition cards_selector : string :=
  "div.s-main-slot div[data-asin]:not([data-asin='']), div.s-card-container, div.sg-col-inner".

Definition fallback_cards_selector : string := "div.s-card-container".

Definition prices_selector : string :=
  ".a-price .a-offscreen, span[data-a-color='price'] .a-offscreen, div.s-widget-container".

(** The retry loop: up to [n] queries for product containers, scrolling
    after each query that finds none. *)
Fixpoint poll_items (n : nat) : M (list handle) :=
  match n with
  | O => ret []
  | S n' =>
      items <- do (QuerySelectorAll items_selector) ;;
      if is_nil items
      then do (MouseWheel 0 2500) ;; poll_items n'
      else ret items
  end.

(** Markup to file, then a screenshot. *)
Definition save_page (shot : string) : M unit :=
  html <- do Content ;;
  do (WriteFile debug_html_path html) ;;
  do (Screenshot shot).

Definition lift {A : Type} (r : reply A) : M A :=
  match r with
  | Returns a => ret a
  | Throws e => raise e
  end.

(** Lines 143-154: the anti-bot hints, the navigation to the search
    page and the first read of the markup. *)
Definition open_search (goal : string) : M (string * option float * option float) :=
  do AddInitScript ;;
  do SetExtraHttpHeaders ;;
  do (SetViewportSize 1366 900) ;;
  b <- lift (build_amazon_search_url goal) ;;
  let '(url, min_price, max_price) := b in
  do (Goto url) ;;
  html <- do Content ;;
  ret (html, min_price, max_price).

(** Lines 163-198: the overlays, the results container, the scrolling and
    the poll for product containers. *)
Definition find_items : M (list handle) :=
  for_each (fun sel => swallow (do (LocatorClick sel))) popup_selectors ;;
  do (WaitForSelector "div.s-main-slot" "visible") ;;
  repeat_m 12 (do (MouseWheel 0 2000)) ;;
  do (WaitForSelector prices_selector "visible") ;;
  poll_items 5.

(** Lines 163-321: what follows when no block marker is found. *)
Definition read_cards (min_price max_price : option float) : M (list Product) :=
  items <- find_items ;;
  if is_nil items then
    save_page "debug_no_cards.png" ;;
    ret []
  else
    cards <- do (EvalOnSelectorAll cards_selector) ;;
    let products := map_filter card_product cards in
    products <- (if is_nil products
                 then cards' <- do (EvalOnSelectorAll fallback_cards_selector) ;;
                      ret (map_filter card_product_fallback cards')
                 else ret products) ;;
    let products := filter (keep_product min_price max_price) products in
    if is_nil products then
      save_page "debug_no_products.png" ;;
      ret []
    else
      ret (sort_by_price products).

Definition extract_products (goal : string) : M (list Product) :=
  try_catch
    (opened <- open_search goal ;;
     let '(html, min_price, max_price) := opened in
     if blocked html then
       do (Screenshot "debug_captcha.png") ;;
       do (WriteFile debug_html_path html) ;;
       ret []
     else read_cards min_price max_price)
    (fun _ => swallow (save_page "debug_exception.png") ;; ret []).

(* ---------------------------------------------------------------- *)
(** ** Plan execution *)

Definition empty_results : Results := mkResults [] None [].

Definition add_error (r : Results) (msg : string) : Results :=
  mkResults (data r) (selected r) (errors r ++ [msg]).

Definition step_action (st : Step) : string :=
  match action st with Some a => a | None => EmptyString end.

Definition step_selector (st : Step) : string := strip (str_or (selector st) "").

Definition step_value (st : Step) (goal : string) : string := str_or (value st) goal.

Definition known_actions : list string :=
  ["goto"; "wait_for"; "fill"; "click"; "scroll"; "extract"].

(** The body of the inner [try]: the dispatch on the step's action.  The
    value is the result dictionary after the step. *)
Definition run_step (goal : string) (st : Step) (results : Results) : M Results :=
  let act := step_action st in
  let sel := step_selector st in
  if String.eqb act "goto" then
    do (Goto (Url sel)) ;; _wait_ready ;; do (WaitForTimeout 2000) ;; ret results
  else if String.eqb act "wait_for" then
    do (WaitForSelector sel "visible") ;; ret results
  else if String.eqb act "fill" then
    _fill_with_fallbacks sel (step_value st goal) ;; ret results
  else if String.eqb act "click" then
    _click_with_fallbacks sel ;; ret results
  else if String.eqb act "scroll" then
    do (MouseWheel 0 2000) ;; ret results
  else if String.eqb act "extract" then
    products <- extract_products goal ;;
    if is_nil products then raise (PyExc "RuntimeError" "Extraction failed.")
    else
      emit (Extracted products) ;;
      ret (mkResults products (min_by_price products) (errors results))
  else ret results.

(** How one turn of the [while] loop ends. *)
Inductive control : Type :=
| Advance (results : Results)
| Restart (new_steps : list Step) (results : Results)
| Break (results : Results).

(** The [except Exception as e] branch of the loop. *)
Definition on_failure (goal : string) (llm_fn : option llm_callback)
           (results : Results) (e : exn) : M control :=
  match llm_fn with
  | Some _ =>
      page_context <- extract_mcp_context_payload ;;
      plan_obj <- call_llm_fn llm_fn goal page_context ;;
      let new_steps :=
        match plan_obj with
        | Some (mkPlanObj (Some l)) => l
        | _ => []
        end in
      if is_nil new_steps
      then ret (Break (add_error results "No steps generated during replan."))
      else ret (Restart new_steps results)
  | None => ret (Break (add_error results (exn_str e)))
  end.

Definition turn (goal : string) (llm_fn : option llm_callback)
           (st : Step) (results : Results) : M control :=
  try_catch (r <- run_step goal st results ;; ret (Advance r))
            (on_failure goal llm_fn results).

(** The [while step_idx < len(steps)] loop and the [return results]
    after it.  Every turn uses one unit of fuel. *)
Fixpoint run_loop (fuel : nat) (goal : string) (llm_fn : option llm_callback)
         (steps : list Step) (step_idx : nat) (results : Results) : M Results :=
  match fuel with
  | O => diverge
  | S fuel' =>
      match nth_error steps step_idx with
      | None => ret results
      | Some st =>
          c <- turn goal llm_fn st results ;;
          match c with
          | Advance r => run_loop fuel' goal llm_fn steps (S step_idx) r
          | Restart new_steps r => run_loop fuel' goal llm_fn new_steps 0 r
          | Break r => ret r
          end
      end
  end.

(** Lines 346-368: browser, context and page, and the anti-bot settings. *)
Definition setup (headless : bool) : M unit :=
  do (Launch headless) ;;
  do NewContext ;;
  do NewPage ;;
  _wait_ready ;;
  do AddInitScript ;;
  do SetExtraHttpHeaders ;;
  do (SetViewportSize 1366 900).

(** The [finally] clause. *)
Definition teardown : M unit :=
  do ContextClose ;; do BrowserClose.

Definition execute_plan (fuel : nat) (steps : list Step) (goal : string)
           (headless : bool) (llm_fn : option llm_callback) : M Results :=
  do PwStart ;;
  try_finally
    (setup headless ;;
     try_finally (run_loop fuel goal llm_fn steps 0 empty_results) teardown)
    (do PwStop).

End Executor.

Arguments session : clear implicits.
Arguments mkSession {W} world trace.
Arguments world {W} s.
Arguments trace {W} s.
Arguments M : clear implicits.
Arguments llm_callback : clear implicits.
Arguments ret {W A} a s.
Arguments bind {W A B} m f s.
Arguments raise {W A} e s.
Arguments try_catch {W A} m h s.
Arguments try_finally {W A} m f s.
Arguments emit {W} ev s.
Arguments do {W} perform {A} c s.
Arguments lift {W A} r s.
Arguments swallow {W} m s.
Arguments repeat_m {W} n m.
Arguments for_each {W A} f l.
Arguments try_each {W} attempt sels.
Arguments _wait_ready {W} perform s.
Arguments _click_with_fallbacks {W} perform sel.
Arguments _fill_with_fallbacks {W} perform sel v.
Arguments call_llm_fn {W} llm_fn goal context.
Arguments sample_element {W} perform el s.
Arguments sample_elements {W} perform els acc.
Arguments extract_mcp_context_payload {W} perform s.
Arguments poll_items {W} perform n.
Arguments save_page {W} perform shot.
Arguments open_search {W} perform goal.
Arguments find_items {W} perform.
Arguments read_cards {W} perform min_price max_price.
Arguments extract_products {W} perform goal s.
Arguments run_step {W} perform goal st results.
Arguments on_failure {W} perform goal llm_fn results e.
Arguments turn {W} perform goal llm_fn st results s.
Arguments run_loop {W} perform fuel goal llm_fn steps step_idx results.
Arguments setup {W} perform headless.
Arguments teardown {W} perform.
Arguments execute_plan {W} perform fuel steps goal headless llm_fn.

(* ================================================================== *)
(** * A scripted page, for concrete runs *)
(* ================================================================== *)

Module Demo.

Record page : Type := mkPage {
  html : string;                          (* what [page.content()] returns *)
  missing : list string;                  (* selectors that never appear *)
  unreachable : bool;                     (* [page.goto] of a plain URL throws *)
  items : list handle;                    (* the product containers *)
  card_batches : list (list Card);        (* answers of the successive main card queries *)
  fallback_cards : list Card;             (* the fallback card query *)
  replans : list (reply (option PlanObj)) (* the callback's successive answers *)
}.

Definition timeout : exn := PyExc "TimeoutError" "Timeout exceeded.".

Definition perform (A : Type) (c : call A) (w : page) : reply A * page :=
  match c in call T return reply T * page with
  | PwStart => (Returns tt, w)
  | Launch _ => (Returns tt, w)
  | NewContext => (Returns tt, w)
  | NewPage => (Returns tt, w)
  | ContextClose => (Returns tt, w)
  | BrowserClose => (Returns tt, w)
  | PwStop => (Returns tt, w)
  | WaitForLoadState _ => (Returns tt, w)
  | AddInitScript => (Returns tt, w)
  | SetExtraHttpHeaders => (Returns tt, w)
  | SetViewportSize _ _ => (Returns tt, w)
  | Goto (Url _) => if unreachable w then (Throws timeout, w) else (Returns tt, w)
  | Goto (AmazonSearch _) => (Returns tt, w)
  | WaitForTimeout _ => (Returns tt, w)
  | WaitForSelector sel _ =>
      if existsb (String.eqb sel) (missing w) then (Throws timeout, w) else (Returns tt, w)
  | Click _ => (Returns tt, w)
  | Fill _ _ => (Returns tt, w)
  | Focus _ => (Returns tt, w)
  | KeyboardPress _ => (Returns tt, w)
  | MouseWheel _ _ => (Returns tt, w)
  | LocatorClick _ => (Throws timeout, w)
  | Content => (Returns (html w), w)
  | PageTitle => (Returns "Amazon.com", w)
  | PageUrl => (Returns "https://www.amazon.com/", w)
  | Screenshot _ => (Returns tt, w)
  | WriteFile _ _ => (Returns tt, w)
  | QuerySelectorAll _ => (Returns (items w), w)
  | EvalOnSelectorAll sel =>
      if String.eqb sel cards_selector then
        match card_batches w with
        | [] => (Returns [], w)
        | b :: rest =>
            (Returns b,
             mkPage (html w) (missing w) (unreachable w) (items w) rest
                    (fallback_cards w) (replans w))
        end
      else (Returns (fallback_cards w), w)
  | ElTagName _ => (Returns "div", w)
  | ElGetAttribute _ _ => (Returns None, w)
  | ElIsVisible _ => (Returns false, w)
  | ElInnerText _ => (Returns EmptyString, w)
  end.

(** A callback that reads its answers off the script. *)
Definition llm : llm_callback page :=
  fun _ _ w =>
    match replans w with
    | [] => (Returns None, w)
    | r :: rest =>
        (r, mkPage (html w) (missing w) (unreachable w) (items w) (card_batches w)
                   (fallback_cards w) rest)
    end.

Fixpoint lookup (sel : string) (l : list (string * Elem)) : option Elem :=
  match l with
  | [] => None
  | (k, e) :: l' => if String.eqb k sel then Some e else lookup sel l'
  end.

Definition card_of (l : list (string * Elem)) : Card := fun sel => lookup sel l.

(** A card in the main layout: title, link and offscreen price. *)
Definition card (t h p : string) : Card :=
  card_of [ ("h2 a span", mkElem t None);
            ("h2 a[href]", mkElem EmptyString (Some h));
            (".a-price .a-offscreen", mkElem p None) ].

Definition sponsored_card (t h p : string) : Card :=
  card_of [ ("h2 a span", mkElem t None);
            ("h2 a[href]", mkElem EmptyString (Some h));
            (".a-price .a-offscreen", mkElem p None);
            (".s-sponsored-label-text", mkElem "Sponsored" None) ].

Definition start (w : page) : session page := mkSession w [].

Definition step (a s : string) : Step := mkStep (Some a) (Some s) None.

Definition results_page (batches : list (list Card)) : page :=
  mkPage "<html><div class='s-main-slot'></div></html>" [] false [0] batches [] [].

(** The page of a search that cannot be reached and whose selectors never
    appear. *)
Definition offline (answers : list (reply (option PlanObj))) : page :=
  mkPage "<html></html>"
         ["#q"; "#go"; "input#twotabsearchtextbox"; "input[name='field-keywords']";
          "input#nav-search-submit-button"; "input[type='submit'][value]";
          "input[type='submit']"]
         true [] [] [] answers.

Definition boom : exn := PyExc "ValueError" "Missing OPENAI_API_KEY in environment variables.".

Definition hat : Card := card "Hat" "/dp/B01" "$12.99".
Definition cap : Card := card "Cap" "https://www.amazon.com/dp/B02" "$1,234.50 - $2,000".
Definition freebie : Card := card "Freebie" "/dp/B03" "FREE".
Definition advert : Card := sponsored_card "Ad" "/dp/B04" "$1.00".
Definition broken_advert : Card := sponsored_card "Ad" "/dp/B05" "n/a".

(** A page that answers the search with an anti-bot challenge. *)
Definition captcha_page : page :=
  mkPage "<html><form action='/errors/validateCaptcha'></form></html>"
         [] false [0] [[hat]] [] [].

Definition hat_product : Product :=
  mkProduct "Hat" "https://www.amazon.com/dp/B01" (decimal "12" "99").

Definition cap_product : Product :=
  mkProduct "Cap" "https://www.amazon.com/dp/B02" (decimal "1234" "50").

Definition home : Step := step "goto" "https://www.amazon.com".
Definition extract : Step := step "extract" "div[data-component-type='s-search-result']".

(** The default plan of the planner without its second [wait_for]. *)
Definition search_plan : list Step :=
  [ home;
    step "wait_for" "#twotabsearchtextbox";
    mkStep (Some "fill") (Some "#twotabsearchtextbox") (Some "hat");
    step "click" "#nav-search-submit-button";
    extract ].

End Demo.


(* ================================================================== *)
(** * Vocabulary of the properties *)
(* ================================================================== *)

(** [m] ends (with a value or an exception) and every event it adds to
    the trace satisfies [P]. *)
Definition emits {W A : Type} (P : event -> Prop) (m : M W A) : Prop :=
  forall s, exists evs,
    trace (snd (m s)) = evs ++ trace s /\ Forall P evs /\ fst (m s) <> Diverge.

(** [m] returns a value, whatever the world does. *)
Definition safe {W A : Type} (m : M W A) : Prop :=
  forall s, exists a, fst (m s) = Ok a.

(** The calls that open and close the browser session. *)
Definition session_call {A : Type} (c : call A) : bool :=
  match c with
  | PwStart | Launch _ | NewContext | NewPage | ContextClose | BrowserClose | PwStop
  | AddInitScript | SetExtraHttpHeaders | SetViewportSize _ _ => true
  | _ => false
  end.

(** The session can always be opened and closed. *)
Definition session_ok {W : Type} (perform : forall A : Type, call A -> W -> reply A * W)
  : Prop :=
  forall (A : Type) (c : call A) (w : W),
    session_call c = true -> exists a, fst (perform A c w) = Returns a.

(** The session in which the first step of a plan runs. *)
Definition opened {W : Type} (perform : forall A : Type, call A -> W -> reply A * W)
           (headless : bool) (s : session W) : session W :=
  snd (bind (do perform PwStart) (fun _ => setup perform headless) s).

(** [runs_ok goal steps r s r' s']: run one after the other from the
    result [r] in the session [s], the steps all succeed and leave the
    result [r'] and the session [s']. *)
Inductive runs_ok {W : Type} (perform : forall A : Type, call A -> W -> reply A * W)
          (goal : string) : list Step -> Results -> session W -> Results -> session W -> Prop :=
| runs_nil r s : runs_ok perform goal [] r s r s
| runs_cons st steps r s r1 s1 r' s' :
    run_step perform goal st r s = (Ok r1, s1) ->
    runs_ok perform goal steps r1 s1 r' s' ->
    runs_ok perform goal (st :: steps) r s r' s'.

(** The products of the most recent stored extraction in a trace. *)
Fixpoint last_extraction (tr : list event) : option (list Product) :=
  match tr with
  | [] => None
  | Extracted ps :: _ => Some ps
  | _ :: tr' => last_extraction tr'
  end.

(** The result dictionary shows the most recent extraction and nothing
    of the earlier ones. *)
Definition shows_last (r : Results) (tr : list event) : Prop :=
  match last_extraction tr with
  | Some ps => data r = ps /\ selected r = min_by_price ps
  | None => data r = [] /\ selected r = None
  end.

Definition not_extracted (ev : event) : Prop :=
  match ev with
  | Extracted _ => False
  | _ => True
  end.

Definition not_eval (ev : event) : Prop := is_eval ev = false.

(** The price the main card script reads off a card. *)
Definition card_price (card : Card) : float := money (card_price_text card).

Definition bad_price (card : Card) : bool :=
  negb (isfinite (card_price card)) || f_le (card_price card) f_zero.

(** The rejection test of the main card script: title missing, link
    missing, price not finite, price not above zero, or sponsored. *)
Definition card_rejected (card : Card) : bool :=
  negb (truthy (card_title card)) || negb (truthy (card_link card))
  || bad_price card || isSponsored card.

(** Positive finite numbers. *)
Definition pos_finite (x : float) : Prop :=
  match x with
  | S754_finite false _ _ => True
  | _ => False
  end.

Definition cheaper_or_equal (a b : Product) : Prop := f_le (price a) (price b) = true.

Definition out_of_bound (min_price max_price : option float) (p : Product) : bool :=
  negb (within_bounds min_price max_price p).

(** Reading [s] from state [st]: a digit, later a character that is no
    digit, later a digit again. *)
Fixpoint gapped (st : nat) (s : string) : bool :=
  match s with
  | EmptyString => false
  | String c s' =>
      if is_digit c then
        match st with
        | 0 | 1 => gapped 1 s'
        | _ => true
        end
      else
        match st with
        | 0 => gapped 0 s'
        | _ => gapped 2 s'
        end
  end.

Fixpoint last_char (s : string) : option ascii :=
  match s with
  | EmptyString => None
  | String c EmptyString => Some c
  | String _ s' => last_char s'
  end.

(** What may stand between the comparison word and the number. *)
Definition is_junk (c : ascii) : bool := py_isspace c || Ascii.eqb c "$".

Fixpoint all_chars (p : ascii -> bool) (s : string) : bool :=
  match s with
  | EmptyString => true
  | String c s' => p c && all_chars p s'
  end.

(** The shape of a comparison word: no digit, and a last letter after
    which the word cannot go on. *)
Definition op_word (w : string) : Prop :=
  no_digitb w = true
  /\ exists c, last_char w = Some c
               /\ is_junk c = false
               /\ (String.length w <= 5 \/ lower_char c = "n"%char \/ lower_char c = "t"%char).


(* ================================================================== *)
(** * The code around the executor and the words to speak of it *)
(* ================================================================== *)

#[local] Open Scope list_scope.


(** A product as the card scripts build it: a title that is not empty
    and has no white space around it, an absolute link, a finite price
    above zero. *)
Definition well_formed (p : Product) : Prop :=
  nonempty (title p) = true
  /\ js_trim (title p) = title p
  /\ starts_with "http" (link p) = true
  /\ pos_finite (price p).

(** The price lies within the bound parsed from the goal. *)
Definition in_bound (goal : string) (p : Product) : Prop :=
  within_bounds (fst (fst (parse_price_filters goal)))
                (snd (fst (parse_price_filters goal))) p = true.

(** Every value [m] returns satisfies [Q]. *)
Definition yields {W A : Type} (Q : A -> Prop) (m : M W A) : Prop :=
  forall s a s', m s = (Ok a, s') -> Q a.

(** What [extract_products] hands back when the products it filtered and
    sorted were well formed. *)
Definition listing (lo hi : option float) (ps : list Product) : Prop :=
  Forall well_formed ps
  /\ Forall (fun p => within_bounds lo hi p = true) ps
  /\ StronglySorted cheaper_or_equal ps.


(** The result dictionary has its cheapest product first, and that
    product is the selected one; without products nothing is selected. *)
Definition cheapest_first (r : Results) : Prop :=
  match data r with
  | [] => selected r = None
  | p :: ps => selected r = Some p /\ Forall (cheaper_or_equal p) ps
  end.

Module Cases.

(** A session whose browser context cannot be closed. *)
Definition close_error : exn := PyExc "Error" "Target page, context or browser has been closed".

Definition perform_unclosable (A : Type) (c : call A) (w : Demo.page) : reply A * Demo.page :=
  match c in call T return reply T * Demo.page with
  | ContextClose => (Throws close_error, w)
  | c' => Demo.perform _ c' w
  end.

(** A callback that answers every request with the same one-step plan. *)
Definition stubborn : llm_callback Demo.page :=
  fun _ _ w => (Returns (Some (mkPlanObj (Some [Demo.home]))), w).

End Cases.


Module Pages.
(** A results page without product containers. *)
Definition bare_page : Demo.page :=
  Demo.mkPage "<html></html>" [] false [] [] [] [].

(** A results page whose cards have the fallback layout only. *)
Definition fallback_page : Demo.page :=
  Demo.mkPage "<html></html>" [] false [0] [[]] [Demo.hat] [].
End Pages.


(** The events [evs], most recent first, begin in time with [first]. *)
Definition begins_with (first : event) (evs : list event) : Prop :=
  exists later, evs = later ++ [first].

(** What a helper reports of a run over the selectors [sels]: the value
    [b], the events [evs] of at most [k] calls per selector, the first of
    them a wait for the first selector; [finish] is the shape of the
    events of a success and [wait] the call every attempt starts with. *)
Definition attempted (k : nat) (wait : string -> event) (finish : string -> list event -> Prop)
           (sels : list string) (b : bool) (evs : list event) : Prop :=
  List.length evs <= k * List.length sels
  /\ match sels with
     | c :: _ => begins_with (wait c) evs
     | [] => evs = []
     end
  /\ (b = true -> exists c, In c sels /\ finish c evs)
  /\ (b = false -> forall c, In c sels -> In (wait c) evs).

(** The events of a success end (in time) with the call [last c]. *)
Definition ends_with (last : string -> event) (c : string) (evs : list event) : Prop :=
  exists earlier, evs = last c :: earlier.

(** Enter pressed in a search box that has the focus. *)
Definition enter_pressed (c : string) (evs : list event) : Prop :=
  exists earlier, evs = Called (KeyboardPress "Enter") :: Called (Focus c) :: earlier.


(** A number that is not below zero: zero, a positive number or positive
    infinity; [NaN] has no sign. *)
Definition not_negative (x : float) : Prop :=
  match x with
  | S754_zero s | S754_infinity s | S754_finite s _ _ => s = false
  | S754_nan => True
  end.

(** The text [money] hands to [parseFloat]. *)
Definition price_digits (s : string) : string :=
  filter_str (fun c => negb (Ascii.eqb c ","))
             (before_dash (filter_str keep_price_char s)).


(** A sample as the snapshot builds it: a text of at most 80 characters
    with no white space in front, and a role that is never empty. *)
Definition sample_ok (x : Sample) : Prop :=
  String.length (s_text x) <= 80
  /\ lstrip_by py_isspace (s_text x) = s_text x
  /\ s_role x <> EmptyString.

(** What the snapshot looks like. *)
Definition snapshot_ok (ctx : PageContext) : Prop :=
  List.length (element_samples ctx) <= 100
  /\ Forall sample_ok (element_samples ctx)
  /\ (ctx_title ctx = None <-> ctx_url ctx = None)
  /\ (ctx_title ctx = None -> element_samples ctx = []).

#[local] Open Scope string_scope.

(** A match object with its subject in lower case. *)
Definition lower_match (m : match_obj) : match_obj :=
  MatchObj (m_start m) (lower (m_subject m)) (m_end m) (m_spans m).


(* ================================================================== *)
(** * The text of the search URL *)
(* ================================================================== *)

Module SearchUrl.

Definition is_lower (c : ascii) : bool :=
  ((97 <=? ord c) && (ord c <=? 122))%N.

Definition is_alnum (c : ascii) : bool := is_digit c || is_upper c || is_lower c.

(** [\w] on ASCII text *)
Definition is_word (c : ascii) : bool := is_alnum c || Ascii.eqb c "_".

(** The text starts with the word, letters compared without case. *)
Fixpoint starts_with_ci (word s : string) : bool :=
  match word, s with
  | EmptyString, _ => true
  | String a word', String b s' =>
      Ascii.eqb (lower_char a) (lower_char b) && starts_with_ci word' s'
  | String _ _, EmptyString => false
  end.

(** [\b] between the character [prev] (if any) and the text [s]. *)
Definition boundary (prev : option ascii) (s : string) : bool :=
  xorb (match prev with Some c => is_word c | None => false end)
       (match s with String c _ => is_word c | EmptyString => false end).

(** [\bword\b] matches at the head of [s], which comes after [prev]. *)
Definition word_at (word : string) (prev : option ascii) (s : string) : bool :=
  boundary prev s
  && starts_with_ci word s
  && boundary (match last_char (take (String.length word) s) with
               | Some c => Some c
               | None => prev
               end)
              (drop (String.length word) s).

(** [re.sub(rf"\b{word}\b", "", s, flags=re.I)] for a word of letters:
    every match is deleted, scanning left to right; [prev] is the
    character before [s] and [skip] counts the characters of the current
    match still to be dropped. *)
Fixpoint sub_word (word : string) (prev : option ascii) (skip : nat) (s : string) : string :=
  match s with
  | EmptyString => EmptyString
  | String c s' =>
      match skip with
      | S n => sub_word word (Some c) n s'
      | O =>
          if word_at word prev s
          then sub_word word (Some c) (pred (String.length word)) s'
          else String c (sub_word word (Some c) 0 s')
      end
  end.

Definition stop_words : list string := ["cheapest"; "find"; "show"; "get"; "buy"].

(** [re.sub(r"\s+", " ", s)]: [in_run] tells that the character before
    was white space. *)
Fixpoint collapse_spaces (in_run : bool) (s : string) : string :=
  match s with
  | EmptyString => EmptyString
  | String c s' =>
      if py_isspace c
      then if in_run then collapse_spaces true s'
           else String " " (collapse_spaces true s')
      else String c (collapse_spaces false s')
  end.

(** The search terms: the query without the stop words, its white space
    collapsed, [shirt] when nothing is left. *)
Definition search_terms (cleaned : string) : string :=
  let query := fold_left (fun q word => sub_word word None 0 q) stop_words cleaned in
  let query := strip (collapse_spaces false query) in
  if nonempty query then query else "shirt".

Definition hex_digit (n : N) : ascii :=
  if (n <? 10)%N then ascii_of_N (48 + n) else ascii_of_N (55 + n).

(** [%XX] *)
Definition percent (c : ascii) : string :=
  String "%" (String (hex_digit (ord c / 16)) (String (hex_digit (ord c mod 16)) EmptyString)).

(** The characters [quote] never escapes. *)
Definition always_safe (c : ascii) : bool :=
  is_alnum c || Ascii.eqb c "_" || Ascii.eqb c "." || Ascii.eqb c "-" || Ascii.eqb c "~".

(** [urllib.parse.quote_plus] on the bytes of the text. *)
Fixpoint quote_plus (s : string) : string :=
  match s with
  | EmptyString => EmptyString
  | String c s' =>
      (if Ascii.eqb c " " then "+"
       else if always_safe c then String c EmptyString
       else percent c) ++ quote_plus s'
  end.

(** The integer nearest to [m * 2^e], ties to the even one. *)
Definition round_half_even (m : positive) (e : Z) : Z :=
  if (0 <=? e)%Z then Z.pos m * 2 ^ e
  else
    let d := (2 ^ (- e))%Z in
    let q := (Z.pos m / d)%Z in
    match (2 * (Z.pos m mod d) ?= d)%Z with
    | Lt => q
    | Gt => (q + 1)%Z
    | Eq => if Z.even q then q else (q + 1)%Z
    end.

(** [int(round(x))] *)
Definition int_round (x : float) : reply Z :=
  match x with
  | S754_zero _ => Returns 0%Z
  | S754_finite s m e =>
      Returns (if s then (- round_half_even m e)%Z else round_half_even m e)
  | S754_infinity _ =>
      Throws (PyExc "OverflowError" "cannot convert float infinity to integer")
  | S754_nan => Throws (PyExc "ValueError" "cannot convert float NaN to integer")
  end.

(** [f"{n}"] for an integer *)
Definition str_of_int (n : Z) : string := NilZero.string_of_int (Z.to_int n).

(** [f"{int(round(p * 100))}" if p is not None else ""] *)
Definition cents (p : option float) : reply string :=
  match p with
  | Some x =>
      match int_round (SFmul prec emax x f100) with
      | Returns n => Returns (str_of_int n)
      | Throws e => Throws e
      end
  | None => Returns EmptyString
  end.

Definition base : string := "https://www.amazon.com/s?k=".
Definition sort_order : string := "&s=price-asc-rank".

(** [build_amazon_search_url], with the text of the URL. *)
Definition build_amazon_search_url (goal : string)
  : reply (string * option float * option float) :=
  let '(min_p, max_p, cleaned) := parse_price_filters goal in
  let query := search_terms cleaned in
  match min_p, max_p with
  | None, None => Returns (base ++ quote_plus query ++ sort_order, min_p, max_p)
  | _, _ =>
      match cents min_p with
      | Throws e => Throws e
      | Returns lo =>
          match cents max_p with
          | Throws e => Throws e
          | Returns hi =>
              let rh := "&rh=p_36%3A" ++ quote_plus (lo ++ "-" ++ hi) in
              Returns (base ++ quote_plus query ++ rh ++ sort_order, min_p, max_p)
          end
      end
  end.

End SearchUrl.


(** The characters of a query string that need no escape, and the two
    that escapes are made of. *)
Definition url_safe (c : ascii) : bool :=
  SearchUrl.always_safe c || Ascii.eqb c "+" || Ascii.eqb c "%".

(** The class of an exception. *)
Definition exn_class (e : exn) : string :=
  match e with PyExc cls _ => cls end.


(* ================================================================== *)
(** * The planner of [ai_mcp/planner.py] *)
(* ================================================================== *)

Module Planner.

(** What [json.loads] can return. *)
#[warnings="-register-all"]
Inductive json : Type :=
| JNull
| JBool (b : bool)
| JInt (n : Z)
| JFloat (x : float)
| JString (s : string)
| JList (l : list json)
| JDict (d : list (string * json)).

(** A Python [dict] with string keys, in insertion order. *)
Definition dict : Type := list (string * json).

(** The truth value of an object. *)
Definition truth (v : json) : bool :=
  match v with
  | JNull => false
  | JBool b => b
  | JInt n => negb (n =? 0)%Z
  | JFloat x => match x with S754_zero _ => false | _ => true end
  | JString s => nonempty s
  | JList l => negb (is_nil l)
  | JDict d => negb (is_nil d)
  end.

(** [d.get(key)] *)
Fixpoint get (key : string) (d : dict) : option json :=
  match d with
  | [] => None
  | (k, v) :: d' => if String.eqb k key then Some v else get key d'
  end.

(** [d] without [key], as [d.pop(key)] leaves it *)
Definition without (key : string) (d : dict) : dict :=
  filter (fun kv => negb (String.eqb (fst kv) key)) d.

(** [d[key] = v]: in place when the key is there, at the end otherwise *)
Fixpoint set (key : string) (v : json) (d : dict) : dict :=
  match d with
  | [] => [(key, v)]
  | (k, v') :: d' =>
      if String.eqb k key then (k, v) :: d' else (k, v') :: set key v d'
  end.

(** [not d.get(key)] *)
Definition missing (key : string) (d : dict) : bool :=
  match get key d with
  | Some v => negb (truth v)
  | None => true
  end.

(** [d.get(key) == text] *)
Definition is_text (key text : string) (d : dict) : bool :=
  match get key d with
  | Some (JString s) => String.eqb s text
  | _ => false
  end.

(** One turn of the normalisation loop on a step that is a [dict]. *)
Definition normalize_dict (goal : string) (d : dict) : dict :=
  let d := match get "target" d with
           | Some v => set "selector" v (without "target" d)
           | None => d
           end in
  if is_text "action" "fill" d && missing "value" d
  then set "value" (JString goal) d
  else d.

(** One turn of the normalisation loop: a step that is no [dict] makes
    the membership test or the first method call raise (the messages are
    those of CPython 3.11). *)
Definition normalize_step (goal : string) (step : json) : reply dict :=
  match step with
  | JDict d => Returns (normalize_dict goal d)
  | JString s =>
      if contains "target" s
      then Throws (PyExc "AttributeError" "'str' object has no attribute 'pop'")
      else Throws (PyExc "AttributeError" "'str' object has no attribute 'get'")
  | JList l =>
      if existsb (fun v => match v with JString s => String.eqb s "target" | _ => false end) l
      then Throws (PyExc "TypeError" "'str' object cannot be interpreted as an integer")
      else Throws (PyExc "AttributeError" "'list' object has no attribute 'get'")
  | JNull => Throws (PyExc "TypeError" "argument of type 'NoneType' is not iterable")
  | JBool _ => Throws (PyExc "TypeError" "argument of type 'bool' is not iterable")
  | JInt _ => Throws (PyExc "TypeError" "argument of type 'int' is not iterable")
  | JFloat _ => Throws (PyExc "TypeError" "argument of type 'float' is not iterable")
  end.

(** The normalisation loop. *)
Fixpoint normalize (goal : string) (steps : list json) : reply (list dict) :=
  match steps with
  | [] => Returns []
  | step :: rest =>
      match normalize_step goal step with
      | Throws e => Throws e
      | Returns d =>
          match normalize goal rest with
          | Throws e => Throws e
          | Returns l => Returns (d :: l)
          end
      end
  end.

Definition step2 (action selector : string) : dict :=
  [("action", JString action); ("selector", JString selector)].

(** The fallback plan for Amazon. *)
Definition default_plan (goal : string) : list dict :=
  [ step2 "goto" "https://www.amazon.com";
    step2 "wait_for" "#twotabsearchtextbox";
    [("action", JString "fill"); ("selector", JString "#twotabsearchtextbox");
     ("value", JString goal)];
    step2 "click" "#nav-search-submit-button";
    step2 "wait_for" "div[data-component-type='s-search-result']";
    step2 "extract" "div[data-component-type='s-search-result']" ].

(** [s.strip(chars)] *)
Definition strip_chars (chars s : string) : string :=
  let among c := existsb (Ascii.eqb c) (list_ascii_of_string chars) in
  rstrip_by among (lstrip_by among s).

(** [s.find(c)] and [s.rfind(c)] for a character; [None] is -1 *)
Fixpoint find (c : ascii) (s : string) : option nat :=
  match s with
  | EmptyString => None
  | String a s' => if Ascii.eqb a c then Some 0 else option_map S (find c s')
  end.

Fixpoint rfind (c : ascii) (s : string) : option nat :=
  match s with
  | EmptyString => None
  | String a s' =>
      match rfind c s' with
      | Some i => Some (S i)
      | None => if Ascii.eqb a c then Some 0 else None
      end
  end.

(** [s[start:stop]] *)
Definition slice (start stop : nat) (s : string) : string :=
  take (stop - start) (drop start s).

(** What the planner has no hand in: the environment, the OpenAI client
    and [json.loads].  [completion goal samples] is the content of the
    first choice of the chat completion for the prompt made of the goal
    and the samples; any fault on the way to it is an exception. *)
Record service : Type := mkService {
  api_key : option string;
  new_client : string -> reply unit;
  completion : string -> list Sample -> reply string;
  loads : string -> reply json
}.

Definition missing_key : exn :=
  PyExc "ValueError" "Missing OPENAI_API_KEY in environment variables.".

(** [get_openai_client] *)
Definition get_openai_client (sv : service) : reply unit :=
  if truthy (api_key sv) then new_client sv (str_or (api_key sv) "")
  else Throws missing_key.

(** Lines 63-85: from the content of the answer to the steps. *)
Definition read_answer (sv : service) (content : string) : reply json :=
  let text := strip content in
  if negb (nonempty text) then Returns (JList [])
  else
    let text := if starts_with "```" text then strip_chars "`" text else text in
    let text := if starts_with "json" (lower text) then strip (drop 4 text) else text in
    match loads sv text with
    | Returns v => Returns v
    | Throws e =>
        if String.eqb (exn_class e) "JSONDecodeError" then
          match find "[" text, rfind "]" text with
          | Some start, Some stop => loads sv (slice start (S stop) text)
          | _, _ => Returns (JList [])
          end
        else Throws e
    end.

(** Lines 38-88: the value of [steps] before the fallback test; every
    exception on the way leaves the empty list. *)
Definition model_steps (sv : service) (goal : string) (page_context : PageContext) : json :=
  match get_openai_client sv with
  | Throws _ => JList []
  | Returns _ =>
      match completion sv goal (element_samples page_context) with
      | Throws _ => JList []
      | Returns content =>
          match read_answer sv content with
          | Returns v => v
          | Throws _ => JList []
          end
      end
  end.

(** [generate_ai_plan]: the value under the key [steps] of the result. *)
Definition generate_ai_plan (sv : service) (goal : string) (page_context : PageContext)
  : reply (list dict) :=
  let steps :=
    match model_steps sv goal page_context with
    | JList (x :: l) => x :: l
    | _ => map JDict (default_plan goal)
    end in
  normalize goal steps.

End Planner.



(** A step as the planner hands it on: no [target] key, and a value on
    every [fill] step, which is the goal when the model gave none. *)
Definition normal_step (goal : string) (d : Planner.dict) : Prop :=
  Planner.get "target" d = None
  /\ (Planner.is_text "action" "fill" d = true ->
      exists v, Planner.get "value" d = Some v
                /\ (Planner.truth v = true \/ v = Planner.JString goal)).

Definition is_dict (v : Planner.json) : bool :=
  match v with
  | Planner.JDict _ => true
  | _ => false
  end.

Module PlannerCases.

(** A service without an API key. *)
Definition offline : Planner.service :=
  Planner.mkService None (fun _ => Returns tt)
                    (fun _ _ => Throws (PyExc "APIConnectionError" "Connection error."))
                    (fun _ => Throws (PyExc "JSONDecodeError" "Expecting value")).

(** The double quote. *)
Definition dq : string := String (ascii_of_nat 34) EmptyString.

(** The text of an answer that names a target instead of a selector. *)
Definition fill_answer : string :=
  "[{" ++ dq ++ "action" ++ dq ++ ": " ++ dq ++ "fill" ++ dq ++ ", "
       ++ dq ++ "target" ++ dq ++ ": " ++ dq ++ "#q" ++ dq ++ "}]".

(** A service whose model answers with the text [content], which
    [json.loads] reads as [v]. *)
Definition answering (content : string) (v : Planner.json) : Planner.service :=
  Planner.mkService (Some "sk-test") (fun _ => Returns tt)
                    (fun _ _ => Returns content)
                    (fun _ => Returns v).

End PlannerCases.

#[local] Open Scope list_scope.


(* ================================================================== *)
(** * The helpers around the executor *)
(* ================================================================== *)

(** What the service answers: the keys [status], [plan], [result] and
    [message] of the response; elapsed times and the traceback have no
    model. *)
Inductive response : Type :=
| Completed (plan : list Step) (result : Results)
| Planned
| Failed (message : string).

Section Around.

Variable W : Type.
Variable perform : forall A : Type, call A -> W -> reply A * W.

Notation "x <- m ;; k" := (bind m (fun x => k))
  (at level 61, m at next level, right associativity) : exec_scope.
Notation "m ;; k" := (bind m (fun _ => k))
  (at level 61, right associativity) : exec_scope.
#[local] Open Scope exec_scope.

(* ---------------------------------------------------------------- *)
(** ** [core/utils.py] *)

(** The [for] loop of [retry] with [n] turns left; [sleep] is
    [time.sleep(delay)], which raises when the delay is negative. *)
Fixpoint retry_loop {A : Type} (fn : M W A) (sleep : M W unit) (n : nat)
         (last_err : option exn) : M W (option A) :=
  match n with
  | O =>
      match last_err with
      | Some e => raise e
      | None => ret None
      end
  | S n' =>
      r <- try_catch (a <- fn ;; ret (inl a)) (fun e => sleep ;; ret (inr e)) ;;
      match r with
      | inl a => ret (Some a)
      | inr e => retry_loop fn sleep n' (Some e)
      end
  end.

(** [retry(fn, tries, delay)]; the value is [None] when the loop ends
    without an error. *)
Definition retry {A : Type} (fn : M W A) (tries : Z) (sleep : M W unit) : M W (option A) :=
  retry_loop fn sleep (Z.to_nat tries) None.

(* ---------------------------------------------------------------- *)
(** ** [ai_mcp/browser_utils.py]: [extract_mcp_context] *)

Definition context_sample (el : handle) : M W (option Sample) :=
  try_catch
    (role <- do perform (ElGetAttribute el "role") ;;
     aria <- do perform (ElGetAttribute el "aria-label") ;;
     txt <- do perform (ElInnerText el) ;;
     tag <- do perform (ElTagName el) ;;
     ret (Some (mkSample tag (str_or role "none") aria (take 80 (strip txt)))))
    (fun _ => ret None).

Fixpoint context_samples (els : list handle) (acc : list Sample) : M W (list Sample) :=
  match els with
  | [] => ret acc
  | el :: rest =>
      o <- context_sample el ;;
      context_samples rest (match o with Some x => acc ++ [x] | None => acc end)
  end.

Definition extract_mcp_context : M W (list Sample) :=
  elements <- do perform (QuerySelectorAll "input, button, a, div[role], span, img") ;;
  context_samples (firstn 200 elements) [].

(* ---------------------------------------------------------------- *)
(** ** [ai_mcp/mcp_client.py]: [extract_page_context] *)

(** [query.replace(' ', '+')] *)
Fixpoint plus_for_spaces (s : string) : string :=
  match s with
  | EmptyString => EmptyString
  | String c s' => String (if Ascii.eqb c " " then "+"%char else c) (plus_for_spaces s')
  end.

Definition amazon_home : string := "https://www.amazon.com/".

Definition page_url (query : option string) : string :=
  if truthy query
  then ("https://www.amazon.com/s?k=" ++ plus_for_spaces (str_or query "")
          ++ "&language=en_US")%string
  else amazon_home.

(** [extract_page_context]: the keys [url] and [html] of the result.
    [NewPage] is here [browser.new_page()]. *)
Definition extract_page_context (headless : bool) (query : option string)
  : M W (string * string) :=
  do perform PwStart ;;
  try_finally
    (do perform (Launch headless) ;;
     do perform NewPage ;;
     let url := page_url query in
     swallow (do perform (Goto (Url url)) ;;
              do perform (WaitForSelector ".s-main-slot" "visible")) ;;
     html <- do perform Content ;;
     do perform BrowserClose ;;
     ret (url, html))
    (do perform PwStop).

(* ---------------------------------------------------------------- *)
(** ** [api/app.py]: [run_ai] *)

(** A call of the planner outside the loop. *)
Definition ask (planner : llm_callback W) (goal : string) (context : PageContext)
  : M W (option PlanObj) :=
  fun s =>
    match planner goal context (world s) with
    | (Returns r, w') => (Ok r, mkSession w' (trace s))
    | (Throws e, w') => (Raise e, mkSession w' (trace s))
    end.

(** [run_ai] for the request [{goal, headless}].  The planner is the
    one function used for the first plan and as replanning callback; of
    the context [{url, html}] it is given, a planner that reads the
    samples, the title and the URL sees the URL.  The context is a
    dictionary of two keys, so the test [not context_data] never holds. *)
Definition run_ai (fuel : nat) (goal : string) (headless : bool) (planner : llm_callback W)
  : M W response :=
  try_catch
    (context_data <- extract_page_context headless None ;;
     plan <- ask planner goal (mkContext None (Some (fst context_data)) []) ;;
     match plan with
     | None => raise (PyExc "AttributeError" "'NoneType' object has no attribute 'get'")
     | Some (mkPlanObj (Some (x :: l))) =>
         result <- execute_plan perform fuel (x :: l) goal headless (Some planner) ;;
         ret (Completed (x :: l) result)
     | Some (mkPlanObj _) => ret Planned
     end)
    (fun e => ret (Failed ("Fatal error: " ++ exn_str e)%string)).

End Around.

Arguments retry_loop {W A} fn sleep n last_err.
Arguments retry {W A} fn tries sleep.
Arguments context_sample {W} perform el s.
Arguments context_samples {W} perform els acc.
Arguments extract_mcp_context {W} perform.
Arguments extract_page_context {W} perform headless query.
Arguments ask {W} planner goal context.
Arguments run_ai {W} perform fuel goal headless planner.



Module AroundCases.

(** A world that counts the calls of a function which fails twice and
    then returns 7. *)
Definition flaky : M nat nat :=
  fun s =>
    if Nat.ltb (world s) 2
    then (Raise (PyExc "IOError" (if Nat.eqb (world s) 0 then "first" else "second")),
          mkSession (S (world s)) (trace s))
    else (Ok 7, s).

Definition nap : M nat unit := fun s => (Ok tt, s).

End AroundCases.


(** The calls of [extract_page_context] up to the navigation, failed or
    not. *)
Definition page_visited {W : Type} (perform : forall A : Type, call A -> W -> reply A * W)
           (headless : bool) (query : option string) : M W unit :=
  bind (do perform PwStart)
       (fun _ => bind (do perform (Launch headless))
       (fun _ => bind (do perform NewPage)
       (fun _ => swallow (bind (do perform (Goto (Url (page_url query))))
                               (fun _ => do perform (WaitForSelector ".s-main-slot"
                                                                     "visible")))))).


(* ================================================================== *)
(** * Reasoning about runs *)
(* ================================================================== *)

Section Facts.

Context {W : Type}.
Variable perform : forall A : Type, call A -> W -> reply A * W.

Notation "x <- m ;; k" := (bind m (fun x => k))
  (at level 61, m at next level, right associativity) : exec_scope.
Notation "m ;; k" := (bind m (fun _ => k))
  (at level 61, right associativity) : exec_scope.
#[local] Open Scope exec_scope.

Lemma emits_ret {A} P (a : A) : emits P (@ret W A a).
Proof. intros s. exists []. repeat split; [constructor | discriminate]. Qed.

Lemma emits_raise {A} P e : emits P (@raise W A e).
Proof. intros s. exists []. repeat split; [constructor | discriminate]. Qed.

Lemma emits_lift {A} P (r : reply A) : emits P (@lift W A r).
Proof. destruct r; [apply emits_ret | apply emits_raise]. Qed.

Lemma emits_emit P ev : P ev -> emits P (@emit W ev).
Proof.
  intros H s. exists [ev]. repeat split; [repeat constructor; exact H | discriminate].
Qed.

Lemma emits_do {A} P (c : call A) : P (Called c) -> emits P (do perform c).
Proof.
  intros H s. exists [Called c]. unfold do.
  destruct (perform A c (world s)) as [[a|e] w']; simpl;
    (repeat split; [repeat constructor; exact H | discriminate]).
Qed.

Lemma emits_bind {A B} P (m : M W A) (f : A -> M W B) :
  emits P m -> (forall a, emits P (f a)) -> emits P (bind m f).
Proof.
  intros Hm Hf s. unfold bind.
  destruct (Hm s) as (evs & Ht & HP & Hd).
  destruct (m s) as [[a|e|] s1]; simpl in *.
  - destruct (Hf a s1) as (evs' & Ht' & HP' & Hd').
    exists (evs' ++ evs). rewrite Ht', Ht, app_assoc.
    repeat split; [apply Forall_app; split; assumption | exact Hd'].
  - exists evs. repeat split; [exact Ht | exact HP | discriminate].
  - contradiction.
Qed.

Lemma emits_try_catch {A} P (m : M W A) (h : exn -> M W A) :
  emits P m -> (forall e, emits P (h e)) -> emits P (try_catch m h).
Proof.
  intros Hm Hh s. unfold try_catch.
  destruct (Hm s) as (evs & Ht & HP & Hd).
  destruct (m s) as [[a|e|] s1]; simpl in *.
  - exists evs. repeat split; [exact Ht | exact HP | discriminate].
  - destruct (Hh e s1) as (evs' & Ht' & HP' & Hd').
    exists (evs' ++ evs). rewrite Ht', Ht, app_assoc.
    repeat split; [apply Forall_app; split; assumption | exact Hd'].
  - contradiction.
Qed.

Lemma emits_try_finally {A} P (m : M W A) (f : M W unit) :
  emits P m -> emits P f -> emits P (try_finally m f).
Proof.
  intros Hm Hf s. unfold try_finally.
  destruct (Hm s) as (evs & Ht & HP & Hd).
  destruct (m s) as [[a|e|] s1]; simpl in *; try contradiction;
    destruct (Hf s1) as (evs' & Ht' & HP' & Hd');
    destruct (f s1) as [[u|e'|] s2]; simpl in *; try contradiction;
    exists (evs' ++ evs); rewrite Ht', Ht, app_assoc;
    (repeat split; [apply Forall_app; split; assumption | discriminate]).
Qed.

Lemma emits_weaken {A} (P Q : event -> Prop) (m : M W A) :
  (forall ev, P ev -> Q ev) -> emits P m -> emits Q m.
Proof.
  intros HPQ Hm s. destruct (Hm s) as (evs & Ht & HP & Hd).
  exists evs. repeat split; [exact Ht | | exact Hd].
  eapply Forall_impl; [exact HPQ | exact HP].
Qed.

Lemma safe_ret {A} (a : A) : safe (@ret W A a).
Proof. intros s. exists a. reflexivity. Qed.

Lemma safe_bind {A B} (m : M W A) (f : A -> M W B) :
  safe m -> (forall a, safe (f a)) -> safe (bind m f).
Proof.
  intros Hm Hf s. unfold bind. destruct (Hm s) as (a & Ha).
  destruct (m s) as [r s1]; simpl in Ha; subst r. apply Hf.
Qed.

Lemma safe_try_catch {A} P (m : M W A) (h : exn -> M W A) :
  emits P m -> (forall e, safe (h e)) -> safe (try_catch m h).
Proof.
  intros Hm Hh s. unfold try_catch.
  destruct (Hm s) as (evs & _ & _ & Hd).
  destruct (m s) as [[a|e|] s1]; simpl in *.
  - exists a. reflexivity.
  - apply Hh.
  - contradiction.
Qed.

Lemma safe_emits_value {A} (m : M W A) s :
  safe m -> exists a, m s = (Ok a, snd (m s)).
Proof.
  intros H. destruct (H s) as (a & Ha). exists a.
  destruct (m s) as [r s1]; simpl in *. now subst.
Qed.

End Facts.

(** Structural steps of a proof of [emits]; [tac] settles the side
    condition of a call. *)
Ltac emits_step tac :=
  lazymatch goal with
  | |- emits _ (ret _) => apply emits_ret
  | |- emits _ (raise _) => apply emits_raise
  | |- emits _ (lift _) => apply emits_lift
  | |- emits _ (do _ _) => apply emits_do; tac
  | |- emits _ (bind _ _) => apply emits_bind; [ | intros ? ]
  | |- emits _ (try_catch _ _) => apply emits_try_catch; [ | intros ? ]
  | |- emits _ (if ?b then _ else _) => destruct b
  end.

(** *** The helpers end and log calls only *)

Section Calls.

Context {W : Type}.
Variable perform : forall A : Type, call A -> W -> reply A * W.
Variable P : event -> Prop.
Hypothesis P_called : forall (A : Type) (c : call A), P (Called c).

#[local] Ltac emits_all := repeat emits_step ltac:(apply P_called).

Lemma emits_swallow (m : M W unit) : emits P m -> emits P (swallow m).
Proof. intros H. unfold swallow. emits_all. exact H. Qed.

Lemma safe_swallow (m : M W unit) : emits P m -> safe (swallow m).
Proof.
  intros H. unfold swallow. eapply safe_try_catch; [exact H | intros; apply safe_ret].
Qed.

Lemma emits_repeat_m n (m : M W unit) : emits P m -> emits P (repeat_m n m).
Proof. intros H. induction n; simpl; emits_all; assumption. Qed.

Lemma emits_for_each {A} (f : A -> M W unit) l :
  (forall a, emits P (f a)) -> emits P (for_each f l).
Proof. intros H. induction l; simpl; emits_all; auto. Qed.

Lemma emits_try_each (attempt : string -> M W unit) sels :
  (forall sel, emits P (attempt sel)) -> emits P (try_each attempt sels).
Proof.
  intros H. induction sels as [|sel rest IH]; simpl; emits_all; auto.
Qed.

Lemma safe_try_each (attempt : string -> M W unit) sels :
  (forall sel, emits P (attempt sel)) -> safe (try_each attempt sels).
Proof.
  intros H. induction sels as [|sel rest IH]; simpl.
  - apply safe_ret.
  - apply safe_bind.
    + eapply safe_try_catch; [ | intros; apply safe_ret ].
      emits_all. apply H.
    + intros [|]; [apply safe_ret | exact IH].
Qed.

Lemma emits_wait_ready : emits P (_wait_ready perform).
Proof. unfold _wait_ready. apply emits_swallow. emits_all. Qed.

Lemma safe_wait_ready : safe (_wait_ready perform).
Proof. unfold _wait_ready. apply safe_swallow. emits_all. Qed.

Lemma emits_fill sel v : emits P (_fill_with_fallbacks perform sel v).
Proof. unfold _fill_with_fallbacks. apply emits_try_each. intros. emits_all. Qed.

Lemma safe_fill sel v : safe (_fill_with_fallbacks perform sel v).
Proof. unfold _fill_with_fallbacks. apply safe_try_each. intros. emits_all. Qed.

Lemma emits_click sel : emits P (_click_with_fallbacks perform sel).
Proof.
  unfold _click_with_fallbacks. emits_all; apply emits_try_each; intros; emits_all.
Qed.

Lemma safe_click sel : safe (_click_with_fallbacks perform sel).
Proof.
  unfold _click_with_fallbacks. apply safe_bind.
  - apply safe_try_each. intros. emits_all.
  - intros [|]; [apply safe_ret | apply safe_try_each; intros; emits_all].
Qed.

Lemma emits_sample_element el : emits P (sample_element perform el).
Proof.
  unfold sample_element. emits_all.
Qed.

Lemma safe_sample_element el : safe (sample_element perform el).
Proof.
  unfold sample_element. eapply safe_try_catch; [ | intros; apply safe_ret ].
  emits_all.
Qed.

Lemma emits_sample_elements els acc : emits P (sample_elements perform els acc).
Proof.
  revert acc. induction els as [|el rest IH]; intros acc; simpl; emits_all.
  - apply emits_sample_element.
  - apply IH.
Qed.

Lemma emits_context_payload : emits P (extract_mcp_context_payload perform).
Proof.
  unfold extract_mcp_context_payload. emits_all. apply emits_sample_elements.
Qed.

Lemma safe_context_payload : safe (extract_mcp_context_payload perform).
Proof.
  unfold extract_mcp_context_payload.
  eapply safe_try_catch; [ | intros; apply safe_ret ].
  emits_all. apply emits_sample_elements.
Qed.

Lemma emits_poll_items n : emits P (poll_items perform n).
Proof.
  induction n; simpl; emits_all. exact IHn.
Qed.

Lemma emits_save_page shot : emits P (save_page perform shot).
Proof. unfold save_page. emits_all. Qed.

Lemma emits_open_search goal : emits P (open_search perform goal).
Proof.
  unfold open_search. emits_all.
  match goal with |- emits _ (match ?x with _ => _ end) => destruct x as [[u lo] hi] end.
  emits_all.
Qed.

Lemma emits_find_items : emits P (find_items perform).
Proof.
  unfold find_items. emits_all;
    first [ apply emits_poll_items
          | apply emits_repeat_m; emits_all
          | apply emits_for_each; intros; apply emits_swallow; emits_all ].
Qed.

Lemma emits_read_cards lo hi : emits P (read_cards perform lo hi).
Proof.
  unfold read_cards. emits_all;
    first [ apply emits_save_page | apply emits_find_items ].
Qed.

Lemma emits_extract_products goal : emits P (extract_products perform goal).
Proof.
  unfold extract_products. emits_all.
  - apply emits_open_search.
  - match goal with |- emits _ (match ?x with _ => _ end) => destruct x as [[html lo] hi] end.
    emits_all. apply emits_read_cards.
  - apply emits_swallow. apply emits_save_page.
Qed.

Lemma safe_extract_products goal : safe (extract_products perform goal).
Proof.
  unfold extract_products. eapply safe_try_catch.
  - emits_all.
    + apply emits_open_search.
    + match goal with |- emits _ (match ?x with _ => _ end) => destruct x as [[html lo] hi] end.
      emits_all. apply emits_read_cards.
  - intros e. apply safe_bind; [ | intros; apply safe_ret ].
    apply safe_swallow. apply emits_save_page.
Qed.

Lemma emits_call_llm_fn (llm_fn : option (llm_callback W)) goal ctx :
  P (Replanned goal ctx) -> emits P (call_llm_fn llm_fn goal ctx).
Proof.
  intros HR. destruct llm_fn as [f|]; simpl; [ | apply emits_ret ].
  intros s. exists [Replanned goal ctx].
  destruct (f goal ctx (world s)) as [[r|e] w']; simpl;
    (repeat split; [repeat constructor; exact HR | discriminate]).
Qed.

Lemma emits_run_step goal st results :
  (forall ps, P (Extracted ps)) -> emits P (run_step perform goal st results).
Proof.
  intros HE. unfold run_step. emits_all;
    first [ apply emits_wait_ready
          | apply emits_fill
          | apply emits_click
          | apply emits_extract_products
          | apply emits_emit; apply HE ].
Qed.

Lemma emits_on_failure goal llm_fn results e :
  (forall g c, P (Replanned g c)) ->
  emits P (on_failure perform goal llm_fn results e).
Proof.
  intros HR. unfold on_failure. destruct llm_fn as [f|]; emits_all.
  - apply emits_context_payload.
  - apply emits_call_llm_fn. apply HR.
Qed.

Lemma emits_turn goal llm_fn st results :
  (forall ps, P (Extracted ps)) -> (forall g c, P (Replanned g c)) ->
  emits P (turn perform goal llm_fn st results).
Proof.
  intros HE HR. unfold turn. emits_all.
  - apply emits_run_step. exact HE.
  - apply emits_on_failure. exact HR.
Qed.

End Calls.

(* ================================================================== *)
(** * The plan execution engine *)
(* ================================================================== *)

Section Engine.

Context {W : Type}.
Variable perform : forall A : Type, call A -> W -> reply A * W.

Lemma always_true_called : forall (A : Type) (c : call A), (fun _ : event => True) (Called c).
Proof. intros; exact I. Qed.

Lemma not_extracted_called : forall (A : Type) (c : call A), not_extracted (Called c).
Proof. intros; exact I. Qed.

Lemma last_extraction_app evs tr :
  Forall not_extracted evs -> last_extraction (evs ++ tr) = last_extraction tr.
Proof.
  induction 1 as [|ev evs Hev _ IH]; simpl; [reflexivity | ].
  destruct ev; simpl in *; [exact IH | exact IH | contradiction].
Qed.

(** A value of a pair from its first component. *)
Lemma pair_fst_snd {A B} (p : A * B) a : fst p = a -> p = (a, snd p).
Proof. destruct p; simpl; intros; subst; reflexivity. Qed.

(** *** One step *)

Lemma run_step_not_diverge goal st results s :
  fst (run_step perform goal st results s) <> Diverge.
Proof.
  destruct (emits_run_step perform (fun _ => True) always_true_called goal st results
                           (fun _ => I) s) as (_ & _ & _ & H).
  exact H.
Qed.

(** [fill] and [click] steps cannot fail. *)
Lemma run_step_fill_click goal st results s :
  step_action st = "fill" \/ step_action st = "click" ->
  fst (run_step perform goal st results s) = Ok results.
Proof.
  intros [H|H]; unfold run_step; rewrite H; simpl; unfold bind.
  - destruct (safe_fill perform (fun _ => True) always_true_called
                        (step_selector st) (step_value st goal) s) as (b & Hb).
    destruct (_fill_with_fallbacks _ _ _ s) as [r s1]; simpl in Hb; subst r.
    reflexivity.
  - destruct (safe_click perform (fun _ => True) always_true_called
                         (step_selector st) s) as (b & Hb).
    destruct (_click_with_fallbacks _ _ s) as [r s1]; simpl in Hb; subst r.
    reflexivity.
Qed.

(** What a step does to the result dictionary and to the extraction
    markers of the trace. *)
Lemma run_step_effect goal st results s :
  match run_step perform goal st results s with
  | (Ok r, s') =>
      (step_action st <> "extract" /\ r = results /\
       last_extraction (trace s') = last_extraction (trace s))
      \/ (step_action st = "extract" /\
          exists p ps evs,
            r = mkResults (p :: ps) (min_by_price (p :: ps)) (errors results) /\
            trace s' = Extracted (p :: ps) :: evs ++ trace s)
  | (Raise _, s') => last_extraction (trace s') = last_extraction (trace s)
  | (Diverge, _) => False
  end.
Proof.
  pose proof (run_step_not_diverge goal st results s) as Hnd.
  destruct (String.eqb (step_action st) "extract") eqn:Hx.
  - apply String.eqb_eq in Hx.
    unfold run_step in *. rewrite Hx in *. simpl in *. unfold bind in *.
    destruct (safe_extract_products perform not_extracted not_extracted_called goal s)
      as (ps & Hps).
    destruct (emits_extract_products perform not_extracted not_extracted_called goal s)
      as (evs & Ht & Hq & _).
    destruct (extract_products perform goal s) as [r s1]; simpl in *; subst r.
    destruct ps as [|p ps]; simpl.
    + rewrite Ht. apply last_extraction_app. exact Hq.
    + right. split; [reflexivity | ]. exists p, ps, evs.
      split; [reflexivity | ]. rewrite Ht. reflexivity.
  - assert (Hne : step_action st <> "extract")
      by (intros E; rewrite E in Hx; discriminate).
    assert (Hq : emits not_extracted (run_step perform goal st results)).
    { unfold run_step. rewrite Hx.
      repeat emits_step ltac:(exact I).
      - apply emits_wait_ready. exact not_extracted_called.
      - apply emits_fill. exact not_extracted_called.
      - apply emits_click. exact not_extracted_called. }
    destruct (Hq s) as (evs & Ht & Hf & _).
    assert (Hr : forall r s', run_step perform goal st results s = (Ok r, s') -> r = results).
    { unfold run_step. rewrite Hx.
      repeat match goal with |- context [if ?b then _ else _] => destruct b end;
        unfold bind, ret; intros r s' E;
        repeat match type of E with
               | context [match ?m with _ => _ end] =>
                   let x := fresh in destruct m as [[?|?|] x] eqn:?
               end;
        congruence. }
    destruct (run_step perform goal st results s) as [[r|e|] s'] eqn:E; simpl in *.
    + left. split; [exact Hne | ]. split; [ eapply Hr; reflexivity | ].
      rewrite Ht. apply last_extraction_app. exact Hf.
    + rewrite Ht. apply last_extraction_app. exact Hf.
    + apply Hnd. reflexivity.
Qed.

Lemma run_step_errors goal st results s r s' :
  run_step perform goal st results s = (Ok r, s') -> errors r = errors results.
Proof.
  intros E. pose proof (run_step_effect goal st results s) as H. rewrite E in H.
  destruct H as [(_ & -> & _) | (_ & p & ps & evs & -> & _)]; reflexivity.
Qed.

(** *** One turn of the loop *)

Lemma turn_advance goal llm_fn st results s r s' :
  run_step perform goal st results s = (Ok r, s') ->
  turn perform goal llm_fn st results s = (Ok (Advance r), s').
Proof. intros E. unfold turn, try_catch, bind. rewrite E. reflexivity. Qed.

Lemma turn_no_callback goal st results s e s' :
  run_step perform goal st results s = (Raise e, s') ->
  turn perform goal None st results s = (Ok (Break (add_error results (exn_str e))), s').
Proof. intros E. unfold turn, try_catch, bind. rewrite E. reflexivity. Qed.

Lemma turn_replan goal f st results s e s1 ctx s2 plan s3 :
  run_step perform goal st results s = (Raise e, s1) ->
  extract_mcp_context_payload perform s1 = (Ok ctx, s2) ->
  call_llm_fn (Some f) goal ctx s2 = (Ok plan, s3) ->
  turn perform goal (Some f) st results s =
  match plan with
  | Some (mkPlanObj (Some (x :: new_steps))) => (Ok (Restart (x :: new_steps) results), s3)
  | _ => (Ok (Break (add_error results "No steps generated during replan.")), s3)
  end.
Proof.
  intros E1 E2 E3. unfold turn, try_catch, bind. rewrite E1.
  unfold on_failure, bind. rewrite E2, E3.
  destruct plan as [[[[|x l]|]]|]; reflexivity.
Qed.

(** Only an exception thrown by the callback leaves a turn. *)
Lemma turn_outcome goal llm_fn st results s :
  match fst (turn perform goal llm_fn st results s) with
  | Ok _ => True
  | Raise e => exists f g c w, llm_fn = Some f /\ fst (f g c w) = Throws e
  | Diverge => False
  end.
Proof.
  unfold turn, try_catch, bind.
  pose proof (run_step_not_diverge goal st results s) as Hnd.
  destruct (run_step perform goal st results s) as [[r|e|] s1]; simpl in *;
    [exact I | | congruence].
  unfold on_failure. destruct llm_fn as [f|]; [ | exact I ].
  unfold bind.
  destruct (safe_context_payload perform (fun _ => True) always_true_called s1) as (ctx & Hc).
  destruct (extract_mcp_context_payload perform s1) as [rc s2]; simpl in Hc; subst rc.
  simpl. destruct (f goal ctx (world s2)) as [[plan|e'] w'] eqn:Ef; simpl.
  - destruct (is_nil _); exact I.
  - exists f, goal, ctx, (world s2). rewrite Ef. split; reflexivity.
Qed.

Lemma turn_outcome_no_callback goal st results s :
  exists c, fst (turn perform goal None st results s) = Ok c /\
            forall ns r, c <> Restart ns r.
Proof.
  unfold turn, try_catch, bind.
  pose proof (run_step_not_diverge goal st results s) as Hnd.
  destruct (run_step perform goal st results s) as [[r|e|] s1]; simpl in *.
  - eexists; split; [reflexivity | discriminate].
  - eexists; split; [reflexivity | discriminate].
  - congruence.
Qed.

(** *** The loop *)

Lemma run_loop_outcome fuel goal llm_fn : forall steps step_idx results s,
  match fst (run_loop perform fuel goal llm_fn steps step_idx results s) with
  | Ok _ => True
  | Raise e => exists f g c w, llm_fn = Some f /\ fst (f g c w) = Throws e
  | Diverge => llm_fn <> None \/ fuel <= List.length steps - step_idx
  end.
Proof.
  induction fuel as [|fuel IH]; intros steps step_idx results s; simpl.
  - right. lia.
  - destruct (nth_error steps step_idx) as [st|] eqn:En; [ | exact I ].
    assert (Hlt : step_idx < List.length steps)
      by (apply nth_error_Some; congruence).
    unfold bind.
    pose proof (turn_outcome goal llm_fn st results s) as Ht.
    destruct (turn_outcome_no_callback goal st results s) as (c0 & Hc0 & Hnr).
    destruct (turn perform goal llm_fn st results s) as [[c|e|] s1] eqn:Et;
      simpl in *; [ | exact Ht | contradiction ].
    destruct c as [r|ns r|r]; simpl.
    + specialize (IH steps (S step_idx) r s1).
      destruct (fst (run_loop perform fuel goal llm_fn steps (S step_idx) r s1));
        [exact I | exact IH | ].
      destruct IH as [IH|IH]; [left; exact IH | right; lia].
    + specialize (IH ns 0 r s1).
      destruct (fst (run_loop perform fuel goal llm_fn ns 0 r s1));
        [exact I | exact IH | ].
      left. intros ->. rewrite Et in Hc0. simpl in Hc0.
      injection Hc0 as <-. eapply Hnr. reflexivity.
    + exact I.
Qed.

Lemma run_loop_done fuel goal llm_fn steps step_idx results s :
  nth_error steps step_idx = None ->
  run_loop perform (S fuel) goal llm_fn steps step_idx results s = (Ok results, s).
Proof. intros En. cbn [run_loop]. rewrite En. reflexivity. Qed.

Lemma run_loop_advance fuel goal llm_fn steps step_idx st results s r s' :
  nth_error steps step_idx = Some st ->
  run_step perform goal st results s = (Ok r, s') ->
  run_loop perform (S fuel) goal llm_fn steps step_idx results s
  = run_loop perform fuel goal llm_fn steps (S step_idx) r s'.
Proof.
  intros En Hst. cbn [run_loop]. rewrite En. unfold bind at 1.
  rewrite (turn_advance goal llm_fn st results s r s' Hst). reflexivity.
Qed.

Lemma run_loop_restart fuel goal f steps step_idx st results s e s1 ctx s2 x new_steps s3 :
  nth_error steps step_idx = Some st ->
  run_step perform goal st results s = (Raise e, s1) ->
  extract_mcp_context_payload perform s1 = (Ok ctx, s2) ->
  call_llm_fn (Some f) goal ctx s2
  = (Ok (Some (mkPlanObj (Some (x :: new_steps)))), s3) ->
  run_loop perform (S fuel) goal (Some f) steps step_idx results s
  = run_loop perform fuel goal (Some f) (x :: new_steps) 0 results s3.
Proof.
  intros En Hst Hctx Hllm. cbn [run_loop]. rewrite En. unfold bind at 1.
  rewrite (turn_replan goal f st results s e s1 ctx s2 _ s3 Hst Hctx Hllm).
  reflexivity.
Qed.

(** Steps that succeed are walked through one turn each. *)
Lemma run_loop_prefix goal llm_fn pre r s r1 s1 :
  runs_ok perform goal pre r s r1 s1 ->
  forall fuel done rest,
    run_loop perform (List.length pre + fuel) goal llm_fn (done ++ pre ++ rest) (List.length done) r s
    = run_loop perform fuel goal llm_fn (done ++ pre ++ rest)
               (List.length done + List.length pre) r1 s1.
Proof.
  induction 1 as [r s | st steps r s r1 s1 r' s' Hst _ IH]; intros fuel done rest.
  - simpl. rewrite Nat.add_0_r. reflexivity.
  - simpl List.length. simpl plus. cbn [run_loop].
    assert (En : nth_error (done ++ (st :: steps) ++ rest) (List.length done) = Some st).
    { rewrite nth_error_app2 by lia. rewrite Nat.sub_diag. reflexivity. }
    rewrite En. unfold bind at 1.
    rewrite (turn_advance goal llm_fn st r s r1 s1 Hst).
    specialize (IH fuel (done ++ [st]) rest).
    rewrite <- !app_assoc in IH. simpl in IH.
    rewrite List.length_app in IH. simpl in IH.
    replace (List.length done + 1) with (S (List.length done)) in IH by lia.
    change ((st :: steps) ++ rest) with (st :: steps ++ rest).
    rewrite IH. f_equal. lia.
Qed.

Lemma run_loop_prefix0 goal llm_fn pre r s r1 s1 fuel rest :
  runs_ok perform goal pre r s r1 s1 ->
  run_loop perform (List.length pre + fuel) goal llm_fn (pre ++ rest) 0 r s
  = run_loop perform fuel goal llm_fn (pre ++ rest) (List.length pre) r1 s1.
Proof.
  intros H. exact (run_loop_prefix goal llm_fn pre r s r1 s1 H fuel [] rest).
Qed.

Lemma run_loop_abort fuel goal steps step_idx st results s e s' :
  nth_error steps step_idx = Some st ->
  run_step perform goal st results s = (Raise e, s') ->
  run_loop perform (S fuel) goal None steps step_idx results s
  = (Ok (add_error results (exn_str e)), s').
Proof.
  intros En Hst. cbn [run_loop]. rewrite En. unfold bind at 1.
  rewrite (turn_no_callback goal st results s e s' Hst). reflexivity.
Qed.

Lemma run_loop_callback_throws fuel goal f steps step_idx st results s e s1 ctx s2 e' :
  nth_error steps step_idx = Some st ->
  run_step perform goal st results s = (Raise e, s1) ->
  extract_mcp_context_payload perform s1 = (Ok ctx, s2) ->
  fst (f goal ctx (world s2)) = Throws e' ->
  fst (run_loop perform (S fuel) goal (Some f) steps step_idx results s) = Raise e'.
Proof.
  intros En Hst Hctx Hf. cbn [run_loop]. rewrite En. unfold bind at 1.
  unfold turn, try_catch, bind. rewrite Hst.
  unfold on_failure, bind. rewrite Hctx. simpl.
  destruct (f goal ctx (world s2)) as [rp w']. simpl in Hf. subst rp. reflexivity.
Qed.

Lemma nth_error_middle {A} (pre : list A) x post :
  nth_error (pre ++ x :: post) (List.length pre) = Some x.
Proof. rewrite nth_error_app2 by lia. rewrite Nat.sub_diag. reflexivity. Qed.

Lemma runs_ok_errors goal pre r s r1 s1 :
  runs_ok perform goal pre r s r1 s1 -> errors r1 = errors r.
Proof.
  induction 1 as [|st steps r s r1 s1 r' s' Hst _ IH]; [reflexivity | ].
  rewrite IH. eapply run_step_errors. exact Hst.
Qed.

Lemma runs_ok_no_extract goal pre r s r1 s1 :
  runs_ok perform goal pre r s r1 s1 ->
  Forall (fun st => step_action st <> "extract") pre -> r1 = r.
Proof.
  induction 1 as [|st steps r s r1 s1 r' s' Hst _ IH]; intros HF; [reflexivity | ].
  inversion HF as [|? ? Hne HF']; subst.
  pose proof (run_step_effect goal st r s) as H. rewrite Hst in H.
  destruct H as [(_ & -> & _) | (Hx & _)]; [ | contradiction ].
  apply IH. exact HF'.
Qed.

(** *** Opening and closing the session *)

Lemma do_session_ok {A} (c : call A) s :
  session_ok perform -> session_call c = true ->
  exists a, do perform c s = (Ok a, snd (do perform c s)).
Proof.
  intros Hok Hc. destruct (Hok A c (world s) Hc) as (a & Ha).
  exists a. unfold do. destruct (perform A c (world s)) as [r w'].
  simpl in Ha. subst r. reflexivity.
Qed.

Lemma safe_do_session {A} (c : call A) :
  session_ok perform -> session_call c = true -> safe (do perform c).
Proof.
  intros Hok Hc s. destruct (do_session_ok c s Hok Hc) as (a & Ha).
  exists a. rewrite Ha. reflexivity.
Qed.

Lemma safe_setup headless : session_ok perform -> safe (setup perform headless).
Proof.
  intros Hok. unfold setup.
  repeat first [ apply safe_bind; [ | intros ? ]
               | apply safe_do_session; [exact Hok | reflexivity]
               | apply (safe_wait_ready perform (fun _ => True) always_true_called) ].
Qed.

Lemma safe_teardown : session_ok perform -> safe (teardown perform).
Proof.
  intros Hok. unfold teardown.
  repeat first [ apply safe_bind; [ | intros ? ]
               | apply safe_do_session; [exact Hok | reflexivity] ].
Qed.

(** With a session that opens and closes, the outcome of [execute_plan]
    is the outcome of its loop. *)
Lemma execute_plan_outcome fuel steps goal headless llm_fn s :
  session_ok perform ->
  fst (execute_plan perform fuel steps goal headless llm_fn s)
  = fst (run_loop perform fuel goal llm_fn steps 0 empty_results
                  (opened perform headless s)).
Proof.
  intros Hok. unfold execute_plan, opened, bind, try_finally.
  destruct (safe_do_session PwStart Hok eq_refl s) as (u & Hu).
  destruct (do perform PwStart s) as [r0 s0]; simpl in Hu; subst r0.
  destruct (safe_setup headless Hok s0) as (u1 & Hu1).
  destruct (setup perform headless s0) as [r1 s1]; simpl in Hu1; subst r1.
  simpl.
  destruct (run_loop perform fuel goal llm_fn steps 0 empty_results s1)
    as [[r|e|] s2]; simpl.
  - destruct (safe_teardown Hok s2) as (u2 & Hu2).
    destruct (teardown perform s2) as [r2 s3]; simpl in Hu2; subst r2.
    destruct (safe_do_session PwStop Hok eq_refl s3) as (u3 & Hu3).
    destruct (do perform PwStop s3) as [r3 s4]; simpl in Hu3; subst r3.
    reflexivity.
  - destruct (safe_teardown Hok s2) as (u2 & Hu2).
    destruct (teardown perform s2) as [r2 s3]; simpl in Hu2; subst r2.
    destruct (safe_do_session PwStop Hok eq_refl s3) as (u3 & Hu3).
    destruct (do perform PwStop s3) as [r3 s4]; simpl in Hu3; subst r3.
    reflexivity.
  - destruct (safe_do_session PwStop Hok eq_refl s1) as (u3 & Hu3).
    destruct (do perform PwStop s1) as [r3 s4]; simpl in Hu3; subst r3.
    reflexivity.
Qed.

End Engine.

Section EngineClaims.

Context {W : Type}.
Variable perform : forall A : Type, call A -> W -> reply A * W.

(** *** Failure handling keeps the extraction markers in step *)

Lemma on_failure_effect goal llm_fn results e s :
  match on_failure perform goal llm_fn results e s with
  | (Ok c, s') =>
      last_extraction (trace s') = last_extraction (trace s) /\
      match c with
      | Advance r | Restart _ r | Break r =>
          data r = data results /\ selected r = selected results
      end
  | _ => True
  end.
Proof.
  assert (Hq : emits not_extracted (on_failure perform goal llm_fn results e)).
  { apply emits_on_failure; intros; exact I. }
  destruct (Hq s) as (evs & Ht & Hf & _).
  destruct (on_failure perform goal llm_fn results e s) as [[c|e'|] s'] eqn:E;
    simpl in *; try exact I.
  split; [rewrite Ht; apply last_extraction_app; exact Hf | ].
  unfold on_failure in E. destruct llm_fn as [f|].
  - unfold bind in E.
    destruct (extract_mcp_context_payload perform s) as [[ctx|?|] s1]; try discriminate.
    destruct (call_llm_fn (Some f) goal ctx s1) as [[plan|?|] s2]; try discriminate.
    destruct (is_nil _); injection E as <- _; split; reflexivity.
  - injection E as <- _. split; reflexivity.
Qed.

Lemma turn_shows_last goal llm_fn st results s c s' :
  shows_last results (trace s) ->
  turn perform goal llm_fn st results s = (Ok c, s') ->
  match c with
  | Advance r | Restart _ r | Break r => shows_last r (trace s')
  end.
Proof.
  intros Hs E. unfold turn, try_catch, bind in E.
  pose proof (run_step_effect perform goal st results s) as Hst.
  destruct (run_step perform goal st results s) as [[r|e|] s1]; [ | | contradiction ].
  - injection E as <- <-.
    destruct Hst as [(_ & -> & Hl) | (_ & p & ps & evs & -> & Ht)].
    + unfold shows_last in *. rewrite Hl. exact Hs.
    + unfold shows_last. rewrite Ht. simpl. split; reflexivity.
  - pose proof (on_failure_effect goal llm_fn results e s1) as Hf.
    rewrite E in Hf. destruct Hf as (Hl & Hc).
    unfold shows_last in *. rewrite Hl, Hst.
    destruct c as [r|ns r|r]; destruct Hc as (-> & ->); exact Hs.
Qed.

Lemma run_loop_shows_last fuel goal llm_fn : forall steps step_idx results s r s',
  shows_last results (trace s) ->
  run_loop perform fuel goal llm_fn steps step_idx results s = (Ok r, s') ->
  shows_last r (trace s').
Proof.
  induction fuel as [|fuel IH]; intros steps step_idx results s r s' Hs E; simpl in E.
  - discriminate.
  - destruct (nth_error steps step_idx) as [st|].
    + unfold bind in E.
      destruct (turn perform goal llm_fn st results s) as [[c|e|] s1] eqn:Et;
        try discriminate.
      pose proof (turn_shows_last goal llm_fn st results s c s1 Hs Et) as Hc.
      destruct c as [r1|ns r1|r1].
      * eapply IH; [exact Hc | exact E].
      * eapply IH; [exact Hc | exact E].
      * injection E as <- <-. exact Hc.
    + injection E as <- <-. exact Hs.
Qed.

Lemma emits_setup headless : emits not_extracted (setup perform headless).
Proof.
  unfold setup. repeat emits_step ltac:(exact I).
  apply emits_wait_ready. exact not_extracted_called.
Qed.

Lemma emits_teardown : emits not_extracted (teardown perform).
Proof. unfold teardown. repeat emits_step ltac:(exact I). Qed.

(** C1 (amended).  With a session that opens and closes, no exception of
    a step handler leaves [execute_plan]: the run returns its result
    dictionary, unless the replanning callback itself throws, in which
    case that exception leaves [execute_plan] and nothing is recorded.
    Without a callback a run of a plan of [n] steps ends within [n + 1]
    turns of the loop; with one it need not end. *)
Theorem execute_plan_contains_step_faults :
  session_ok perform ->
  (forall fuel steps goal headless llm_fn s,
      match fst (execute_plan perform fuel steps goal headless llm_fn s) with
      | Ok _ => True
      | Raise e => exists f g c w, llm_fn = Some f /\ fst (f g c w) = Throws e
      | Diverge => llm_fn <> None \/ fuel <= List.length steps
      end)
  /\
  (forall fuel pre st post goal headless f s r s1 e s2 ctx s3 e',
      runs_ok perform goal pre empty_results (opened perform headless s) r s1 ->
      run_step perform goal st r s1 = (Raise e, s2) ->
      extract_mcp_context_payload perform s2 = (Ok ctx, s3) ->
      fst (f goal ctx (world s3)) = Throws e' ->
      List.length pre < fuel ->
      fst (execute_plan perform fuel (pre ++ st :: post) goal headless (Some f) s)
      = Raise e').
Proof.
  intros Hok. split.
  - intros fuel steps goal headless llm_fn s.
    rewrite (execute_plan_outcome perform fuel steps goal headless llm_fn s Hok).
    pose proof (run_loop_outcome perform fuel goal llm_fn steps 0 empty_results
                                 (opened perform headless s)) as H.
    rewrite Nat.sub_0_r in H. exact H.
  - intros fuel pre st post goal headless f s r s1 e s2 ctx s3 e' Hpre Hst Hctx Hf Hfuel.
    rewrite (execute_plan_outcome perform fuel _ goal headless (Some f) s Hok).
    replace fuel with (List.length pre + S (fuel - List.length pre - 1)) by lia.
    rewrite (run_loop_prefix0 perform goal (Some f) pre _ _ _ _ _ _ Hpre).
    eapply run_loop_callback_throws; [apply nth_error_middle | eassumption .. ].
Qed.

(** C8 (amended).  When the steps before a step all succeed, that step
    fails and no replanning callback is configured, [execute_plan] returns
    a result whose error list is exactly the message of the failure;
    [data] and [selected] are those left by the steps before it, so
    [selected] is unset when none of them is an [extract] step. *)
Theorem failure_without_callback_aborts :
  session_ok perform ->
  forall fuel pre st post goal headless s r s1 e s2,
    List.length pre < fuel ->
    runs_ok perform goal pre empty_results (opened perform headless s) r s1 ->
    run_step perform goal st r s1 = (Raise e, s2) ->
    fst (execute_plan perform fuel (pre ++ st :: post) goal headless None s)
    = Ok (mkResults (data r) (selected r) [exn_str e])
    /\ (Forall (fun x => step_action x <> "extract") pre ->
        data r = [] /\ selected r = None).
Proof.
  intros Hok fuel pre st post goal headless s r s1 e s2 Hfuel Hpre Hst. split.
  - rewrite (execute_plan_outcome perform fuel _ goal headless None s Hok).
    replace fuel with (List.length pre + S (fuel - List.length pre - 1)) by lia.
    rewrite (run_loop_prefix0 perform goal None pre _ _ _ _ _ _ Hpre).
    rewrite (run_loop_abort perform _ goal _ _ st r s1 e s2 (nth_error_middle _ _ _) Hst).
    simpl. unfold add_error.
    rewrite (runs_ok_errors perform goal pre _ _ _ _ Hpre). reflexivity.
  - intros Hne.
    rewrite (runs_ok_no_extract perform goal pre _ _ _ _ Hpre Hne).
    split; reflexivity.
Qed.

(** C9.  A step whose action is none of [goto], [wait_for], [fill],
    [click], [scroll], [extract] is a turn of the loop that only advances
    the step index: the result, its error list and the session are
    untouched.  Hence a plan of one such step followed by a step that
    succeeds completes with an empty error list. *)
Theorem unknown_action_is_noop :
  (forall fuel goal llm_fn steps step_idx st results s,
      nth_error steps step_idx = Some st ->
      ~ In (step_action st) known_actions ->
      run_loop perform (S fuel) goal llm_fn steps step_idx results s
      = run_loop perform fuel goal llm_fn steps (S step_idx) results s)
  /\
  (forall fuel goal headless llm_fn u st s r s',
      session_ok perform ->
      ~ In (step_action u) known_actions ->
      run_step perform goal st empty_results (opened perform headless s) = (Ok r, s') ->
      3 <= fuel ->
      fst (execute_plan perform fuel [u; st] goal headless llm_fn s) = Ok r
      /\ errors r = []).
Proof.
  assert (Hnoop : forall goal u results s,
             ~ In (step_action u) known_actions ->
             run_step perform goal u results s = (Ok results, s)).
  { intros goal u results s Hu. unfold run_step.
    repeat match goal with
           | |- context [String.eqb (step_action u) ?a] =>
               destruct (String.eqb_spec (step_action u) a) as [E|_];
               [ exfalso; apply Hu; rewrite E; simpl; tauto | ]
           end.
    reflexivity. }
  split.
  - intros fuel goal llm_fn steps step_idx st results s En Hu.
    eapply run_loop_advance; [exact En | apply Hnoop; exact Hu].
  - intros fuel goal headless llm_fn u st s r s' Hok Hu Hst Hfuel.
    rewrite (execute_plan_outcome perform fuel _ goal headless llm_fn s Hok).
    destruct fuel as [|[|[|fuel]]]; try lia.
    rewrite (run_loop_advance perform _ goal llm_fn [u; st] 0 u _ _ _ _ eq_refl
                              (Hnoop _ _ _ _ Hu)).
    rewrite (run_loop_advance perform _ goal llm_fn [u; st] 1 st _ _ _ _ eq_refl Hst).
    rewrite run_loop_done by reflexivity.
    split; [reflexivity | ].
    apply (run_step_errors perform goal st _ _ _ _ Hst).
Qed.

(** C5.  When a step fails and the configured callback returns a
    non-empty step list, the loop goes on with that list in place of the
    plan and with the step index 0.  Hence, when the steps before a final
    [extract] step succeed (as in the plan goto, wait_for, fill, click,
    extract), the extraction comes back empty once, the callback answers
    with the one-step plan [extract] and the second extraction yields
    products, the result has no error and a selected product. *)
Theorem replan_replaces_plan :
  (forall fuel goal f steps step_idx st results s e s1 ctx s2 x new_steps s3,
      nth_error steps step_idx = Some st ->
      run_step perform goal st results s = (Raise e, s1) ->
      extract_mcp_context_payload perform s1 = (Ok ctx, s2) ->
      call_llm_fn (Some f) goal ctx s2
      = (Ok (Some (mkPlanObj (Some (x :: new_steps)))), s3) ->
      run_loop perform (S fuel) goal (Some f) steps step_idx results s
      = run_loop perform fuel goal (Some f) (x :: new_steps) 0 results s3)
  /\
  (forall fuel goal headless f pre last x s r s1 s2 ctx s3 s4 p ps s5,
      session_ok perform ->
      step_action last = "extract" ->
      step_action x = "extract" ->
      runs_ok perform goal pre empty_results (opened perform headless s) r s1 ->
      extract_products perform goal s1 = (Ok [], s2) ->
      extract_mcp_context_payload perform s2 = (Ok ctx, s3) ->
      call_llm_fn (Some f) goal ctx s3 = (Ok (Some (mkPlanObj (Some [x]))), s4) ->
      extract_products perform goal s4 = (Ok (p :: ps), s5) ->
      List.length pre + 3 <= fuel ->
      exists r',
        fst (execute_plan perform fuel (pre ++ [last]) goal headless (Some f) s) = Ok r'
        /\ errors r' = []
        /\ data r' = p :: ps
        /\ selected r' = min_by_price (p :: ps)
        /\ selected r' <> None).
Proof.
  split.
  - intros fuel goal f steps step_idx st results s e s1 ctx s2 x new_steps s3
           En Hst Hctx Hllm.
    eapply run_loop_restart; eassumption.
  - intros fuel goal headless f pre last x s r s1 s2 ctx s3 s4 p ps s5
           Hok Hlast Hx Hpre He1 Hctx Hllm He2 Hfuel.
    assert (Hfail : run_step perform goal last r s1
                    = (Raise (PyExc "RuntimeError" "Extraction failed."), s2)).
    { unfold run_step. rewrite Hlast. simpl. unfold bind. rewrite He1. reflexivity. }
    assert (Hgood : run_step perform goal x r s4
                    = (Ok (mkResults (p :: ps) (min_by_price (p :: ps)) (errors r)),
                       mkSession (world s5) (Extracted (p :: ps) :: trace s5))).
    { unfold run_step. rewrite Hx. simpl. unfold bind. rewrite He2. reflexivity. }
    eexists. split; [ | split; [ | split; [ | split ] ] ].
    + rewrite (execute_plan_outcome perform fuel _ goal headless (Some f) s Hok).
      replace fuel with (List.length pre + S (S (S (fuel - List.length pre - 3)))) by lia.
      rewrite (run_loop_prefix0 perform goal (Some f) pre _ _ _ _ _ _ Hpre).
      rewrite (run_loop_restart perform _ goal f (pre ++ [last]) (List.length pre) last
                                r s1 _ s2 ctx s3 x [] s4
                                (nth_error_middle _ _ _) Hfail Hctx Hllm).
      rewrite (run_loop_advance perform _ goal (Some f) [x] 0 x r s4 _ _ eq_refl Hgood).
      rewrite run_loop_done by reflexivity. reflexivity.
    + simpl. rewrite (runs_ok_errors perform goal pre _ _ _ _ Hpre). reflexivity.
    + reflexivity.
    + reflexivity.
    + simpl. discriminate.
Qed.


End EngineClaims.

(* ================================================================== *)
(** * Concrete runs of the engine *)
(* ================================================================== *)

Lemma demo_session_ok : session_ok Demo.perform.
Proof.
  intros A c w H. destruct c; try discriminate H; eexists; reflexivity.
Qed.

Lemma execute_plan_contains_step_faults_witness :
  fst (execute_plan Demo.perform 3 [Demo.home] "hat" true (Some Demo.llm)
                    (Demo.start (Demo.offline [Throws Demo.boom])))
  = Raise Demo.boom.
Proof.
  eapply (proj2 (execute_plan_contains_step_faults Demo.perform demo_session_ok))
    with (pre := []) (post := []).
  - apply runs_nil.
  - vm_compute. reflexivity.
  - vm_compute. reflexivity.
  - vm_compute. reflexivity.
  - repeat constructor.
Defined.

(** C1, as stated, fails: the first step of the plan fails, the callback
    throws, and the exception leaves [execute_plan]; no result is
    returned and no error is recorded. *)
Lemma callback_exception_escapes :
  fst (execute_plan Demo.perform 10 Demo.search_plan "hat" true (Some Demo.llm)
                    (Demo.start (Demo.offline [Throws Demo.boom])))
  = Raise Demo.boom.
Proof. vm_compute. reflexivity. Qed.

(** C2.  On a page where no candidate selector ever appears, the fill
    helper and the click helper both return [False], and the plan made of
    a fill step and a click step still completes with no error: the
    steps count as successes. *)
Theorem exhausted_selectors_count_as_success :
  fst (_fill_with_fallbacks Demo.perform "#q" "hat" (Demo.start (Demo.offline []))) = Ok false
  /\ fst (_click_with_fallbacks Demo.perform "#go" (Demo.start (Demo.offline []))) = Ok false
  /\ fst (execute_plan Demo.perform 10
                       [mkStep (Some "fill") (Some "#q") (Some "hat"); Demo.step "click" "#go"]
                       "hat" true None (Demo.start (Demo.offline [])))
     = Ok empty_results.
Proof. vm_compute. repeat split. Qed.

Lemma failure_without_callback_aborts_witness :
  fst (execute_plan Demo.perform 2 [Demo.home] "hat" true None
                    (Demo.start (Demo.offline [])))
  = Ok (mkResults [] None ["Timeout exceeded."]).
Proof.
  edestruct (failure_without_callback_aborts Demo.perform demo_session_ok
               2 [] Demo.home [] "hat" true (Demo.start (Demo.offline []))) as [H _].
  - apply Nat.lt_0_succ.
  - apply runs_nil.
  - vm_compute. reflexivity.
  - exact H.
Defined.

(** C8, as stated, fails: the [extract] step succeeds, the [goto] step
    after it fails with no callback configured, and the result has one
    error but a selected product. *)
Lemma failure_after_extraction_keeps_selected :
  fst (execute_plan Demo.perform 10 [Demo.extract; Demo.home] "hat" true None
                    (Demo.start (Demo.mkPage "<html></html>" [] true [0] [[Demo.hat]] [] [])))
  = Ok (mkResults [Demo.hat_product] (Some Demo.hat_product) ["Timeout exceeded."]).
Proof. vm_compute. reflexivity. Qed.

Lemma unknown_action_is_noop_witness :
  fst (execute_plan Demo.perform 3 [Demo.step "hover" "#menu"; Demo.home] "hat" true None
                    (Demo.start (Demo.results_page [])))
  = Ok empty_results /\ errors empty_results = [].
Proof.
  eapply (proj2 (unknown_action_is_noop Demo.perform)).
  - exact demo_session_ok.
  - simpl. intros H. repeat (destruct H as [H|H]; [discriminate H | ]). exact H.
  - vm_compute. reflexivity.
  - repeat constructor.
Defined.

Lemma replan_replaces_plan_witness :
  exists r,
    fst (execute_plan Demo.perform 8 Demo.search_plan "hat" true (Some Demo.llm)
           (Demo.start
              (Demo.mkPage "<html></html>" [] false [0] [[]; [Demo.hat]] []
                           [Returns (Some (mkPlanObj (Some [Demo.extract])))])))
    = Ok r
    /\ errors r = []
    /\ data r = [Demo.hat_product]
    /\ selected r = min_by_price [Demo.hat_product]
    /\ selected r <> None.
Proof.
  eapply (proj2 (replan_replaces_plan Demo.perform))
    with (pre := firstn 4 Demo.search_plan) (last := Demo.extract) (x := Demo.extract).
  - exact demo_session_ok.
  - reflexivity.
  - reflexivity.
  - repeat (eapply runs_cons; [vm_compute; reflexivity | ]). apply runs_nil.
  - vm_compute. reflexivity.
  - vm_compute. reflexivity.
  - vm_compute. reflexivity.
  - vm_compute. reflexivity.
  - repeat constructor.
Defined.


(* ================================================================== *)
(** * The product extractor *)
(* ================================================================== *)

(** *** Strings *)

Lemma starts_with_iff p s :
  starts_with p s = true <-> exists post, s = (p ++ post)%string.
Proof.
  revert s. induction p as [|a p IH]; intros s; simpl.
  - split; [intros _; exists s; reflexivity | reflexivity].
  - destruct s as [|b s]; [split; [discriminate | intros (post & H); discriminate] | ].
    rewrite andb_true_iff, Ascii.eqb_eq, IH. split.
    + intros (-> & post & ->). exists post. reflexivity.
    + intros (post & H). injection H as -> ->. split; [reflexivity | exists post; reflexivity].
Qed.

Lemma contains_iff b h :
  contains b h = true <-> exists pre post, h = (pre ++ b ++ post)%string.
Proof.
  induction h as [|c h IH]; simpl; rewrite orb_true_iff, starts_with_iff.
  - split.
    + intros [(post & H) | H]; [ | discriminate ]. exists EmptyString, post. exact H.
    + intros ([|? pre] & post & H); [left; exists post; exact H | discriminate].
  - rewrite IH. split.
    + intros [(post & H) | (pre & post & ->)].
      * exists EmptyString, post. exact H.
      * exists (String c pre), post. reflexivity.
    + intros ([|c' pre] & post & H).
      * left. exists post. exact H.
      * right. injection H as -> ->. exists pre, post. reflexivity.
Qed.

Lemma lower_app a b : lower (a ++ b) = (lower a ++ lower b)%string.
Proof. induction a as [|c a IH]; simpl; [reflexivity | rewrite IH; reflexivity]. Qed.

Lemma string_app_assoc (a b c : string) : ((a ++ b) ++ c = a ++ (b ++ c))%string.
Proof. induction a as [|x a IH]; simpl; [reflexivity | rewrite IH; reflexivity]. Qed.

(** A marker inside the lower-cased form of [b] is found in every markup
    that contains [b]. *)
Lemma contains_lower_part a b h :
  contains a (lower b) = true -> contains b h = true -> contains a (lower h) = true.
Proof.
  rewrite !contains_iff. intros (x & y & Hb) (pre & post & ->).
  exists (lower pre ++ x)%string, (y ++ lower post)%string.
  rewrite !lower_app, Hb, !string_app_assoc. reflexivity.
Qed.

(** Every block marker in the raw markup is detected. *)
Lemma marker_is_detected b html :
  In b block_markers -> contains b html = true -> blocked html = true.
Proof.
  intros Hin Hc. unfold blocked. apply existsb_exists.
  simpl in Hin. destruct Hin as [<-|[<-|[<-|[<-|[]]]]].
  - exists "captcha". split; [simpl; tauto | ].
    apply (contains_lower_part _ "captcha"); [reflexivity | exact Hc].
  - exists "robot check". split; [simpl; tauto | ].
    apply (contains_lower_part _ "robot check"); [reflexivity | exact Hc].
  - exists "enter the characters you see". split; [simpl; tauto | ].
    apply (contains_lower_part _ "enter the characters you see"); [reflexivity | exact Hc].
  - exists "captcha". split; [simpl; tauto | ].
    apply (contains_lower_part _ "/errors/validateCaptcha"); [reflexivity | exact Hc].
Qed.

(** *** Numbers *)

Lemma good_price_pos x : good_price x = true <-> pos_finite x.
Proof.
  destruct x as [[|]|[|]| |[|] m e]; cbv; split; intros H;
    solve [ exact I | discriminate H | contradiction H | reflexivity ].
Qed.

Lemma pos_finite_keep x : pos_finite x -> isfinite x = true /\ f_pos x = true.
Proof. destruct x as [[|]|[|]| |[|] m e]; cbv; intros H; try contradiction; split; reflexivity. Qed.

Lemma f_le_pos x y :
  pos_finite x -> pos_finite y ->
  f_le x y = true <->
  match x, y with
  | S754_finite _ mx ex, S754_finite _ my ey =>
      (ex < ey)%Z \/ (ex = ey /\ (mx <= my)%positive)
  | _, _ => False
  end.
Proof.
  destruct x as [?|?| |[|] mx ex]; try contradiction.
  destruct y as [?|?| |[|] my ey]; try contradiction.
  intros _ _. unfold f_le, SFleb, SFcompare.
  destruct (Z.compare_spec ex ey) as [E|E|E].
  - subst. change (Pos.compare_cont Eq mx my) with (Pos.compare mx my).
    destruct (Pos.compare_spec mx my) as [F|F|F]; split; intros H;
      try reflexivity; try discriminate H; try lia.
  - split; [intros _; left; exact E | reflexivity].
  - split; [discriminate | lia].
Qed.

Lemma f_lt_pos x y :
  pos_finite x -> pos_finite y ->
  f_lt x y = true <->
  match x, y with
  | S754_finite _ mx ex, S754_finite _ my ey =>
      (ex < ey)%Z \/ (ex = ey /\ (mx < my)%positive)
  | _, _ => False
  end.
Proof.
  destruct x as [?|?| |[|] mx ex]; try contradiction.
  destruct y as [?|?| |[|] my ey]; try contradiction.
  intros _ _. unfold f_lt, SFltb, SFcompare.
  destruct (Z.compare_spec ex ey) as [E|E|E].
  - subst. change (Pos.compare_cont Eq mx my) with (Pos.compare mx my).
    destruct (Pos.compare_spec mx my) as [F|F|F]; split; intros H;
      try reflexivity; try discriminate H; try lia.
  - split; [intros _; left; exact E | reflexivity].
  - split; [discriminate | lia].
Qed.

Lemma f_le_total x y :
  pos_finite x -> pos_finite y -> f_lt y x = false -> f_le x y = true.
Proof.
  intros Hx Hy H. apply (f_le_pos x y Hx Hy).
  assert (Hn : ~ f_lt y x = true) by (rewrite H; discriminate).
  rewrite (f_lt_pos y x Hy Hx) in Hn.
  destruct x as [?|?| |[|] mx ex]; try contradiction.
  destruct y as [?|?| |[|] my ey]; try contradiction.
  lia.
Qed.

Lemma f_lt_le x y :
  pos_finite x -> pos_finite y -> f_lt x y = true -> f_le x y = true.
Proof.
  intros Hx Hy H. apply (f_le_pos x y Hx Hy). apply (f_lt_pos x y Hx Hy) in H.
  destruct x as [?|?| |[|] mx ex]; try contradiction.
  destruct y as [?|?| |[|] my ey]; try contradiction.
  lia.
Qed.

Lemma f_le_trans x y z :
  pos_finite x -> pos_finite y -> pos_finite z ->
  f_le x y = true -> f_le y z = true -> f_le x z = true.
Proof.
  intros Hx Hy Hz H1 H2.
  apply (f_le_pos x y Hx Hy) in H1. apply (f_le_pos y z Hy Hz) in H2.
  apply (f_le_pos x z Hx Hz).
  destruct x as [?|?| |[|] mx ex]; try contradiction.
  destruct y as [?|?| |[|] my ey]; try contradiction.
  destruct z as [?|?| |[|] mz ez]; try contradiction.
  lia.
Qed.

(** *** Sorting and filtering *)

Lemma insert_by_price_perm x l : Permutation (x :: l) (insert_by_price x l).
Proof.
  induction l as [|y l IH]; simpl; [apply Permutation_refl | ].
  destruct (f_lt (price y) (price x)); [ | apply Permutation_refl ].
  eapply Permutation_trans; [apply perm_swap | apply perm_skip; exact IH].
Qed.

Lemma sort_by_price_perm l : Permutation l (sort_by_price l).
Proof.
  induction l as [|x l IH]; simpl; [apply perm_nil | ].
  eapply Permutation_trans; [apply perm_skip; exact IH | apply insert_by_price_perm].
Qed.

Lemma insert_by_price_sorted x l :
  pos_finite (price x) -> Forall (fun p => pos_finite (price p)) l ->
  StronglySorted cheaper_or_equal l ->
  StronglySorted cheaper_or_equal (insert_by_price x l).
Proof.
  intros Hx Hl Hs. induction Hs as [|y l Hs IH Hy]; simpl.
  - constructor; constructor.
  - inversion Hl as [|? ? Hpy Hl']; subst.
    destruct (f_lt (price y) (price x)) eqn:E.
    + constructor; [apply IH; exact Hl' | ].
      eapply Permutation_Forall; [apply insert_by_price_perm | ].
      constructor; [ | exact Hy ].
      apply f_lt_le; assumption.
    + assert (Hxy : cheaper_or_equal x y) by (apply f_le_total; assumption).
      constructor; [constructor; assumption | ].
      constructor; [exact Hxy | ].
      rewrite Forall_forall in *. intros z Hz.
      eapply f_le_trans; [ | | | exact Hxy | apply Hy; exact Hz ]; auto.
Qed.

Lemma sort_by_price_sorted l :
  Forall (fun p => pos_finite (price p)) l ->
  StronglySorted cheaper_or_equal (sort_by_price l).
Proof.
  induction 1 as [|x l Hx Hl IH]; simpl; [constructor | ].
  apply insert_by_price_sorted; [exact Hx | | exact IH].
  eapply Permutation_Forall; [apply sort_by_price_perm | exact Hl].
Qed.

Lemma map_filter_In {A B} (f : A -> option B) l y :
  In y (map_filter f l) <-> exists x, In x l /\ f x = Some y.
Proof.
  induction l as [|a l IH]; simpl.
  - split; [contradiction | intros (x & [] & _)].
  - destruct (f a) as [b|] eqn:E; simpl; rewrite IH; split.
    + intros [<- | (x & Hx & Hf)]; [exists a; auto | exists x; auto].
    + intros (x & [<- | Hx] & Hf); [left; congruence | right; exists x; auto].
    + intros (x & Hx & Hf). exists x; auto.
    + intros (x & [<- | Hx] & Hf); [congruence | exists x; auto].
Qed.

Lemma map_filter_length {A B} (f : A -> option B) (rejected : A -> bool) l :
  (forall x, f x = None <-> rejected x = true) ->
  List.length (map_filter f l) + List.length (filter rejected l) = List.length l.
Proof.
  intros H. induction l as [|a l IH]; simpl; [reflexivity | ].
  destruct (f a) as [b|] eqn:E; destruct (rejected a) eqn:R; simpl.
  - apply H in R. congruence.
  - lia.
  - lia.
  - apply H in E. congruence.
Qed.

Lemma filter_split_length {A} (f : A -> bool) l :
  List.length (filter f l) + List.length (filter (fun x => negb (f x)) l) = List.length l.
Proof.
  induction l as [|a l IH]; simpl; [reflexivity | ].
  destruct (f a); simpl; lia.
Qed.

(** *** The card script *)

Lemma absolute_link_nonempty h l : absolute_link h = Some l -> nonempty l = true.
Proof.
  unfold absolute_link. destruct h as [u|]; [ | discriminate ].
  destruct (nonempty u) eqn:E; [ | discriminate ].
  destruct (starts_with "http" u); intros H; injection H as <-; [exact E | reflexivity].
Qed.

(** A card yields no product exactly when the rejection test holds. *)
Lemma card_product_none card : card_product card = None <-> card_rejected card = true.
Proof.
  unfold card_product, card_rejected, make_product, bad_price, card_price.
  pose proof (good_price_pos (money (card_price_text card))) as Hg.
  unfold good_price in *.
  destruct (card_title card) as [t|]; simpl; [ | tauto ].
  destruct (card_link card) as [l|] eqn:El; simpl.
  - apply absolute_link_nonempty in El. rewrite El.
    destruct (nonempty t), (isfinite (money (card_price_text card))),
      (f_le (money (card_price_text card)) f_zero), (isSponsored card);
      simpl; split; intros H; try reflexivity; discriminate H.
  - destruct (nonempty t); simpl; tauto.
Qed.

Lemma card_product_some card p :
  card_product card = Some p ->
  card_title card = Some (title p) /\ card_link card = Some (link p)
  /\ price p = card_price card /\ pos_finite (price p) /\ isSponsored card = false.
Proof.
  unfold card_product, make_product, card_price.
  destruct (card_title card) as [t|]; [ | discriminate ].
  destruct (card_link card) as [l|]; [ | discriminate ].
  destruct (nonempty t); simpl; [ | discriminate ].
  destruct (good_price (money (card_price_text card))) eqn:G; simpl; [ | discriminate ].
  destruct (isSponsored card); simpl; [discriminate | ].
  intros H. injection H as <-. simpl.
  repeat split. apply good_price_pos. exact G.
Qed.

Lemma products_pos_finite cards :
  Forall (fun p => pos_finite (price p)) (map_filter card_product cards).
Proof.
  apply Forall_forall. intros p Hp. apply map_filter_In in Hp.
  destruct Hp as (card & _ & Hc). apply card_product_some in Hc. tauto.
Qed.

Lemma keep_product_valid lo hi p :
  pos_finite (price p) -> keep_product lo hi p = within_bounds lo hi p.
Proof.
  intros H. unfold keep_product. destruct (pos_finite_keep _ H) as (-> & ->).
  rewrite !andb_true_r. reflexivity.
Qed.

Section ExtractorClaims.

Context {W : Type}.
Variable perform : forall A : Type, call A -> W -> reply A * W.

Lemma emits_open_search_no_eval goal : emits not_eval (open_search perform goal).
Proof.
  unfold open_search. repeat emits_step ltac:(reflexivity).
  match goal with |- emits _ (match ?x with _ => _ end) => destruct x as [[u lo] hi] end.
  repeat emits_step ltac:(reflexivity).
Qed.

Lemma emits_save_page_no_eval shot : emits not_eval (save_page perform shot).
Proof. unfold save_page. repeat emits_step ltac:(reflexivity). Qed.

(** The [except] branch of [extract_products] always returns the empty
    list. *)
Lemma extract_handler_empty s :
  fst (bind (swallow (save_page perform "debug_exception.png"))
            (fun _ => ret (@nil Product)) s) = Ok [].
Proof.
  unfold bind.
  destruct (safe_swallow not_eval _ (emits_save_page_no_eval "debug_exception.png") s)
    as ([] & H).
  destruct (swallow _ s) as [r s']. simpl in H. subst r. reflexivity.
Qed.

(** The run of [extract_products] on a blocked page. *)
Lemma extract_products_blocked goal s html lo hi s1 :
  open_search perform goal s = (Ok (html, lo, hi), s1) ->
  blocked html = true ->
  extract_products perform goal s =
  let shot := Called (Screenshot "debug_captcha.png") in
  let handler := bind (swallow (save_page perform "debug_exception.png"))
                      (fun _ => ret (@nil Product)) in
  match perform unit (Screenshot "debug_captcha.png") (world s1) with
  | (Returns _, w1) =>
      match perform unit (WriteFile debug_html_path html) w1 with
      | (Returns _, w2) =>
          (Ok [], mkSession w2 (Called (WriteFile debug_html_path html) :: shot :: trace s1))
      | (Throws _, w2) =>
          handler (mkSession w2 (Called (WriteFile debug_html_path html) :: shot :: trace s1))
      end
  | (Throws _, w1) => handler (mkSession w1 (shot :: trace s1))
  end.
Proof.
  intros Hopen Hb. unfold extract_products, try_catch, bind, do.
  rewrite Hopen, Hb.
  destruct (perform unit (Screenshot "debug_captcha.png") (world s1)) as [[u1|e1] w1];
    [ | reflexivity ].
  cbn [world trace].
  destruct (perform unit (WriteFile debug_html_path html) w1) as [[u2|e2] w2]; reflexivity.
Qed.

Lemma extract_handler_trace s :
  exists evs,
    trace (snd (bind (swallow (save_page perform "debug_exception.png"))
                     (fun _ => ret (@nil Product)) s)) = evs ++ trace s
    /\ Forall not_eval evs.
Proof.
  destruct (emits_bind not_eval _ (fun _ => ret (@nil Product))
              (emits_swallow not_eval _
                 (emits_save_page_no_eval "debug_exception.png"))
              (fun _ => emits_ret not_eval []) s) as (evs & Ht & Hf & _).
  exists evs. split; assumption.
Qed.

(** C7.  When the markup read after the navigation contains one of the
    block markers, [extract_products] returns the empty list; no card
    script is evaluated at any point of the call; a screenshot is taken,
    and when the screenshot and the write of the markup both go through
    they are the only two calls made after the markup was read. *)
Theorem blocked_page_yields_nothing :
  forall goal s html lo hi s1 b,
    open_search perform goal s = (Ok (html, lo, hi), s1) ->
    In b block_markers ->
    contains b html = true ->
    fst (extract_products perform goal s) = Ok []
    /\ (exists evs,
          trace (snd (extract_products perform goal s)) = evs ++ trace s
          /\ Forall not_eval evs
          /\ In (Called (Screenshot "debug_captcha.png")) evs)
    /\ (forall w1 w2,
          perform unit (Screenshot "debug_captcha.png") (world s1) = (Returns tt, w1) ->
          perform unit (WriteFile debug_html_path html) w1 = (Returns tt, w2) ->
          trace (snd (extract_products perform goal s))
          = Called (WriteFile debug_html_path html)
              :: Called (Screenshot "debug_captcha.png") :: trace s1).
Proof.
  intros goal s html lo hi s1 b Hopen Hin Hc.
  pose proof (marker_is_detected b html Hin Hc) as Hb.
  destruct (emits_open_search_no_eval goal s) as (ev0 & Ht0 & Hf0 & _).
  rewrite Hopen in Ht0. simpl in Ht0.
  rewrite (extract_products_blocked goal s html lo hi s1 Hopen Hb). cbv zeta.
  destruct (perform unit (Screenshot "debug_captcha.png") (world s1)) as [[[]|e1] w1].
  - destruct (perform unit (WriteFile debug_html_path html) w1) as [[[]|e2] w2] eqn:E2.
    + cbn [fst snd trace]. split; [reflexivity | split].
      * exists (Called (WriteFile debug_html_path html)
                  :: Called (Screenshot "debug_captcha.png") :: ev0).
        rewrite Ht0. split; [reflexivity | split].
        -- repeat constructor. exact Hf0.
        -- simpl. tauto.
      * intros w1' w2' H1 H2. reflexivity.
    + split; [apply extract_handler_empty | split].
      * destruct (extract_handler_trace
                    (mkSession w2 (Called (WriteFile debug_html_path html)
                                     :: Called (Screenshot "debug_captcha.png") :: trace s1)))
          as (ev2 & Ht2 & Hf2).
        exists (ev2 ++ Called (WriteFile debug_html_path html)
                  :: Called (Screenshot "debug_captcha.png") :: ev0).
        rewrite Ht2. cbn [trace]. rewrite Ht0, <- app_assoc.
        split; [reflexivity | split].
        -- apply Forall_app. split; [exact Hf2 | ]. repeat constructor. exact Hf0.
        -- apply in_or_app. right. simpl. tauto.
      * intros w1' w2' H1 H2. injection H1 as <-. rewrite E2 in H2. discriminate H2.
  - split; [apply extract_handler_empty | split].
    + destruct (extract_handler_trace
                  (mkSession w1 (Called (Screenshot "debug_captcha.png") :: trace s1)))
        as (ev2 & Ht2 & Hf2).
      exists (ev2 ++ Called (Screenshot "debug_captcha.png") :: ev0).
      rewrite Ht2. cbn [trace]. rewrite Ht0, <- app_assoc.
      split; [reflexivity | split].
      * apply Forall_app. split; [exact Hf2 | ]. repeat constructor. exact Hf0.
      * apply in_or_app. right. simpl. tauto.
    + intros w1' w2' H1 H2. discriminate H1.
Qed.

(** The bound with which the cards are filtered is the one parsed from
    the goal. *)
Lemma open_search_bounds goal s html lo hi s1 :
  open_search perform goal s = (Ok (html, lo, hi), s1) ->
  (lo, hi) = fst (parse_price_filters goal).
Proof.
  unfold open_search, bind, build_amazon_search_url. intros H.
  destruct (do perform AddInitScript s) as [[?|?|] ?]; try discriminate H.
  destruct (do perform SetExtraHttpHeaders _) as [[?|?|] ?]; try discriminate H.
  destruct (do perform (SetViewportSize 1366 900) _) as [[?|?|] ?]; try discriminate H.
  destruct (parse_price_filters goal) as [[min_p max_p] cleaned].
  destruct (cents_overflow min_p || cents_overflow max_p); simpl in H; try discriminate H.
  destruct (do perform (Goto (AmazonSearch goal)) _) as [[?|?|] ?]; try discriminate H.
  destruct (do perform Content _) as [[?|?|] ?]; try discriminate H.
  injection H as _ <- <- _. reflexivity.
Qed.

(** The run of [extract_products] on a results page whose main card
    query yields at least one product. *)
Lemma extract_products_cards goal s html lo hi s1 items s2 cards s3 :
  open_search perform goal s = (Ok (html, lo, hi), s1) ->
  blocked html = false ->
  find_items perform s1 = (Ok items, s2) ->
  items <> [] ->
  do perform (EvalOnSelectorAll cards_selector) s2 = (Ok cards, s3) ->
  map_filter card_product cards <> [] ->
  fst (extract_products perform goal s)
  = Ok (sort_by_price (filter (keep_product lo hi) (map_filter card_product cards))).
Proof.
  intros Hopen Hnb Hitems Hne Heval Hsome.
  unfold extract_products, try_catch, bind. rewrite Hopen, Hnb.
  unfold read_cards, bind. rewrite Hitems.
  destruct items as [|i items]; [contradiction | ]. cbn [is_nil].
  rewrite Heval.
  destruct (map_filter card_product cards) as [|p0 ps0] eqn:Emf; [contradiction | ].
  cbn [is_nil]. unfold ret at 1.
  destruct (filter (keep_product lo hi) (p0 :: ps0)) as [|q qs] eqn:Ef; cbn [is_nil].
  - pose proof (emits_save_page_no_eval "debug_no_products.png" s3) as (evs & _ & _ & Hd).
    destruct (save_page perform "debug_no_products.png" s3) as [[u|e|] s4]; simpl in *.
    + reflexivity.
    + apply extract_handler_empty.
    + congruence.
  - reflexivity.
Qed.


End ExtractorClaims.

(* ================================================================== *)
(** * The matcher and the language of a pattern *)
(* ================================================================== *)

Ltac inv H := inversion H; subst; clear H.

Lemma string_length_app (a b : string) :
  String.length (a ++ b) = String.length a + String.length b.
Proof. induction a as [|c a IH]; simpl; [reflexivity | rewrite IH; reflexivity]. Qed.

Lemma string_app_nil_r (a : string) : (a ++ "")%string = a.
Proof. induction a as [|c a IH]; simpl; [reflexivity | rewrite IH; reflexivity]. Qed.

Lemma no_digitb_app a b : no_digitb (a ++ b) = no_digitb a && no_digitb b.
Proof.
  induction a as [|c a IH]; simpl; [reflexivity | ].
  rewrite IH, andb_assoc. reflexivity.
Qed.

Section Soundness.

Variable icase : bool.

Lemma rep_sound {R} cs : forall s lo hi pos (k : string -> nat -> option R) x,
  rep icase cs lo hi s pos k = Some x ->
  exists w rest,
    s = (w ++ rest)%string
    /\ Matches icase (Rep cs lo hi) w
    /\ k rest (pos + String.length w) = Some x.
Proof.
  induction s as [|c s IH]; intros lo hi pos k x H; simpl in H.
  - destruct lo; [ | discriminate ].
    exists EmptyString, EmptyString. rewrite Nat.add_0_r.
    repeat split; [ | exact H ].
    constructor; simpl; [contradiction | lia | intros; lia].
  - assert (Hstop : match lo with O => k (String c s) pos | S _ => None end = Some x ->
                    exists w rest,
                      String c s = (w ++ rest)%string
                      /\ Matches icase (Rep cs lo hi) w
                      /\ k rest (pos + String.length w) = Some x).
    { intros Hs. destruct lo; [ | discriminate ].
      exists EmptyString, (String c s). rewrite Nat.add_0_r.
      repeat split; [ | exact Hs ].
      constructor; simpl; [contradiction | lia | intros; lia]. }
    destruct (cset_mem icase cs c) eqn:Hc; [ | exact (Hstop H) ].
    destruct (more hi) eqn:Hm; [ | exact (Hstop H) ].
    simpl in H.
    destruct (rep icase cs (pred lo) (option_map pred hi) s (S pos) k) as [r|] eqn:E;
      [ | exact (Hstop H) ].
    injection H as ->.
    destruct (IH _ _ _ _ _ E) as (w & rest & -> & Hw & Hk).
    exists (String c w), rest. simpl. rewrite <- plus_n_Sm.
    repeat split; [ | exact Hk ].
    inv Hw. constructor.
    + simpl. intros a [<- | Ha]; [exact Hc | auto].
    + simpl. lia.
    + intros h ->. simpl.
      destruct h as [|h]; [discriminate Hm | ].
      apply le_n_S.
      match goal with Hb : forall h0 : nat, _ -> _ <= h0 |- _ => apply Hb end.
      reflexivity.
Qed.

Lemma exec_sound {R} r : forall s pos cs (k : string -> nat -> captures -> option R) x,
  exec icase r s pos cs k = Some x ->
  exists w rest cs',
    s = (w ++ rest)%string
    /\ Matches icase r w
    /\ k rest (pos + String.length w) cs' = Some x.
Proof.
  induction r as [ | c | r1 IH1 r2 IH2 | r1 IH1 r2 IH2 | r IH | c lo hi | n r IH ];
    intros s pos cs k x H; simpl in H.
  - exists EmptyString, s, cs. rewrite Nat.add_0_r.
    repeat split; [constructor | exact H].
  - destruct s as [|a s]; [discriminate | ].
    destruct (cset_mem icase c a) eqn:Hc; [ | discriminate ].
    exists (String a EmptyString), s, cs. simpl. rewrite Nat.add_1_r.
    repeat split; [constructor; exact Hc | exact H].
  - destruct (IH1 _ _ _ _ _ H) as (w1 & rest1 & cs1 & -> & Hw1 & H1).
    destruct (IH2 _ _ _ _ _ H1) as (w2 & rest2 & cs2 & -> & Hw2 & H2).
    exists (w1 ++ w2)%string, rest2, cs2.
    rewrite string_app_assoc, string_length_app, Nat.add_assoc.
    repeat split; [constructor; assumption | exact H2].
  - destruct (exec icase r1 s pos cs k) as [y|] eqn:E.
    + injection H as ->.
      destruct (IH1 _ _ _ _ _ E) as (w & rest & cs' & -> & Hw & Hk).
      exists w, rest, cs'. repeat split; [apply MAltL; exact Hw | exact Hk].
    + destruct (IH2 _ _ _ _ _ H) as (w & rest & cs' & -> & Hw & Hk).
      exists w, rest, cs'. repeat split; [apply MAltR; exact Hw | exact Hk].
  - destruct (exec icase r s pos cs k) as [y|] eqn:E.
    + injection H as ->.
      destruct (IH _ _ _ _ _ E) as (w & rest & cs' & -> & Hw & Hk).
      exists w, rest, cs'. repeat split; [apply MOptSome; exact Hw | exact Hk].
    + exists EmptyString, s, cs. rewrite Nat.add_0_r.
      repeat split; [apply MOptNone | exact H].
  - destruct (rep_sound c _ _ _ _ _ _ H) as (w & rest & -> & Hw & Hk).
    exists w, rest, cs. repeat split; assumption.
  - destruct (IH _ _ _ _ _ H) as (w & rest & cs' & -> & Hw & Hk).
    eexists w, rest, _. repeat split; [apply MGrp; exact Hw | exact Hk].
Qed.

Lemma match_at_sound r s cs e rest :
  match_at icase r s = Some (cs, e, rest) ->
  exists w, s = (w ++ rest)%string /\ Matches icase r w /\ e = String.length w.
Proof.
  intros H. unfold match_at in H.
  destruct (exec_sound r _ _ _ _ _ H) as (w & rest' & cs' & -> & Hw & Hk).
  injection Hk as _ <- <-. exists w. repeat split; assumption.
Qed.

End Soundness.

(** *** Every price phrase has a digit *)

Lemma matches_number_digit w : Matches true number w -> no_digitb w = false.
Proof.
  intros H. unfold number in H. inv H.
  match goal with H : Matches _ (Rep CDigit 1 None) _ |- _ => inv H end.
  destruct w1 as [|d w1]; [simpl in *; lia | ].
  match goal with H : forall a, _ -> cset_mem _ _ _ = true |- _ =>
    pose proof (H d (or_introl eq_refl)) as Hd end.
  simpl in Hd. simpl. rewrite Hd. reflexivity.
Qed.

Lemma matches_price_digit w : Matches true PRICE_RE w -> no_digitb w = false.
Proof.
  intros H. unfold PRICE_RE in H.
  repeat match goal with
         | H : Matches _ (Cat _ _) _ |- _ => inv H
         | H : Matches _ (Grp "val" _) _ |- _ => inv H
         end.
  rewrite !no_digitb_app.
  match goal with H : Matches _ number _ |- _ => rewrite (matches_number_digit _ H) end.
  rewrite !andb_false_r. reflexivity.
Qed.

Lemma matches_range_digit w : Matches true RANGE_RE w -> no_digitb w = false.
Proof.
  intros H. unfold RANGE_RE in H.
  repeat match goal with
         | H : Matches _ (Cat _ _) _ |- _ => inv H
         | H : Matches _ (Grp "hi" _) _ |- _ => inv H
         end.
  rewrite !no_digitb_app.
  match goal with H : Matches _ number ?w |- context [no_digitb ?w] =>
    rewrite (matches_number_digit _ H) end.
  rewrite !andb_false_r. reflexivity.
Qed.

Lemma match_at_no_digit r s :
  (forall w, Matches true r w -> no_digitb w = false) ->
  no_digitb s = true -> match_at true r s = None.
Proof.
  intros Hr Hs. destruct (match_at true r s) as [[[cs e] rest]|] eqn:E; [ | reflexivity ].
  destruct (match_at_sound _ _ _ _ _ _ E) as (w & -> & Hw & _).
  rewrite no_digitb_app, (Hr w Hw) in Hs. discriminate Hs.
Qed.

Lemma search_no_digit r s i :
  (forall w, Matches true r w -> no_digitb w = false) ->
  no_digitb s = true -> search_from true r i s = None.
Proof.
  intros Hr. revert i. induction s as [|c s IH]; intros i Hs; simpl.
  - rewrite (match_at_no_digit r "" Hr Hs). reflexivity.
  - rewrite (match_at_no_digit r (String c s) Hr Hs).
    apply IH. simpl in Hs. apply andb_true_iff in Hs. tauto.
Qed.

Lemma sub_del_no_digit r s :
  (forall w, Matches true r w -> no_digitb w = false) ->
  no_digitb s = true -> sub_del true r 0 s = s.
Proof.
  intros Hr. induction s as [|c s IH]; intros Hs; simpl; [reflexivity | ].
  rewrite (match_at_no_digit r (String c s) Hr Hs).
  rewrite IH; [reflexivity | ]. simpl in Hs. apply andb_true_iff in Hs. tauto.
Qed.

(* ================================================================== *)
(** * The price-constraint parser *)
(* ================================================================== *)

#[local] Open Scope string_scope.

Lemma digit_char_facts c :
  is_digit c = true ->
  py_isspace c = false /\ memb true c "aoublm><$." = false /\ memb true c "-–to" = false.
Proof.
  destruct c as [[] [] [] [] [] [] [] []]; intros H;
    first [ discriminate H | vm_compute; repeat split ].
Qed.

Lemma memb_single c x big :
  memb true c big = false -> In x (list_ascii_of_string big) ->
  memb true c (String x "") = false.
Proof.
  induction big as [|y big IH]; simpl; [contradiction | ].
  intros H [<- | Hx].
  - apply orb_false_iff in H. destruct H as (-> & _). reflexivity.
  - apply orb_false_iff in H. apply IH; tauto.
Qed.

Lemma rep_total {R} cs hi : forall s pos (k : string -> nat -> option R),
  (forall t p, k t p <> None) -> rep true cs 0 hi s pos k <> None.
Proof.
  induction s as [|c s IH]; intros pos k Hk; simpl; [apply Hk | ].
  destruct (cset_mem true cs c && more hi); [ | apply Hk ].
  destruct (rep true cs 0 (option_map Init.Nat.pred hi) s (S pos) k); [discriminate | apply Hk].
Qed.

Lemma op_fails_on_digit {R} c s pos cs (k : string -> nat -> captures -> option R) :
  is_digit c = true ->
  exec true op_alternatives (String c s) pos cs k = None.
Proof.
  intros Hd. destruct (digit_char_facts c Hd) as (_ & Hm & _).
  assert (F : forall x, In x (list_ascii_of_string "aoublm><$.") -> memb true c (String x "") = false)
    by (intros; eapply memb_single; eassumption).
  cbn [exec alts lit op_alternatives Chr cset_mem ws_plus].
  rewrite !F by (simpl; tauto). reflexivity.
Qed.

Lemma price_matches_digit c s :
  is_digit c = true -> match_at true PRICE_RE (String c s) <> None.
Proof.
  intros Hd. destruct (digit_char_facts c Hd) as (Hs & Hm & _).
  assert (F : forall x, In x (list_ascii_of_string "aoublm><$.") -> memb true c (String x "") = false)
    by (intros; eapply memb_single; eassumption).
  unfold match_at, PRICE_RE.
  cbn [exec]. rewrite op_fails_on_digit by exact Hd.
  cbn [exec ws_star rep cset_mem Chr number].
  rewrite Hs, Hd. cbn [andb more pred option_map].
  rewrite F by (simpl; tauto).
  match goal with |- match ?m with _ => _ end <> None =>
    assert (Hm' : m <> None); [ | destruct m; [discriminate | contradiction] ] end.
  apply rep_total. intros t p.
  match goal with |- match ?m with _ => _ end <> None => destruct m; discriminate end.
Qed.

Lemma price_match_positive cs e rest s :
  match_at true PRICE_RE s = Some (cs, e, rest) -> exists n, e = S n.
Proof.
  intros H. destruct (match_at_sound _ _ _ _ _ _ H) as (w & -> & Hw & ->).
  apply matches_price_digit in Hw. destruct w; [discriminate Hw | ]. simpl. eauto.
Qed.

(** [PRICE_RE.sub] leaves no digit behind. *)
Lemma sub_price_no_digit s : forall skip, no_digitb (sub_del true PRICE_RE skip s) = true.
Proof.
  induction s as [|c s IH]; intros skip; simpl; [reflexivity | ].
  destruct skip as [|n]; [ | apply IH ].
  destruct (match_at true PRICE_RE (String c s)) as [[[cs e] rest]|] eqn:E.
  - destruct (price_match_positive _ _ _ _ E) as (n & ->). apply IH.
  - simpl. rewrite IH, andb_true_r.
    destruct (is_digit c) eqn:Hd; [ | reflexivity ].
    exfalso. apply (price_matches_digit c s Hd). exact E.
Qed.

Lemma lstrip_no_digit sp s : no_digitb s = true -> no_digitb (lstrip_by sp s) = true.
Proof.
  induction s as [|c s IH]; simpl; [reflexivity | ].
  intros H. destruct (sp c); [ | exact H ].
  apply IH. apply andb_true_iff in H. tauto.
Qed.

Lemma rstrip_no_digit sp s : no_digitb s = true -> no_digitb (rstrip_by sp s) = true.
Proof.
  induction s as [|c s IH]; simpl; [reflexivity | ].
  intros H. apply andb_true_iff in H. destruct H as (Hc & Hs).
  specialize (IH Hs).
  destruct (rstrip_by sp s) as [|d r].
  - destruct (sp c); simpl; [reflexivity | rewrite Hc; reflexivity].
  - change (no_digitb (String c (String d r)) = true).
    simpl in *. rewrite Hc, IH. reflexivity.
Qed.

Lemma strip_no_digit s : no_digitb s = true -> no_digitb (strip s) = true.
Proof. intros H. unfold strip. apply rstrip_no_digit, lstrip_no_digit, H. Qed.

(** Stripping twice is stripping once. *)
Lemma rstrip_idem sp s : rstrip_by sp (rstrip_by sp s) = rstrip_by sp s.
Proof.
  induction s as [|c s IH]; simpl; [reflexivity | ].
  destruct (rstrip_by sp s) as [|d r] eqn:E.
  - destruct (sp c) eqn:Hc; simpl; [reflexivity | rewrite Hc; reflexivity].
  - change (rstrip_by sp (String c (String d r)) = String c (String d r)).
    simpl. simpl in IH. rewrite IH. reflexivity.
Qed.

Lemma lstrip_fixed sp s :
  match s with String c _ => sp c = false | EmptyString => True end ->
  lstrip_by sp s = s.
Proof. destruct s as [|c s]; simpl; [reflexivity | intros ->; reflexivity]. Qed.

Lemma lstrip_head sp s :
  match lstrip_by sp s with String c _ => sp c = false | EmptyString => True end.
Proof.
  induction s as [|c s IH]; simpl; [exact I | ].
  destruct (sp c) eqn:E; [exact IH | exact E].
Qed.

Lemma rstrip_head sp s :
  match s with String c _ => sp c = false | EmptyString => True end ->
  match rstrip_by sp s with String c _ => sp c = false | EmptyString => True end.
Proof.
  destruct s as [|c s]; simpl; [trivial | ].
  intros H. destruct (rstrip_by sp s); [rewrite H | ]; exact H.
Qed.

Lemma strip_idem s : strip (strip s) = strip s.
Proof.
  unfold strip.
  rewrite (lstrip_fixed py_isspace (rstrip_by py_isspace (lstrip_by py_isspace s))).
  - apply rstrip_idem.
  - apply rstrip_head. apply lstrip_head.
Qed.

(** *** Digits separated by other characters *)

Lemma gapped_mono s : forall st st', st <= st' -> gapped st s = true -> gapped st' s = true.
Proof.
  induction s as [|c s IH]; intros st st' Hle H; simpl in *; [discriminate | ].
  destruct (is_digit c).
  - destruct st as [|[|st]], st' as [|[|st']]; try lia; try reflexivity; exact H.
  - destruct st as [|[|st]], st' as [|[|st']]; try lia; try exact H;
      (eapply IH; [ | exact H ]; lia).
Qed.

Lemma gapped_skip a : forall k t st,
  gapped k t = true -> k <= st -> k <= 2 -> gapped st (a ++ t) = true.
Proof.
  induction a as [|c a IH]; intros k t st H Hle Hk; simpl.
  - eapply gapped_mono; eassumption.
  - destruct (is_digit c).
    + destruct st as [|[|st]]; try reflexivity; eapply IH; try exact H; lia.
    + destruct st as [|st]; eapply IH; try exact H; lia.
Qed.

Lemma gapped_no_digit s : forall st, no_digitb s = true -> gapped st s = false.
Proof.
  induction s as [|c s IH]; intros st H; simpl in *; [reflexivity | ].
  apply andb_true_iff in H. destruct H as (Hc & Hs).
  apply negb_true_iff in Hc. rewrite Hc.
  destruct st; apply IH; exact Hs.
Qed.

Lemma gapped_prefix_no_digit a t : no_digitb a = true -> gapped 0 (a ++ t) = gapped 0 t.
Proof.
  induction a as [|c a IH]; simpl; intros H; [reflexivity | ].
  apply andb_true_iff in H. destruct H as (Hc & Hs).
  apply negb_true_iff in Hc. rewrite Hc. apply IH. exact Hs.
Qed.

Lemma matches_number_head w :
  Matches true number w -> exists d w', w = String d w' /\ is_digit d = true.
Proof.
  intros H. unfold number in H. inv H.
  match goal with H : Matches _ (Rep CDigit 1 None) _ |- _ => inv H end.
  destruct w1 as [|d w1]; [simpl in *; lia | ].
  exists d, (w1 ++ w2). split; [reflexivity | ].
  match goal with H : forall a, _ -> cset_mem _ _ _ = true |- _ =>
    exact (H d (or_introl eq_refl)) end.
Qed.

Lemma separator_not_digit c : memb true c "-–to" = true -> is_digit c = false.
Proof.
  intros H. destruct (is_digit c) eqn:E; [ | reflexivity ].
  destruct (digit_char_facts c E) as (_ & _ & Hm). congruence.
Qed.

(** A range phrase has a digit, then a separator, then a digit. *)
Lemma matches_range_gapped w rest :
  Matches true RANGE_RE w -> gapped 0 (w ++ rest) = true.
Proof.
  intros H. unfold RANGE_RE in H.
  repeat match goal with
         | H : Matches _ (Cat _ _) _ |- _ => inv H
         | H : Matches _ (Grp _ _) _ |- _ => inv H
         end.
  repeat match goal with
         | H : Matches _ number _ |- _ =>
             apply matches_number_head in H; destruct H as (? & ? & -> & ?)
         end.
  match goal with H : Matches _ (Rep (CChars _) 1 None) ?w |- _ =>
    inv H; destruct w as [|n wsep]; [simpl in *; lia | ] end.
  match goal with H : forall a, _ -> cset_mem _ (CChars _) _ = true |- _ =>
    pose proof (separator_not_digit n (H n (or_introl eq_refl))) as Hn end.
  rewrite ?string_app_assoc.
  apply (gapped_skip _ 0); [ | lia | lia ].
  apply (gapped_skip _ 0); [ | lia | lia ].
  simpl. match goal with H : is_digit ?d = true |- context [is_digit ?d] => rewrite H end.
  rewrite ?string_app_assoc.
  apply (gapped_skip _ 1); [ | lia | lia ].
  apply (gapped_skip _ 1); [ | lia | lia ].
  simpl. rewrite Hn. rewrite ?string_app_assoc.
  apply (gapped_skip _ 2); [ | lia | lia ].
  apply (gapped_skip _ 2); [ | lia | lia ].
  apply (gapped_skip _ 2); [ | lia | lia ].
  apply (gapped_skip _ 2); [ | lia | lia ].
  simpl. match goal with H : is_digit ?d = true |- context [is_digit ?d] => rewrite H end.
  reflexivity.
Qed.

Lemma search_range_not_gapped s : forall i,
  gapped 0 s = false -> search_from true RANGE_RE i s = None.
Proof.
  induction s as [|c s IH]; intros i H.
  - reflexivity.
  - cbn [search_from].
    destruct (match_at true RANGE_RE (String c s)) as [[[cs e] rest]|] eqn:E.
    + destruct (match_at_sound _ _ _ _ _ _ E) as (w & Hw & Hm & _).
      rewrite Hw, (matches_range_gapped w rest Hm) in H. discriminate H.
    + apply IH. destruct (gapped 0 s) eqn:G; [ | reflexivity ].
      rewrite <- H. symmetry.
      apply (gapped_skip (String c "") 0 s 0 G); lia.
Qed.

(** *** Characters *)

Lemma lower_char_facts c :
  is_digit (lower_char c) = is_digit c /\ is_junk (lower_char c) = is_junk c.
Proof. destruct c as [[] [] [] [] [] [] [] []]; vm_compute; split; reflexivity. Qed.

Lemma junk_not_digit c : is_junk c = true -> is_digit c = false.
Proof. destruct c as [[] [] [] [] [] [] [] []]; vm_compute; intros H; first [reflexivity | discriminate H]. Qed.

Lemma space_is_junk c : py_isspace c = true -> is_junk c = true.
Proof. intros H. unfold is_junk. rewrite H. reflexivity. Qed.

(** *** Lower case and last characters *)

Lemma length_lower w : String.length (lower w) = String.length w.
Proof. induction w as [|c w IH]; simpl; [reflexivity | rewrite IH; reflexivity]. Qed.

Lemma no_digitb_lower w : no_digitb (lower w) = no_digitb w.
Proof.
  induction w as [|c w IH]; simpl; [reflexivity | ].
  rewrite IH, (proj1 (lower_char_facts c)). reflexivity.
Qed.

Lemma last_char_lower w : last_char (lower w) = option_map lower_char (last_char w).
Proof.
  induction w as [|c w IH]; [reflexivity | ].
  destruct w as [|d w]; [reflexivity | ].
  change (last_char (lower (String d w)) = option_map lower_char (last_char (String d w))).
  exact IH.
Qed.

Lemma last_char_app x y : y <> "" -> last_char (x ++ y) = last_char y.
Proof.
  intros Hy. induction x as [|c x IH]; [reflexivity | ].
  simpl. destruct (x ++ y) as [|d r] eqn:E; [ | exact IH ].
  destruct x; [simpl in E; congruence | discriminate E].
Qed.

Lemma last_char_some w : w <> "" -> exists c, last_char w = Some c.
Proof.
  induction w as [|c w IH]; [congruence | intros _ ].
  destruct w as [|d w]; [exists c; reflexivity | ].
  destruct IH as (x & Hx); [discriminate | ]. exists x. exact Hx.
Qed.

(** *** Stripping on the right *)

Lemma rstrip_all sp j : all_chars sp j = true -> rstrip_by sp j = "".
Proof.
  induction j as [|c j IH]; simpl; [reflexivity | ].
  intros H. apply andb_true_iff in H. destruct H as (Hc & Hj).
  rewrite (IH Hj), Hc. reflexivity.
Qed.

Lemma rstrip_app_all sp x j : all_chars sp j = true -> rstrip_by sp (x ++ j) = rstrip_by sp x.
Proof.
  intros H. induction x as [|c x IH]; simpl; [apply rstrip_all; exact H | ].
  rewrite IH. reflexivity.
Qed.

Lemma rstrip_last sp w c : last_char w = Some c -> sp c = false -> rstrip_by sp w = w.
Proof.
  induction w as [|a w IH]; [discriminate | ].
  destruct w as [|b w].
  - simpl. intros H. injection H as ->. intros ->. reflexivity.
  - intros H Hc. change (last_char (String b w) = Some c) in H.
    specialize (IH H Hc).
    change (match rstrip_by sp (String b w) with
            | "" => if sp a then "" else String a ""
            | r => String a r
            end = String a (String b w)).
    rewrite IH. reflexivity.
Qed.

(** *** Literals and spaces *)

Lemma matches_lit_lower x : forall w, Matches true (lit x) w -> lower w = lower x.
Proof.
  induction x as [|c x IH]; intros w H; simpl in H.
  - inv H. reflexivity.
  - inv H. match goal with H : Matches _ (Chr _) _ |- _ => inv H end.
    simpl. f_equal; [ | apply IH; assumption ].
    match goal with H : cset_mem _ _ _ = true |- _ => simpl in H; unfold chr_eq in H;
      rewrite orb_false_r in H; apply Ascii.eqb_eq in H; exact H end.
Qed.

Lemma matches_spaces w lo hi :
  Matches true (Rep CSpace lo hi) w -> all_chars py_isspace w = true.
Proof.
  intros H. inv H.
  match goal with H : forall a, _ -> cset_mem _ _ _ = true |- _ => rename H into Hall end.
  clear - Hall.
  induction w as [|c w IH]; simpl; [reflexivity | ].
  pose proof (Hall c (or_introl eq_refl)) as Hc. simpl in Hc. rewrite Hc.
  apply IH. intros a Ha. apply Hall. right. exact Ha.
Qed.

Lemma all_chars_app p a b : all_chars p (a ++ b) = all_chars p a && all_chars p b.
Proof.
  induction a as [|c a IH]; simpl; [reflexivity | rewrite IH, andb_assoc; reflexivity].
Qed.

Lemma all_junk_no_digit j : all_chars is_junk j = true -> no_digitb j = true.
Proof.
  induction j as [|c j IH]; simpl; [reflexivity | ].
  intros H. apply andb_true_iff in H. destruct H as (Hc & Hj).
  rewrite (junk_not_digit c Hc), (IH Hj). reflexivity.
Qed.

Lemma all_spaces_junk j : all_chars py_isspace j = true -> all_chars is_junk j = true.
Proof.
  induction j as [|c j IH]; simpl; [reflexivity | ].
  intros H. apply andb_true_iff in H. destruct H as (Hc & Hj).
  rewrite (space_is_junk c Hc), (IH Hj). reflexivity.
Qed.

Lemma op_word_lit x w :
  Matches true (lit x) w ->
  no_digitb (lower x) = true ->
  (exists c, last_char (lower x) = Some c /\ is_junk c = false
             /\ (String.length x <= 5 \/ c = "n"%char \/ c = "t"%char)) ->
  op_word w.
Proof.
  intros H Hd (c & Hl & Hj & Hc).
  apply matches_lit_lower in H.
  split.
  - rewrite <- no_digitb_lower, H. exact Hd.
  - rewrite <- H, last_char_lower in Hl.
    destruct (last_char w) as [a|]; [ | discriminate Hl ].
    simpl in Hl. injection Hl as <-.
    exists a. split; [reflexivity | ]. split.
    + rewrite <- (proj2 (lower_char_facts a)). exact Hj.
    + rewrite <- (length_lower w), H, length_lower. exact Hc.
Qed.

Lemma op_word_spaced x y w :
  Matches true (Cat (lit x) (Cat ws_plus (lit y))) w ->
  no_digitb (lower x) = true -> no_digitb (lower y) = true ->
  (exists c, last_char (lower y) = Some c /\ is_junk c = false
             /\ (c = "n"%char \/ c = "t"%char)) ->
  op_word w.
Proof.
  intros H Hx Hy (c & Hl & Hj & Hc).
  inv H. match goal with H : Matches _ (Cat ws_plus _) _ |- _ => inv H end.
  repeat match goal with H : Matches _ (lit _) _ |- _ => apply matches_lit_lower in H end.
  match goal with H : Matches _ ws_plus _ |- _ => apply matches_spaces in H; rename H into Hs end.
  match goal with H1 : lower ?a = lower x, H2 : lower ?b = lower y |- _ =>
    rename H1 into Ex; rename H2 into Ey; rename a into wx; rename b into wy end.
  assert (Hne : wy <> "").
  { intros ->. simpl in Ey. rewrite <- Ey in Hl. discriminate Hl. }
  split.
  - rewrite !no_digitb_app.
    rewrite <- (no_digitb_lower wx), Ex, Hx.
    rewrite <- (no_digitb_lower wy), Ey, Hy.
    rewrite (all_junk_no_digit _ (all_spaces_junk _ Hs)). reflexivity.
  - rewrite <- Ey, last_char_lower in Hl.
    rewrite <- string_app_assoc, (last_char_app _ wy Hne).
    destruct (last_char wy) as [a|]; [ | discriminate Hl ].
    simpl in Hl. injection Hl as <-.
    exists a. split; [reflexivity | ]. split.
    + rewrite <- (proj2 (lower_char_facts a)). exact Hj.
    + right. exact Hc.
Qed.

Ltac op_word_by_lit H x :=
  apply (op_word_lit x _ H); [reflexivity | ];
  eexists; split; [reflexivity | split; [reflexivity | ] ];
  first [ left; simpl; lia | right; left; reflexivity | right; right; reflexivity ].

Ltac op_word_by_spaced H x y :=
  apply (op_word_spaced x y _ H); [reflexivity | reflexivity | ];
  eexists; split; [reflexivity | split; [reflexivity | ] ];
  first [ left; reflexivity | right; reflexivity ].

Lemma matches_op_word w : Matches true op_alternatives w -> op_word w.
Proof.
  intros H. unfold op_alternatives in H. cbn [alts] in H.
  repeat match goal with
         | H : Matches _ (Alt _ _) _ |- _ => inv H
         end;
    match goal with
    | H : Matches true _ w |- _ =>
        first [ op_word_by_lit H "above" | op_word_by_lit H "over"
              | op_word_by_lit H "under" | op_word_by_lit H "below"
              | op_word_by_spaced H "less" "than" | op_word_by_spaced H "more" "than"
              | op_word_by_spaced H "at" "least"
              | op_word_by_lit H ">=" | op_word_by_lit H ">"
              | op_word_by_lit H "<=" | op_word_by_lit H "<" ]
    end.
Qed.

(** A price phrase: an optional comparison word, spaces and at most one
    dollar sign, then a digit. *)
Lemma matches_price_shape w :
  Matches true PRICE_RE w ->
  exists wo junk d v,
    w = (wo ++ junk ++ String d v)%string
    /\ (wo = "" \/ op_word wo)
    /\ all_chars is_junk junk = true
    /\ is_digit d = true.
Proof.
  intros H. unfold PRICE_RE in H.
  repeat match goal with
         | H : Matches _ (Cat _ _) _ |- _ => inv H
         | H : Matches _ (Grp _ _) _ |- _ => inv H
         end.
  match goal with H : Matches _ number _ |- _ =>
    apply matches_number_head in H; destruct H as (d & v & -> & Hd) end.
  repeat match goal with H : Matches _ ws_star _ |- _ =>
    apply matches_spaces, all_spaces_junk in H end.
  match goal with H : Matches _ (Opt (Chr "$")) ?x |- _ =>
    assert (Hdollar : all_chars is_junk x = true)
      by (inv H; [reflexivity | ];
          match goal with H : Matches _ (Chr _) _ |- _ => inv H end;
          match goal with H : cset_mem _ _ _ = true |- _ =>
            simpl in H; unfold chr_eq in H; rewrite orb_false_r in H;
            apply Ascii.eqb_eq in H end;
          simpl; rewrite <- (proj2 (lower_char_facts _));
          match goal with H : lower_char _ = _ |- _ => rewrite H end; reflexivity)
  end.
  match goal with
  | H : Matches _ (Opt (Grp "op" _)) ?wo |- context [(?wo ++ ?a ++ ?b ++ ?c ++ _)%string] =>
      exists wo, (a ++ b ++ c)%string, d, v
  end.
  split; [rewrite !string_app_assoc; reflexivity | ].
  split.
  - match goal with H : Matches _ (Opt (Grp "op" _)) _ |- _ => inv H end;
      [left; reflexivity | right].
    match goal with H : Matches _ (Grp _ _) _ |- _ => inv H end.
    apply matches_op_word. assumption.
  - split; [ | exact Hd ].
    rewrite !all_chars_app.
    repeat match goal with H : all_chars is_junk _ = true |- _ => rewrite H; clear H end.
    reflexivity.
Qed.

Lemma first_digit_unique a : forall b d d' x y,
  no_digitb a = true -> no_digitb b = true ->
  is_digit d = true -> is_digit d' = true ->
  (a ++ String d x)%string = (b ++ String d' y)%string -> a = b.
Proof.
  induction a as [|c a IH]; intros [|c' b] d d' x y Ha Hb Hd Hd' E; simpl in *.
  - reflexivity.
  - injection E as -> _. rewrite Hd in Hb. discriminate Hb.
  - injection E as -> _. rewrite Hd' in Ha. discriminate Ha.
  - injection E as -> E. f_equal.
    apply andb_true_iff in Ha, Hb.
    eapply IH; [ | | exact Hd | exact Hd' | exact E ]; tauto.
Qed.

Section Phrase.

(** A comparison word of five letters that does not end in [n] or [t],
    a space, and a number. *)
Variable word : string.
Variable r : ascii.
Variable d0 : ascii.
Variable num : string.

Hypothesis word_no_digit : no_digitb word = true.
Hypothesis word_last : last_char word = Some r.
Hypothesis word_length : String.length word = 5.
Hypothesis r_not_junk : is_junk r = false.
Hypothesis r_not_n : lower_char r <> "n"%char.
Hypothesis r_not_t : lower_char r <> "t"%char.
Hypothesis d0_digit : is_digit d0 = true.

(** No price phrase starts before the word when only the number has
    digits. *)
Lemma no_match_before q rest :
  q <> "" -> no_digitb q = true ->
  match_at true PRICE_RE (q ++ word ++ " " ++ String d0 rest) = None.
Proof.
  intros Hq Hd.
  destruct (match_at true PRICE_RE _) as [[[cs e] rest']|] eqn:E; [exfalso | reflexivity].
  destruct (match_at_sound _ _ _ _ _ _ E) as (w & Hw & Hm & _).
  destruct (matches_price_shape w Hm) as (wo & junk & d & v & -> & Hwo & Hj & Hdd).
  assert (Hword_ne : word <> "") by (intros ->; discriminate word_length).
  assert (Heq : (wo ++ junk)%string = ((q ++ word) ++ " ")%string).
  { eapply (first_digit_unique _ _ d d0 (v ++ rest') rest).
    - rewrite no_digitb_app, (all_junk_no_digit _ Hj), andb_true_r.
      destruct Hwo as [-> | (H & _)]; [reflexivity | exact H].
    - rewrite !no_digitb_app, Hd, word_no_digit. reflexivity.
    - exact Hdd.
    - exact d0_digit.
    - rewrite !string_app_assoc in Hw. rewrite !string_app_assoc. simpl.
      simpl in Hw. symmetry. exact Hw. }
  apply (f_equal (rstrip_by is_junk)) in Heq.
  rewrite (rstrip_app_all is_junk wo junk Hj) in Heq.
  rewrite (rstrip_app_all is_junk (q ++ word) " " eq_refl) in Heq.
  assert (Hlast : last_char (q ++ word) = Some r)
    by (rewrite (last_char_app q word Hword_ne); exact word_last).
  rewrite (rstrip_last is_junk (q ++ word) r Hlast r_not_junk) in Heq.
  destruct Hwo as [-> | (_ & c & Hc & Hcj & Hshape)].
  - simpl in Heq. destruct q; [congruence | discriminate Heq].
  - rewrite (rstrip_last is_junk wo c Hc Hcj) in Heq. subst wo.
    rewrite Hlast in Hc. injection Hc as <-.
    rewrite string_length_app, word_length in Hshape.
    destruct q as [|x q]; [congruence | ]. simpl in Hshape.
    destruct Hshape as [H | [H | H]]; [lia | exact (r_not_n H) | exact (r_not_t H)].
Qed.

End Phrase.

Lemma digits_stop {R} s lo hi pos (k : string -> nat -> option R) :
  no_digitb s = true ->
  rep true CDigit lo hi s pos k = match lo with O => k s pos | S _ => None end.
Proof.
  destruct s as [|c s]; [reflexivity | ]. simpl.
  intros H. apply andb_true_iff in H. destruct H as (Hc & _).
  apply negb_true_iff in Hc. rewrite Hc. reflexivity.
Qed.

(** Evaluates a match on a string made of a given phrase and a tail [s]
    that has no digit. *)
Ltac phrase_match s H :=
  unfold match_at; cbn;
  rewrite !(digits_stop s 0 None _ _ H); cbv beta;
  destruct s as [|? s]; [reflexivity | ];
  cbn;
  match goal with
  | |- context [if ?b then _ else _] => destruct b; [ | reflexivity ]
  end;
  simpl in H; apply andb_true_iff in H; destruct H as (_ & H);
  rewrite !(digits_stop s 1 (Some 2) _ _ H); reflexivity.

Lemma match_phrase_under s :
  no_digitb s = true ->
  match_at true PRICE_RE ("under 30" ++ s) = Some ([("val", (6, 8)); ("op", (0, 5))], 8, s).
Proof. intros H. phrase_match s H. Qed.

Lemma match_phrase_above s :
  no_digitb s = true ->
  match_at true PRICE_RE ("above 50" ++ s) = Some ([("val", (6, 8)); ("op", (0, 5))], 8, s).
Proof. intros H. phrase_match s H. Qed.

Lemma search_from_unfold r i s :
  search_from true r i s =
  match match_at true r s with
  | Some (cs, e, _) => Some (MatchObj i s e cs)
  | None =>
      match s with
      | EmptyString => None
      | String _ s' => search_from true r (S i) s'
      end
  end.
Proof. destruct s; reflexivity. Qed.

Lemma sub_del_skip k : forall a s,
  String.length a = k -> sub_del true PRICE_RE k (a ++ s) = sub_del true PRICE_RE 0 s.
Proof.
  induction k as [|k IH]; intros [|c a] s H; simpl in H; try discriminate.
  - reflexivity.
  - simpl. apply IH. lia.
Qed.

Section PhraseSearch.

Variable word : string.
Variable r : ascii.
Variable d0 : ascii.
Variable num : string.
Variable spans : captures.
Variable n : nat.

Hypothesis word_no_digit : no_digitb word = true.
Hypothesis word_last : last_char word = Some r.
Hypothesis word_length : String.length word = 5.
Hypothesis r_not_junk : is_junk r = false.
Hypothesis r_not_n : lower_char r <> "n"%char.
Hypothesis r_not_t : lower_char r <> "t"%char.
Hypothesis d0_digit : is_digit d0 = true.
Hypothesis phrase_match :
  forall s, no_digitb s = true ->
    match_at true PRICE_RE (word ++ String " " (String d0 (num ++ s))) = Some (spans, S n, s).
Hypothesis phrase_length : String.length word + 2 + String.length num = S n.
Hypothesis num_plain : forall s, no_digitb s = true -> gapped 0 (String d0 (num ++ s)) = false.


Lemma search_range_phrase p s :
  no_digitb p = true -> no_digitb s = true ->
  search true RANGE_RE (p ++ word ++ String " " (String d0 (num ++ s)))%string = None.
Proof.
  intros Hp Hs. apply search_range_not_gapped.
  rewrite (gapped_prefix_no_digit p _ Hp).
  rewrite (gapped_prefix_no_digit word _ word_no_digit).
  change (gapped 0 (String d0 (num ++ s)) = false). apply num_plain. exact Hs.
Qed.

Lemma no_match_in_prefix c p s :
  no_digitb (String c p) = true ->
  match_at true PRICE_RE (String c p ++ word ++ String " " (String d0 (num ++ s)))%string = None.
Proof.
  intros Hp.
  exact (no_match_before word r d0 word_no_digit word_last word_length r_not_junk
                         r_not_n r_not_t d0_digit (String c p) (num ++ s)
                         ltac:(discriminate) Hp).
Qed.

Lemma search_price_phrase p : forall i s,
  no_digitb p = true -> no_digitb s = true ->
  search_from true PRICE_RE i (p ++ word ++ String " " (String d0 (num ++ s)))%string
  = Some (MatchObj (i + String.length p) (word ++ String " " (String d0 (num ++ s))) (S n) spans).
Proof.
  induction p as [|c p IH]; intros i s Hp Hs.
  - cbn [append]. rewrite search_from_unfold.
    rewrite (phrase_match s Hs). rewrite Nat.add_0_r. reflexivity.
  - rewrite search_from_unfold, (no_match_in_prefix c p s Hp).
    simpl in Hp. apply andb_true_iff in Hp. destruct Hp as (_ & Hp).
    cbn [append].
    rewrite (IH (S i) s Hp Hs). simpl. rewrite <- plus_n_Sm. reflexivity.
Qed.

Lemma sub_price_phrase p : forall s,
  no_digitb p = true -> no_digitb s = true ->
  sub_empty true PRICE_RE (p ++ word ++ String " " (String d0 (num ++ s)))%string = (p ++ s)%string.
Proof.
  unfold sub_empty. induction p as [|c p IH]; intros s Hp Hs.
  - pose proof (phrase_match s Hs) as Hm.
    pose proof phrase_length as Hl.
    pose proof word_length as Hw.
    cbn [append].
    revert Hm Hl Hw. generalize word as wd. intros wd Hm Hl Hw.
    destruct wd as [|w0 word']; [discriminate Hw | ].
    cbn [append sub_del] in Hm |- *. rewrite Hm.
    replace (word' ++ String " " (String d0 (num ++ s)))%string
      with ((word' ++ String " " (String d0 num)) ++ s)%string
      by (rewrite string_app_assoc; reflexivity).
    rewrite (sub_del_skip n).
    + apply sub_del_no_digit; [exact matches_price_digit | exact Hs].
    + rewrite string_length_app. simpl in Hl |- *. lia.
  - cbn [sub_del].
    pose proof (no_match_in_prefix c p s Hp) as Hn.
    cbn [append] in Hn |- *. cbn [sub_del]. rewrite Hn.
    simpl in Hp. apply andb_true_iff in Hp. destruct Hp as (_ & Hp).
    rewrite (IH s Hp Hs). reflexivity.
Qed.

End PhraseSearch.

Lemma lstrip_app sp p x :
  match x with String c _ => sp c = false | EmptyString => False end ->
  lstrip_by sp (p ++ x) = (lstrip_by sp p ++ x)%string.
Proof.
  intros Hx. induction p as [|c p IH]; simpl.
  - destruct x as [|a x]; [contradiction | ]. simpl. rewrite Hx. reflexivity.
  - destruct (sp c); [exact IH | reflexivity].
Qed.

Lemma rstrip_app_keep sp a b :
  rstrip_by sp b <> "" -> rstrip_by sp (a ++ b) = (a ++ rstrip_by sp b)%string.
Proof.
  intros Hb. induction a as [|c a IH]; simpl; [reflexivity | ].
  rewrite IH. destruct (a ++ rstrip_by sp b)%string as [|d t] eqn:E; [ | reflexivity ].
  destruct a; simpl in E; [contradiction | discriminate E].
Qed.

Lemma rstrip_app_last sp x c s :
  last_char x = Some c -> sp c = false ->
  rstrip_by sp (x ++ s) = (x ++ rstrip_by sp s)%string.
Proof.
  intros Hl Hc. induction x as [|a x IH]; [discriminate Hl | ].
  destruct x as [|b x].
  - simpl in Hl. injection Hl as ->. simpl.
    destruct (rstrip_by sp s); [rewrite Hc | ]; reflexivity.
  - change (last_char (String b x) = Some c) in Hl. specialize (IH Hl).
    change (rstrip_by sp (String a (String b x ++ s))
            = String a (String b x ++ rstrip_by sp s)).
    cbn [rstrip_by]. rewrite IH. reflexivity.
Qed.

(** Stripping a text whose middle part starts and ends with a character
    that is no space. *)
Lemma strip_around p x s c :
  match x with String a _ => py_isspace a = false | EmptyString => False end ->
  last_char x = Some c -> py_isspace c = false ->
  strip (p ++ x ++ s)
  = (lstrip_by py_isspace p ++ x ++ rstrip_by py_isspace s)%string.
Proof.
  intros Hh Hl Hc. unfold strip.
  rewrite (lstrip_app py_isspace p (x ++ s)).
  - rewrite <- (rstrip_app_last py_isspace x c s Hl Hc).
    apply rstrip_app_keep.
    rewrite (rstrip_app_last py_isspace x c s Hl Hc).
    destruct x; [contradiction | discriminate].
  - destruct x; [contradiction | exact Hh].
Qed.

Lemma parse_no_digit goal :
  no_digitb goal = true -> parse_price_filters goal = (None, None, strip goal).
Proof.
  intros H. apply strip_no_digit in H. unfold parse_price_filters, search.
  rewrite (search_no_digit RANGE_RE _ 0 matches_range_digit H).
  rewrite (search_no_digit PRICE_RE _ 0 matches_price_digit H).
  reflexivity.
Qed.

Lemma parse_under p s :
  no_digitb p = true -> no_digitb s = true ->
  parse_price_filters (p ++ "under 30" ++ s)
  = (None, Some f30, strip (lstrip_by py_isspace p ++ rstrip_by py_isspace s)).
Proof.
  intros Hp Hs.
  apply (lstrip_no_digit py_isspace) in Hp. apply (rstrip_no_digit py_isspace) in Hs.
  unfold parse_price_filters.
  rewrite (strip_around p "under 30" s "0" eq_refl eq_refl eq_refl).
  set (p' := lstrip_by py_isspace p) in *. set (s' := rstrip_by py_isspace s) in *.
  change (p' ++ "under 30" ++ s')%string
    with (p' ++ "under" ++ String " " (String "3" ("0" ++ s')))%string.
  rewrite (search_range_phrase "under" "3" "0" eq_refl
             ltac:(intros t Ht; simpl; apply gapped_no_digit; exact Ht) p' s' Hp Hs).
  unfold search.
  rewrite (search_price_phrase "under" "r" "3" "0" [("val", (6, 8)); ("op", (0, 5))] 7
             eq_refl eq_refl eq_refl eq_refl ltac:(discriminate) ltac:(discriminate)
             eq_refl match_phrase_under p' 0 s' Hp Hs).
  rewrite (sub_price_phrase "under" "r" "3" "0" [("val", (6, 8)); ("op", (0, 5))] 7
             eq_refl eq_refl eq_refl eq_refl ltac:(discriminate) ltac:(discriminate)
             eq_refl match_phrase_under eq_refl p' s' Hp Hs).
  reflexivity.
Qed.

Lemma parse_above p s :
  no_digitb p = true -> no_digitb s = true ->
  parse_price_filters (p ++ "above 50" ++ s)
  = (Some f50, None, strip (lstrip_by py_isspace p ++ rstrip_by py_isspace s)).
Proof.
  intros Hp Hs.
  apply (lstrip_no_digit py_isspace) in Hp. apply (rstrip_no_digit py_isspace) in Hs.
  unfold parse_price_filters.
  rewrite (strip_around p "above 50" s "0" eq_refl eq_refl eq_refl).
  set (p' := lstrip_by py_isspace p) in *. set (s' := rstrip_by py_isspace s) in *.
  change (p' ++ "above 50" ++ s')%string
    with (p' ++ "above" ++ String " " (String "5" ("0" ++ s')))%string.
  rewrite (search_range_phrase "above" "5" "0" eq_refl
             ltac:(intros t Ht; simpl; apply gapped_no_digit; exact Ht) p' s' Hp Hs).
  unfold search.
  rewrite (search_price_phrase "above" "e" "5" "0" [("val", (6, 8)); ("op", (0, 5))] 7
             eq_refl eq_refl eq_refl eq_refl ltac:(discriminate) ltac:(discriminate)
             eq_refl match_phrase_above p' 0 s' Hp Hs).
  rewrite (sub_price_phrase "above" "e" "5" "0" [("val", (6, 8)); ("op", (0, 5))] 7
             eq_refl eq_refl eq_refl eq_refl ltac:(discriminate) ltac:(discriminate)
             eq_refl match_phrase_above eq_refl p' s' Hp Hs).
  reflexivity.
Qed.

(** *** The query without the phrase *)

Lemma lstrip_rstrip sp s : lstrip_by sp (rstrip_by sp s) = rstrip_by sp (lstrip_by sp s).
Proof.
  induction s as [|c s IH]; [reflexivity | ].
  change (lstrip_by sp (String c s)) with (if sp c then lstrip_by sp s else String c s).
  destruct (sp c) eqn:Hc.
  - rewrite <- IH. cbn [rstrip_by].
    destruct (rstrip_by sp s) as [|d t]; [rewrite Hc; reflexivity | ].
    cbn [lstrip_by]. rewrite Hc. reflexivity.
  - cbn [rstrip_by].
    destruct (rstrip_by sp s) as [|d t]; [rewrite Hc | ]; cbn [lstrip_by]; rewrite Hc;
      reflexivity.
Qed.

Lemma rstrip_app_inner sp a s : rstrip_by sp (a ++ rstrip_by sp s) = rstrip_by sp (a ++ s).
Proof.
  induction a as [|c a IH]; simpl; [apply rstrip_idem | rewrite IH; reflexivity].
Qed.

Lemma lstrip_app_empty sp p s : lstrip_by sp p = "" -> lstrip_by sp (p ++ s) = lstrip_by sp s.
Proof.
  induction p as [|c p IH]; simpl; [reflexivity | ].
  destruct (sp c); [exact IH | discriminate].
Qed.

Lemma lstrip_app_some sp p s :
  lstrip_by sp p <> "" -> lstrip_by sp (p ++ s) = (lstrip_by sp p ++ s)%string.
Proof.
  induction p as [|c p IH]; simpl; [congruence | ].
  destruct (sp c); [exact IH | reflexivity].
Qed.

Lemma strip_joined p s :
  strip (lstrip_by py_isspace p ++ rstrip_by py_isspace s) = strip (p ++ s).
Proof.
  unfold strip. destruct (lstrip_by py_isspace p) as [|c t] eqn:E.
  - rewrite (lstrip_app_empty _ p s E). cbn [append].
    rewrite lstrip_rstrip. apply rstrip_idem.
  - rewrite (lstrip_app_some _ p s) by (rewrite E; discriminate). rewrite E.
    pose proof (lstrip_head py_isspace p) as Hh. rewrite E in Hh.
    cbn [append lstrip_by]. rewrite Hh.
    apply (rstrip_app_inner py_isspace (String c t) s).
Qed.

Lemma parse_no_bound goal :
  fst (parse_price_filters goal) = (None, None) ->
  snd (parse_price_filters goal) = strip goal.
Proof.
  unfold parse_price_filters.
  destruct (search true RANGE_RE (strip goal)); [discriminate | ].
  destruct (search true PRICE_RE (strip goal)); [ | reflexivity ].
  destruct (string_in _ lower_ops); [discriminate | ].
  destruct (string_in _ upper_ops); [discriminate | reflexivity].
Qed.







(* ================================================================== *)
(** * Concrete runs of the extractor *)
(* ================================================================== *)

Lemma blocked_page_yields_nothing_witness :
  fst (extract_products Demo.perform "hat" (Demo.start Demo.captcha_page)) = Ok nil.
Proof.
  edestruct (blocked_page_yields_nothing Demo.perform "hat" (Demo.start Demo.captcha_page))
    as [H _].
  - vm_compute. reflexivity.
  - do 3 right. left. reflexivity.
  - vm_compute. reflexivity.
  - exact H.
Defined.




(* ================================================================== *)
(** * Further properties of the code *)
(* ================================================================== *)

(* ---------------------------------------------------------------- *)
(** ** The products the extractor returns *)

#[local] Open Scope list_scope.

Section Yields.

Context {W : Type}.

Lemma yields_ret {A} (Q : A -> Prop) a : Q a -> yields Q (@ret W A a).
Proof. intros H s a' s' E. injection E as <- _. exact H. Qed.

Lemma yields_raise {A} (Q : A -> Prop) e : yields Q (@raise W A e).
Proof. intros s a s' E. discriminate E. Qed.

Lemma yields_bind {A B} (P : A -> Prop) (Q : B -> Prop) (m : M W A) (f : A -> M W B) :
  yields P m -> (forall a, P a -> yields Q (f a)) -> yields Q (bind m f).
Proof.
  intros Hm Hf s b s' E. unfold bind in E.
  destruct (m s) as [[a|e|] s1] eqn:Em; try discriminate E.
  eapply Hf; [eapply Hm; exact Em | exact E].
Qed.

Lemma yields_any {A} (m : M W A) : yields (fun _ => True) m.
Proof. intros s a s' _. exact I. Qed.

Lemma yields_seq {A B} (Q : B -> Prop) (m : M W A) (f : A -> M W B) :
  (forall a, yields Q (f a)) -> yields Q (bind m f).
Proof. intros Hf. eapply yields_bind; [apply yields_any | intros a _; apply Hf]. Qed.

Lemma yields_try_catch {A} (Q : A -> Prop) (m : M W A) (h : exn -> M W A) :
  yields Q m -> (forall e, yields Q (h e)) -> yields Q (try_catch m h).
Proof.
  intros Hm Hh s a s' E. unfold try_catch in E.
  destruct (m s) as [[a1|e|] s1] eqn:Em.
  - injection E as <- <-. eapply Hm. exact Em.
  - eapply Hh. exact E.
  - discriminate E.
Qed.

End Yields.

(** *** What the card scripts build *)

Lemma js_trim_idem s : js_trim (js_trim s) = js_trim s.
Proof.
  unfold js_trim.
  rewrite (lstrip_fixed js_isspace (rstrip_by js_isspace (lstrip_by js_isspace s))).
  - apply rstrip_idem.
  - apply rstrip_head. apply lstrip_head.
Qed.

Lemma absolute_link_http h l : absolute_link h = Some l -> starts_with "http" l = true.
Proof.
  unfold absolute_link. destruct h as [u|]; [ | discriminate ].
  destruct (nonempty u); [ | discriminate ].
  destruct (starts_with "http" u) eqn:E; intros H; injection H as <-; [exact E | reflexivity].
Qed.

Lemma make_product_well_formed t h x sp p :
  (forall t', t = Some t' -> js_trim t' = t') ->
  make_product t (absolute_link h) x sp = Some p -> well_formed p.
Proof.
  intros Ht. unfold make_product.
  destruct t as [t'|]; [ | discriminate ].
  destruct (absolute_link h) as [l|] eqn:El; [ | discriminate ].
  destruct (nonempty t') eqn:Hn; simpl; [ | discriminate ].
  destruct (good_price x) eqn:G; simpl; [ | discriminate ].
  destruct sp; simpl; [discriminate | ].
  intros H. injection H as <-. unfold well_formed. simpl.
  repeat split.
  - exact Hn.
  - apply Ht. reflexivity.
  - eapply absolute_link_http. exact El.
  - apply good_price_pos. exact G.
Qed.

Lemma card_product_well_formed card p : card_product card = Some p -> well_formed p.
Proof.
  unfold card_product, card_link. apply make_product_well_formed.
  unfold card_title. intros t' H.
  destruct (first_of card title_selectors) as [e|]; [ | discriminate H ].
  injection H as <-. apply js_trim_idem.
Qed.

Lemma card_product_fallback_well_formed c p :
  card_product_fallback c = Some p -> well_formed p.
Proof.
  unfold card_product_fallback. apply make_product_well_formed.
  intros t' H. destruct (text_of (c "h2 a span")) as [t|]; [ | discriminate H ].
  destruct (nonempty (js_trim t)); [ | discriminate H ].
  injection H as <-. apply js_trim_idem.
Qed.

Lemma map_filter_Forall {A B} (f : A -> option B) (Q : B -> Prop) l :
  (forall x y, f x = Some y -> Q y) -> Forall Q (map_filter f l).
Proof.
  intros H. apply Forall_forall. intros y Hy. apply map_filter_In in Hy.
  destruct Hy as (x & _ & Hx). eapply H. exact Hx.
Qed.

Lemma listing_nil lo hi : listing lo hi [].
Proof. repeat split; constructor. Qed.

Lemma listing_sorted lo hi ps :
  Forall well_formed ps -> listing lo hi (sort_by_price (filter (keep_product lo hi) ps)).
Proof.
  intros H.
  assert (Hf : Forall well_formed (filter (keep_product lo hi) ps)).
  { apply Forall_forall. intros p Hp. apply filter_In in Hp.
    rewrite Forall_forall in H. apply H. tauto. }
  repeat split.
  - eapply Permutation_Forall; [apply sort_by_price_perm | exact Hf].
  - eapply Permutation_Forall; [apply sort_by_price_perm | ].
    apply Forall_forall. intros p Hp. apply filter_In in Hp. destruct Hp as (_ & Hk).
    unfold keep_product in Hk. apply andb_true_iff in Hk. destruct Hk as (Hk & _).
    apply andb_true_iff in Hk. tauto.
  - apply sort_by_price_sorted. eapply Forall_impl; [ | exact Hf ].
    intros p Hp. apply Hp.
Qed.

Section ExtractorFacts.

Context {W : Type}.
Variable perform : forall A : Type, call A -> W -> reply A * W.

Lemma yields_read_cards lo hi : yields (listing lo hi) (read_cards perform lo hi).
Proof.
  unfold read_cards. apply yields_seq. intros items.
  destruct (is_nil items).
  - apply yields_seq. intros _. apply yields_ret. apply listing_nil.
  - apply yields_seq. intros cards.
    eapply (yields_bind (Forall well_formed)).
    + destruct (is_nil (map_filter card_product cards)).
      * apply yields_seq. intros cards'. apply yields_ret.
        apply map_filter_Forall. exact card_product_fallback_well_formed.
      * apply yields_ret. apply map_filter_Forall. exact card_product_well_formed.
    + intros products Hp.
      destruct (is_nil (filter (keep_product lo hi) products)).
      * apply yields_seq. intros _. apply yields_ret. apply listing_nil.
      * apply yields_ret. apply listing_sorted. exact Hp.
Qed.

Lemma yields_open_search goal :
  yields (fun o => (snd (fst o), snd o) = fst (parse_price_filters goal))
         (open_search perform goal).
Proof.
  intros s [[html lo] hi] s' E. simpl. eapply open_search_bounds. exact E.
Qed.

Lemma yields_extract_products goal :
  yields (fun ps => Forall well_formed ps /\ Forall (in_bound goal) ps
                    /\ StronglySorted cheaper_or_equal ps)
         (extract_products perform goal).
Proof.
  unfold extract_products. apply yields_try_catch.
  - eapply yields_bind; [apply yields_open_search | ].
    intros [[html lo] hi] Hb. simpl in Hb.
    assert (Hl : forall ps, listing lo hi ps ->
                   Forall well_formed ps /\ Forall (in_bound goal) ps
                   /\ StronglySorted cheaper_or_equal ps).
    { intros ps (H1 & H2 & H3). unfold in_bound. rewrite <- Hb. simpl. auto. }
    destruct (blocked html).
    + apply yields_seq. intros _. apply yields_seq. intros _. apply yields_ret.
      apply Hl, listing_nil.
    + intros s ps s' E. apply Hl. eapply yields_read_cards. exact E.
  - intros e. apply yields_seq. intros _. apply yields_ret.
    repeat split; constructor.
Qed.


End ExtractorFacts.


(* ---------------------------------------------------------------- *)
(** ** The result of a run *)

Lemma f_le_not_lt x y :
  pos_finite x -> pos_finite y -> f_le x y = true -> f_lt y x = false.
Proof.
  intros Hx Hy H. apply (f_le_pos x y Hx Hy) in H.
  destruct (f_lt y x) eqn:E; [ | reflexivity ].
  apply (f_lt_pos y x Hy Hx) in E.
  destruct x as [?|?| |[|] mx ex]; try contradiction.
  destruct y as [?|?| |[|] my ey]; try contradiction.
  lia.
Qed.

Lemma min_from_least x l :
  pos_finite (price x) -> Forall (fun p => pos_finite (price p)) l ->
  Forall (cheaper_or_equal x) l -> min_from x l = x.
Proof.
  intros Hx Hl Hle. induction l as [|y l IH]; simpl; [reflexivity | ].
  inversion Hl as [|? ? Hy Hl']; subst. inversion Hle as [|? ? Hxy Hle']; subst.
  rewrite (f_le_not_lt _ _ Hx Hy Hxy). apply IH; assumption.
Qed.

Lemma sorted_cheapest_first ps errs :
  Forall well_formed ps -> StronglySorted cheaper_or_equal ps ->
  cheapest_first (mkResults ps (min_by_price ps) errs).
Proof.
  intros Hw Hs. unfold cheapest_first. simpl.
  destruct ps as [|p ps]; [reflexivity | ].
  inversion Hs as [|? ? Hs' Hle]; subst. inversion Hw as [|? ? Hp Hw']; subst.
  split; [ | exact Hle ].
  simpl. f_equal. apply min_from_least; [apply Hp | | exact Hle].
  eapply Forall_impl; [ | exact Hw' ]. intros q Hq. apply Hq.
Qed.

Section EngineFacts.

Context {W : Type}.
Variable perform : forall A : Type, call A -> W -> reply A * W.

(** The [extract] branch of the dispatch. *)
Lemma run_step_extract goal st results s :
  step_action st = "extract" ->
  run_step perform goal st results s =
  match extract_products perform goal s with
  | (Ok [], s1) => (Raise (PyExc "RuntimeError" "Extraction failed."), s1)
  | (Ok ps, s1) =>
      (Ok (mkResults ps (min_by_price ps) (errors results)),
       mkSession (world s1) (Extracted ps :: trace s1))
  | (Raise e, s1) => (Raise e, s1)
  | (Diverge, s1) => (Diverge, s1)
  end.
Proof.
  intros H. unfold run_step. rewrite H. simpl. unfold bind.
  destruct (extract_products perform goal s) as [[[|p ps]|e|] s1]; reflexivity.
Qed.

(** How a turn of the loop can end. *)
Lemma turn_cases goal llm_fn st results s c s' :
  turn perform goal llm_fn st results s = (Ok c, s') ->
  match c with
  | Advance r => run_step perform goal st results s = (Ok r, s')
  | Restart ns r => r = results /\ ns <> [] /\ llm_fn <> None
  | Break r =>
      (exists e s1, run_step perform goal st results s = (Raise e, s1) /\ llm_fn = None
                    /\ r = add_error results (exn_str e))
      \/ (llm_fn <> None /\ r = add_error results "No steps generated during replan.")
  end.
Proof.
  unfold turn, try_catch, bind. intros E.
  destruct (run_step perform goal st results s) as [[r1|e|] s1] eqn:Est.
  - injection E as <- <-. reflexivity.
  - unfold on_failure in E. destruct llm_fn as [f|].
    + unfold bind in E.
      destruct (extract_mcp_context_payload perform s1) as [[ctx|?|] s2]; try discriminate E.
      destruct (call_llm_fn (Some f) goal ctx s2) as [[plan|?|] s3]; try discriminate E.
      match type of E with
      | (if is_nil ?l then _ else _) _ = _ => destruct l as [|x ns] eqn:El
      end; simpl in E; injection E as <- <-.
      * right. split; [discriminate | reflexivity].
      * repeat split; discriminate.
    + injection E as <- <-. left. exists e, s1. repeat split.
  - discriminate E.
Qed.

(** A property of the result dictionary that every step and every
    recorded error keeps is kept by the loop. *)
Lemma run_loop_invariant (Inv : Results -> Prop) goal llm_fn :
  (forall st r s r' s', Inv r -> run_step perform goal st r s = (Ok r', s') -> Inv r') ->
  (forall r msg, Inv r -> Inv (add_error r msg)) ->
  forall fuel steps step_idx results s r s',
    Inv results ->
    run_loop perform fuel goal llm_fn steps step_idx results s = (Ok r, s') ->
    Inv r.
Proof.
  intros Hstep Herr.
  induction fuel as [|fuel IH]; intros steps step_idx results s r s' Hi E; simpl in E.
  - discriminate E.
  - destruct (nth_error steps step_idx) as [st|].
    + unfold bind in E.
      destruct (turn perform goal llm_fn st results s) as [[c|e|] s1] eqn:Et;
        try discriminate E.
      pose proof (turn_cases goal llm_fn st results s c s1 Et) as Hc.
      destruct c as [r1|ns r1|r1].
      * eapply IH; [ | exact E ]. eapply Hstep; [exact Hi | exact Hc].
      * destruct Hc as (-> & _). eapply IH; [exact Hi | exact E].
      * injection E as <- <-.
        destruct Hc as [(e & s2 & _ & _ & ->) | (_ & ->)]; apply Herr; exact Hi.
    + injection E as <- <-. exact Hi.
Qed.

(** A result of [execute_plan] is a result of its loop. *)
Lemma execute_plan_returns fuel steps goal headless llm_fn s r s' :
  execute_plan perform fuel steps goal headless llm_fn s = (Ok r, s') ->
  exists s1 s2,
    run_loop perform fuel goal llm_fn steps 0 empty_results s1 = (Ok r, s2).
Proof.
  unfold execute_plan, bind, try_finally. intros E.
  destruct (do perform PwStart s) as [[u0|?|] s0]; try discriminate E.
  destruct (setup perform headless s0) as [[u1|?|] s1];
    [ | try (destruct (do perform PwStop _) as [[?|?|] ?]); discriminate E .. ].
  destruct (run_loop perform fuel goal llm_fn steps 0 empty_results s1)
    as [[r1|?|] s2] eqn:El.
  - exists s1, s2. rewrite El.
    destruct (teardown perform s2) as [[u2|?|] s3];
      try (destruct (do perform PwStop _) as [[u3|?|] s4]); try discriminate E.
    injection E as <- _. reflexivity.
  - destruct (teardown perform s2) as [[u2|?|] s3];
      try (destruct (do perform PwStop _) as [[u3|?|] s4]); discriminate E.
  - discriminate E.
Qed.

Lemma run_step_cheapest_first goal st r s r' s' :
  cheapest_first r -> run_step perform goal st r s = (Ok r', s') -> cheapest_first r'.
Proof.
  intros Hi E. destruct (String.eqb_spec (step_action st) "extract") as [Hx|Hx].
  - rewrite (run_step_extract goal st r s Hx) in E.
    destruct (extract_products perform goal s) as [[ps|?|] s1] eqn:Ex; try discriminate E.
    destruct (yields_extract_products perform goal s ps s1 Ex) as (Hw & _ & Hs).
    destruct ps as [|p ps]; [discriminate E | ].
    injection E as <- _. apply sorted_cheapest_first; assumption.
  - pose proof (run_step_effect perform goal st r s) as H. rewrite E in H.
    destruct H as [(_ & -> & _) | (Hx' & _)]; [exact Hi | contradiction].
Qed.

(** X2.  When [execute_plan] returns, the selected product is the first
    entry of [data], and no entry of [data] is cheaper; [selected] is
    missing exactly when [data] is empty. *)
Theorem selected_is_first_of_data fuel steps goal headless llm_fn s r s' :
  execute_plan perform fuel steps goal headless llm_fn s = (Ok r, s') ->
  selected r = hd_error (data r)
  /\ match data r with
     | [] => True
     | p :: ps => Forall (cheaper_or_equal p) ps
     end.
Proof.
  intros E. destruct (execute_plan_returns _ _ _ _ _ _ _ _ E) as (s1 & s2 & El).
  assert (H : cheapest_first r).
  { eapply (run_loop_invariant cheapest_first goal llm_fn); [ | | | exact El ].
    - intros st r0 s0 r' s0'. apply run_step_cheapest_first.
    - intros r0 msg Hr. exact Hr.
    - reflexivity. }
  unfold cheapest_first in H. destruct (data r) as [|p ps]; simpl.
  - split; [exact H | exact I].
  - destruct H as (-> & H). split; [reflexivity | exact H].
Qed.

(** X3.  An [extract] step either stores a list that is not empty or fails
    with [RuntimeError("Extraction failed.")]; whatever went wrong inside
    the extractor, no other exception leaves the step. *)
Theorem extract_step_fails_with_one_message goal st results s :
  step_action st = "extract" ->
  match fst (run_step perform goal st results s) with
  | Ok r => data r <> [] /\ selected r = min_by_price (data r) /\ errors r = errors results
  | Raise e => e = PyExc "RuntimeError" "Extraction failed."
  | Diverge => False
  end.
Proof.
  intros Hx. rewrite (run_step_extract goal st results s Hx).
  destruct (safe_extract_products perform (fun _ => True) (fun _ _ => I) goal s) as (ps & Hps).
  destruct (extract_products perform goal s) as [rr s1]. simpl in Hps. subst rr.
  destruct ps as [|p ps]; simpl; [reflexivity | ].
  repeat split. discriminate.
Qed.

Lemma run_loop_errors goal llm_fn :
  forall fuel steps step_idx results s r s',
    errors results = [] ->
    run_loop perform fuel goal llm_fn steps step_idx results s = (Ok r, s') ->
    errors r = []
    \/ exists msg,
         errors r = [msg]
         /\ (llm_fn <> None -> msg = "No steps generated during replan.")
         /\ (llm_fn = None ->
             exists st e r0 s0 s1,
               In st steps /\ run_step perform goal st r0 s0 = (Raise e, s1)
               /\ msg = exn_str e).
Proof.
  induction fuel as [|fuel IH]; intros steps step_idx results s r s' Hi E; simpl in E.
  - discriminate E.
  - destruct (nth_error steps step_idx) as [st|] eqn:En.
    + unfold bind in E.
      destruct (turn perform goal llm_fn st results s) as [[c|e|] s1] eqn:Et;
        try discriminate E.
      pose proof (turn_cases goal llm_fn st results s c s1 Et) as Hc.
      destruct c as [r1|ns r1|r1].
      * eapply IH; [ | exact E ].
        rewrite (run_step_errors perform goal st results s r1 s1 Hc). exact Hi.
      * destruct Hc as (-> & _ & Hl).
        destruct (IH ns 0 results s1 r s' Hi E) as [H | (msg & H1 & H2 & H3)];
          [left; exact H | right].
        exists msg. split; [exact H1 | split; [exact H2 | ] ].
        intros Hn. contradiction.
      * injection E as <- <-. right.
        destruct Hc as [(e & s2 & Hst & Hl & ->) | (Hl & ->)]; unfold add_error; simpl;
          rewrite Hi; simpl; eexists; (split; [reflexivity | split ]).
        -- intros Hn. contradiction.
        -- intros _. exists st, e, results, s, s2.
           split; [eapply nth_error_In; exact En | split; [exact Hst | reflexivity] ].
        -- intros _. reflexivity.
        -- intros Hn. contradiction.
    + injection E as <- <-. left. exact Hi.
Qed.

(** X4.  A result of [execute_plan] carries at most one error.  With a
    callback configured the only message there can be is the one of an
    empty replan: the message of the step that failed is never
    recorded.  Without a callback the message is the text of the
    exception a step of the plan raised. *)
Theorem at_most_one_error fuel steps goal headless llm_fn s r s' :
  execute_plan perform fuel steps goal headless llm_fn s = (Ok r, s') ->
  errors r = []
  \/ exists msg,
       errors r = [msg]
       /\ (llm_fn <> None -> msg = "No steps generated during replan.")
       /\ (llm_fn = None ->
           exists st e r0 s0 s1,
             In st steps /\ run_step perform goal st r0 s0 = (Raise e, s1)
             /\ msg = exn_str e).
Proof.
  intros E. destruct (execute_plan_returns _ _ _ _ _ _ _ _ E) as (s1 & s2 & El).
  eapply run_loop_errors; [ | exact El ]. reflexivity.
Qed.

End EngineFacts.


(* ---------------------------------------------------------------- *)
(** ** The end of a run *)


Section Teardown.

Context {W : Type}.
Variable perform : forall A : Type, call A -> W -> reply A * W.

(** Once the session is set up, what is left of [execute_plan] is the
    loop inside its two [finally] clauses. *)
Lemma execute_plan_opened fuel steps goal headless llm_fn s :
  fst (bind (do perform PwStart) (fun _ => setup perform headless) s) = Ok tt ->
  execute_plan perform fuel steps goal headless llm_fn s
  = try_finally (try_finally (run_loop perform fuel goal llm_fn steps 0 empty_results)
                             (teardown perform))
                (do perform PwStop) (opened perform headless s).
Proof.
  unfold opened, execute_plan, bind. intros H.
  destruct (do perform PwStart s) as [[[]|?|] s0]; try discriminate H.
  unfold try_finally at 1 3.
  destruct (setup perform headless s0) as [[[]|?|] s1]; try discriminate H.
  reflexivity.
Qed.

(** X5.  Once the session is set up, [context.close()] is called as soon
    as the loop ends, with a result or with an exception.  When it
    returns, [browser.close()] follows; when it throws, [browser.close()]
    is not called and the exception takes the place of the outcome of
    the loop, even of a result. *)
Theorem context_is_closed_when_the_loop_ends fuel steps goal headless llm_fn s :
  fst (bind (do perform PwStart) (fun _ => setup perform headless) s) = Ok tt ->
  fst (run_loop perform fuel goal llm_fn steps 0 empty_results (opened perform headless s))
  <> Diverge ->
  let s2 := snd (run_loop perform fuel goal llm_fn steps 0 empty_results
                          (opened perform headless s)) in
  let out := execute_plan perform fuel steps goal headless llm_fn s in
  match perform unit ContextClose (world s2) with
  | (Returns _, _) =>
      trace (snd out)
      = Called PwStop :: Called BrowserClose :: Called ContextClose :: trace s2
  | (Throws e, w) =>
      trace (snd out) = Called PwStop :: Called ContextClose :: trace s2
      /\ (fst (perform unit PwStop w) = Returns tt -> fst out = Raise e)
  end.
Proof.
  intros Hopen Hend. cbv zeta.
  rewrite (execute_plan_opened fuel steps goal headless llm_fn s Hopen).
  generalize dependent (opened perform headless s). intros s1 Hend.
  unfold try_finally.
  destruct (run_loop perform fuel goal llm_fn steps 0 empty_results s1) as [[r|e0|] s2];
    [ | | contradiction ]; cbn [snd];
    unfold teardown, bind, do;
    destruct (perform unit ContextClose (world s2)) as [[[]|e] w3]; cbn [world trace];
    repeat match goal with
           | |- context [perform unit ?c ?w] =>
               destruct (perform unit c w) as [[[]|?] ?]; cbn [world trace fst snd]
           end;
    try reflexivity;
    (split; [reflexivity | intros H; first [reflexivity | discriminate H] ]).
Qed.

(** X6.  The loop has no limit on replans.  When a step fails in every
    session of some kind and the callback answers every failure with a
    plan that starts with that step, leaving a session of the same kind,
    the loop does not end, whatever the number of turns it is given. *)
Theorem replanning_has_no_limit (Inv : session W -> Prop) goal f st rest :
  (forall results s,
      Inv s ->
      exists e s1 ctx s2 s3,
        run_step perform goal st results s = (Raise e, s1)
        /\ extract_mcp_context_payload perform s1 = (Ok ctx, s2)
        /\ call_llm_fn (Some f) goal ctx s2
           = (Ok (Some (mkPlanObj (Some (st :: rest)))), s3)
        /\ Inv s3) ->
  forall headless s,
    fst (bind (do perform PwStart) (fun _ => setup perform headless) s) = Ok tt ->
    Inv (opened perform headless s) ->
    forall fuel,
      fst (execute_plan perform fuel (st :: rest) goal headless (Some f) s) = Diverge.
Proof.
  intros Hfail.
  assert (Hloop : forall fuel results s,
             Inv s ->
             fst (run_loop perform fuel goal (Some f) (st :: rest) 0 results s) = Diverge).
  { induction fuel as [|fuel IH]; intros results s Hs; [reflexivity | ].
    destruct (Hfail results s Hs) as (e & s1 & ctx & s2 & s3 & Hst & Hctx & Hllm & Hs3).
    rewrite (run_loop_restart perform fuel goal f (st :: rest) 0 st results s e s1 ctx s2
                              st rest s3 eq_refl Hst Hctx Hllm).
    apply IH. exact Hs3. }
  intros headless s Hopen Hinv fuel.
  specialize (Hloop fuel empty_results _ Hinv).
  rewrite (execute_plan_opened fuel (st :: rest) goal headless (Some f) s Hopen).
  unfold try_finally.
  destruct (run_loop perform fuel goal (Some f) (st :: rest) 0 empty_results
                     (opened perform headless s)) as [[r|e0|] s2];
    try discriminate Hloop.
  reflexivity.
Qed.

End Teardown.

Lemma selected_is_first_of_data_witness :
  selected (mkResults [Demo.hat_product; Demo.cap_product] (Some Demo.hat_product) [])
  = hd_error [Demo.hat_product; Demo.cap_product]
  /\ Forall (cheaper_or_equal Demo.hat_product) [Demo.cap_product].
Proof.
  apply (selected_is_first_of_data Demo.perform 5 [Demo.extract] "hat" true None
           (Demo.start (Demo.results_page [[Demo.cap; Demo.hat]]))
           (mkResults [Demo.hat_product; Demo.cap_product] (Some Demo.hat_product) [])
           (snd (execute_plan Demo.perform 5 [Demo.extract] "hat" true None
                   (Demo.start (Demo.results_page [[Demo.cap; Demo.hat]]))))).
  vm_compute. reflexivity.
Defined.

Lemma extract_step_fails_with_one_message_witness :
  match fst (run_step Demo.perform "hat" Demo.extract empty_results
               (Demo.start (Demo.offline []))) with
  | Ok r => data r <> [] /\ selected r = min_by_price (data r) /\ errors r = errors empty_results
  | Raise e => e = PyExc "RuntimeError" "Extraction failed."
  | Diverge => False
  end.
Proof.
  exact (extract_step_fails_with_one_message Demo.perform "hat" Demo.extract empty_results
           (Demo.start (Demo.offline [])) eq_refl).
Defined.

Lemma at_most_one_error_witness :
  errors (mkResults [] None ["No steps generated during replan."]) = []
  \/ exists msg,
       errors (mkResults [] None ["No steps generated during replan."]) = [msg]
       /\ (Some Demo.llm <> None -> msg = "No steps generated during replan.")
       /\ (Some Demo.llm = None ->
           exists st e r0 s0 s1,
             In st [Demo.home] /\ run_step Demo.perform "hat" st r0 s0 = (Raise e, s1)
             /\ msg = exn_str e).
Proof.
  apply (at_most_one_error Demo.perform 5 [Demo.home] "hat" true (Some Demo.llm)
           (Demo.start (Demo.offline [Returns None]))
           (mkResults [] None ["No steps generated during replan."])
           (snd (execute_plan Demo.perform 5 [Demo.home] "hat" true (Some Demo.llm)
                   (Demo.start (Demo.offline [Returns None]))))).
  vm_compute. reflexivity.
Defined.

Lemma context_is_closed_when_the_loop_ends_witness :
  fst (execute_plan Cases.perform_unclosable 5 [Demo.step "scroll" ""] "hat" true None
         (Demo.start (Demo.results_page [])))
  = Raise Cases.close_error.
Proof.
  pose proof (context_is_closed_when_the_loop_ends Cases.perform_unclosable
                5 [Demo.step "scroll" ""] "hat" true None
                (Demo.start (Demo.results_page [])) eq_refl ltac:(vm_compute; discriminate))
    as H.
  cbv zeta in H. apply H. reflexivity.
Defined.

Lemma replanning_has_no_limit_witness :
  fst (execute_plan Demo.perform 1000 [Demo.home] "hat" true (Some Cases.stubborn)
         (Demo.start (Demo.offline [])))
  = Diverge.
Proof.
  apply (replanning_has_no_limit Demo.perform (fun s => world s = Demo.offline [])
           "hat" Cases.stubborn Demo.home []).
  - intros results [w tr] Hw. simpl in Hw. subst w.
    do 5 eexists. repeat split.
  - reflexivity.
  - reflexivity.
Defined.


(* ---------------------------------------------------------------- *)
(** ** The fill and click helpers *)

Section Helpers.

Context {W : Type}.
Variable perform : forall A : Type, call A -> W -> reply A * W.

Lemma try_each_cons (attempt : string -> M W unit) sel rest s :
  try_each attempt (sel :: rest) s =
  match attempt sel s with
  | (Ok _, s') => (Ok true, s')
  | (Raise _, s') => try_each attempt rest s'
  | (Diverge, s') => (Diverge, s')
  end.
Proof.
  simpl. unfold bind, try_catch, ret.
  destruct (attempt sel s) as [[u|e|] s']; reflexivity.
Qed.

Lemma candidates_length sel fallbacks :
  List.length (candidates sel fallbacks) <= S (List.length fallbacks).
Proof. unfold candidates. simpl. apply le_n_S. apply filter_length_le. Qed.

Lemma attempted_nil k wait finish : attempted k wait finish [] false [].
Proof.
  unfold attempted. split; [simpl; lia | split; [reflexivity | split; [discriminate | ] ] ].
  intros _ c [].
Qed.

Lemma attempted_success k wait finish c sels evs :
  List.length evs <= k -> begins_with (wait c) evs -> finish c evs ->
  attempted k wait finish (c :: sels) true evs.
Proof.
  intros Hl Hb Hf. unfold attempted. split; [ | split; [ | split ] ].
  - simpl. lia.
  - exact Hb.
  - intros _. exists c. split; [left; reflexivity | exact Hf].
  - discriminate.
Qed.

Lemma attempted_next k wait finish c sels b evs failed :
  (forall c' l, finish c' l -> finish c' (l ++ failed)) ->
  attempted k wait finish sels b evs ->
  List.length failed <= k -> begins_with (wait c) failed ->
  attempted k wait finish (c :: sels) b (evs ++ failed).
Proof.
  intros Hfin (Hl & _ & Htrue & Hfalse) Hk (later & ->).
  unfold attempted. split; [ | split; [ | split ] ].
  - rewrite List.length_app. simpl. lia.
  - exists (evs ++ later). rewrite app_assoc. reflexivity.
  - intros Hb. destruct (Htrue Hb) as (c' & Hin & Hf).
    exists c'. split; [right; exact Hin | apply Hfin; exact Hf].
  - intros Hb c' [<- | Hin]; apply in_or_app.
    + right. apply in_or_app. right. simpl. tauto.
    + left. apply (Hfalse Hb). exact Hin.
Qed.

Lemma ends_with_app last c l failed : ends_with last c l -> ends_with last c (l ++ failed).
Proof. intros (earlier & ->). exists (earlier ++ failed). reflexivity. Qed.

Lemma try_each_fill v : forall sels s,
  exists b s' evs,
    try_each (fun c => bind (do perform (WaitForSelector c "attached"))
                            (fun _ => bind (do perform (WaitForSelector c "visible"))
                                           (fun _ => do perform (Fill c v))))
             sels s = (Ok b, s')
    /\ trace s' = evs ++ trace s
    /\ attempted 3 (fun c => Called (WaitForSelector c "attached"))
                 (ends_with (fun c => Called (Fill c v))) sels b evs.
Proof.
  induction sels as [|c sels IH]; intros s.
  - exists false, s, []. split; [reflexivity | split; [reflexivity | apply attempted_nil] ].
  - rewrite try_each_cons. unfold bind at 1 2, do at 1 2 3.
    destruct (perform unit (WaitForSelector c "attached") (world s)) as [[[]|e1] w1];
      cbn [world trace].
    + destruct (perform unit (WaitForSelector c "visible") w1) as [[[]|e2] w2];
        cbn [world trace].
      * destruct (perform unit (Fill c v) w2) as [[[]|e3] w3].
        -- eexists true, _, [_; _; _]. split; [reflexivity | split; [reflexivity | ] ].
           apply attempted_success; [simpl; lia | eexists [_; _]; reflexivity | ].
           eexists. reflexivity.
        -- match goal with |- context [try_each _ sels ?s0] =>
             destruct (IH s0) as (b & s' & evs & E & Ht & Ha) end.
           eexists b, s', (evs ++ [_; _; _]).
           rewrite E, Ht, <- app_assoc. split; [reflexivity | split; [reflexivity | ] ].
           apply attempted_next;
             [ intros; apply ends_with_app; assumption | exact Ha | simpl; lia
             | eexists [_; _]; reflexivity ].
      * match goal with |- context [try_each _ sels ?s0] =>
          destruct (IH s0) as (b & s' & evs & E & Ht & Ha) end.
        eexists b, s', (evs ++ [_; _]).
        rewrite E, Ht, <- app_assoc. split; [reflexivity | split; [reflexivity | ] ].
        apply attempted_next;
          [ intros; apply ends_with_app; assumption | exact Ha | simpl; lia
          | eexists [_]; reflexivity ].
    + match goal with |- context [try_each _ sels ?s0] =>
        destruct (IH s0) as (b & s' & evs & E & Ht & Ha) end.
      eexists b, s', (evs ++ [_]).
      rewrite E, Ht, <- app_assoc. split; [reflexivity | split; [reflexivity | ] ].
      apply attempted_next;
        [ intros; apply ends_with_app; assumption | exact Ha | simpl; lia
        | eexists []; reflexivity ].
Qed.

(** X7.  [_fill_with_fallbacks] never raises.  It makes at most nine
    calls, the first of them a wait for the selector of the step; when it
    returns [True] the last call it made is [page.fill] on one of the
    candidates, and when it returns [False] it has waited for every
    candidate. *)
Theorem fill_helper_tries_every_candidate sel v s :
  exists b s' evs,
    _fill_with_fallbacks perform sel v s = (Ok b, s')
    /\ trace s' = evs ++ trace s
    /\ List.length evs <= 9
    /\ begins_with (Called (WaitForSelector sel "attached")) evs
    /\ (b = true ->
        exists c earlier,
          In c (candidates sel SEARCH_INPUTS) /\ evs = Called (Fill c v) :: earlier)
    /\ (b = false ->
        forall c, In c (candidates sel SEARCH_INPUTS) ->
                  In (Called (WaitForSelector c "attached")) evs).
Proof.
  destruct (try_each_fill v (candidates sel SEARCH_INPUTS) s)
    as (b & s' & evs & E & Ht & Hl & Hfirst & Htrue & Hfalse).
  exists b, s', evs. split; [exact E | ]. split; [exact Ht | ].
  split; [ | split; [exact Hfirst | split; [ | exact Hfalse ] ] ].
  - pose proof (candidates_length sel SEARCH_INPUTS) as Hc.
    assert (Hn : List.length SEARCH_INPUTS = 2) by reflexivity. lia.
  - intros Hb. destruct (Htrue Hb) as (c & Hin & earlier & ->).
    exists c, earlier. split; [exact Hin | reflexivity].
Qed.

Lemma try_each_click : forall sels s,
  exists b s' evs,
    try_each (fun c => bind (do perform (WaitForSelector c "visible"))
                            (fun _ => do perform (Click c)))
             sels s = (Ok b, s')
    /\ trace s' = evs ++ trace s
    /\ attempted 2 (fun c => Called (WaitForSelector c "visible"))
                 (ends_with (fun c => Called (Click c))) sels b evs.
Proof.
  induction sels as [|c sels IH]; intros s.
  - exists false, s, []. split; [reflexivity | split; [reflexivity | apply attempted_nil] ].
  - rewrite try_each_cons. unfold bind at 1, do at 1 2.
    destruct (perform unit (WaitForSelector c "visible") (world s)) as [[[]|e1] w1];
      cbn [world trace].
    + destruct (perform unit (Click c) w1) as [[[]|e3] w3].
      * eexists true, _, [_; _]. split; [reflexivity | split; [reflexivity | ] ].
        apply attempted_success; [simpl; lia | eexists [_]; reflexivity | ].
        eexists. reflexivity.
      * match goal with |- context [try_each _ sels ?s0] =>
          destruct (IH s0) as (b & s' & evs & E & Ht & Ha) end.
        eexists b, s', (evs ++ [_; _]).
        rewrite E, Ht, <- app_assoc. split; [reflexivity | split; [reflexivity | ] ].
        apply attempted_next;
          [ intros; apply ends_with_app; assumption | exact Ha | simpl; lia
          | eexists [_]; reflexivity ].
    + match goal with |- context [try_each _ sels ?s0] =>
        destruct (IH s0) as (b & s' & evs & E & Ht & Ha) end.
      eexists b, s', (evs ++ [_]).
      rewrite E, Ht, <- app_assoc. split; [reflexivity | split; [reflexivity | ] ].
      apply attempted_next;
        [ intros; apply ends_with_app; assumption | exact Ha | simpl; lia
        | eexists []; reflexivity ].
Qed.

Lemma try_each_enter : forall sels s,
  exists b s' evs,
    try_each (fun si => bind (do perform (WaitForSelector si "visible"))
                             (fun _ => bind (do perform (Focus si))
                                            (fun _ => do perform (KeyboardPress "Enter"))))
             sels s = (Ok b, s')
    /\ trace s' = evs ++ trace s
    /\ attempted 3 (fun c => Called (WaitForSelector c "visible")) enter_pressed sels b evs.
Proof.
  assert (Happ : forall c l failed, enter_pressed c l -> enter_pressed c (l ++ failed)).
  { intros c l failed (earlier & ->). exists (earlier ++ failed). reflexivity. }
  induction sels as [|c sels IH]; intros s.
  - exists false, s, []. split; [reflexivity | split; [reflexivity | apply attempted_nil] ].
  - rewrite try_each_cons. unfold bind at 1 2, do at 1 2 3.
    destruct (perform unit (WaitForSelector c "visible") (world s)) as [[[]|e1] w1];
      cbn [world trace].
    + destruct (perform unit (Focus c) w1) as [[[]|e2] w2];
        cbn [world trace].
      * destruct (perform unit (KeyboardPress "Enter") w2) as [[[]|e3] w3].
        -- eexists true, _, [_; _; _]. split; [reflexivity | split; [reflexivity | ] ].
           apply attempted_success; [simpl; lia | eexists [_; _]; reflexivity | ].
           eexists. reflexivity.
        -- match goal with |- context [try_each _ sels ?s0] =>
             destruct (IH s0) as (b & s' & evs & E & Ht & Ha) end.
           eexists b, s', (evs ++ [_; _; _]).
           rewrite E, Ht, <- app_assoc. split; [reflexivity | split; [reflexivity | ] ].
           apply attempted_next;
             [ intros; apply Happ; assumption | exact Ha | simpl; lia | eexists [_; _]; reflexivity ].
      * match goal with |- context [try_each _ sels ?s0] =>
          destruct (IH s0) as (b & s' & evs & E & Ht & Ha) end.
        eexists b, s', (evs ++ [_; _]).
        rewrite E, Ht, <- app_assoc. split; [reflexivity | split; [reflexivity | ] ].
        apply attempted_next;
          [ intros; apply Happ; assumption | exact Ha | simpl; lia | eexists [_]; reflexivity ].
    + match goal with |- context [try_each _ sels ?s0] =>
        destruct (IH s0) as (b & s' & evs & E & Ht & Ha) end.
      eexists b, s', (evs ++ [_]).
      rewrite E, Ht, <- app_assoc. split; [reflexivity | split; [reflexivity | ] ].
      apply attempted_next;
        [ intros; apply Happ; assumption | exact Ha | simpl; lia | eexists []; reflexivity ].
Qed.

(** X8.  [_click_with_fallbacks] never raises.  It makes at most fourteen
    calls, the first of them a wait for the selector of the step.  When
    it returns [True], the last thing it did is a click on one of the
    candidates or Enter pressed in a search box it had given the focus;
    when it returns [False], it has waited for every candidate and for
    every search box. *)
Theorem click_helper_tries_every_candidate sel s :
  exists b s' evs,
    _click_with_fallbacks perform sel s = (Ok b, s')
    /\ trace s' = evs ++ trace s
    /\ List.length evs <= 14
    /\ begins_with (Called (WaitForSelector sel "visible")) evs
    /\ (b = true ->
        (exists c earlier,
            In c (candidates sel SEARCH_SUBMITS) /\ evs = Called (Click c) :: earlier)
        \/ (exists si earlier,
               In si SEARCH_INPUTS
               /\ evs = Called (KeyboardPress "Enter") :: Called (Focus si) :: earlier))
    /\ (b = false ->
        forall c, In c (candidates sel SEARCH_SUBMITS ++ SEARCH_INPUTS) ->
                  In (Called (WaitForSelector c "visible")) evs).
Proof.
  unfold _click_with_fallbacks, bind at 1.
  destruct (try_each_click (candidates sel SEARCH_SUBMITS) s)
    as (b & s1 & evs & E & Ht & Hl & Hfirst & Htrue & Hfalse).
  rewrite E.
  pose proof (candidates_length sel SEARCH_SUBMITS) as Hc.
  assert (Hn : List.length SEARCH_SUBMITS = 3) by reflexivity.
  destruct b.
  - exists true, s1, evs. split; [reflexivity | ]. split; [exact Ht | ].
    split; [lia | ]. split; [exact Hfirst | ]. split; [ | discriminate ].
    intros _. left. destruct (Htrue eq_refl) as (c & Hin & earlier & ->).
    exists c, earlier. split; [exact Hin | reflexivity].
  - destruct (try_each_enter SEARCH_INPUTS s1)
      as (b & s2 & evs2 & E2 & Ht2 & Hl2 & _ & Htrue2 & Hfalse2).
    exists b, s2, (evs2 ++ evs). split; [exact E2 | ].
    split; [rewrite Ht2, Ht, app_assoc; reflexivity | ].
    split; [rewrite List.length_app;
            assert (Hn2 : List.length SEARCH_INPUTS = 2) by reflexivity; lia | ].
    split; [ | split ].
    + destruct Hfirst as (later & ->). exists (evs2 ++ later).
      rewrite app_assoc. reflexivity.
    + intros Hb. right. destruct (Htrue2 Hb) as (si & Hin & earlier & ->).
      exists si, (earlier ++ evs). split; [exact Hin | reflexivity].
    + intros Hb c Hin. apply in_or_app. apply in_app_or in Hin.
      destruct Hin as [Hin | Hin]; [right; apply (Hfalse eq_refl); exact Hin | ].
      left. apply (Hfalse2 Hb). exact Hin.
Qed.

End Helpers.

(* ---------------------------------------------------------------- *)
(** ** The card scripts and the block markers *)

(** *** The price a text denotes *)

Lemma filter_str_app p a b :
  filter_str p (a ++ b)%string = (filter_str p a ++ filter_str p b)%string.
Proof.
  induction a as [|c a IH]; simpl; [reflexivity | ].
  destruct (p c); simpl; rewrite IH; reflexivity.
Qed.

Lemma before_dash_app_dash x y : before_dash (x ++ String "-" y)%string = before_dash x.
Proof.
  induction x as [|c x IH]; cbn [append before_dash]; [reflexivity | ].
  destruct (Ascii.eqb c "-"); [reflexivity | rewrite IH; reflexivity].
Qed.

Lemma before_dash_comma x y :
  filter_str (fun c => negb (Ascii.eqb c ",")) (before_dash (x ++ String "," y)%string)
  = filter_str (fun c => negb (Ascii.eqb c ",")) (before_dash (x ++ y)%string).
Proof.
  induction x as [|c x IH]; cbn [append before_dash]; [reflexivity | ].
  destruct (Ascii.eqb c "-"); [reflexivity | ].
  cbn [filter_str]. rewrite IH. reflexivity.
Qed.

Lemma money_some s : money (Some s) = js_parseFloat (price_digits s).
Proof. destruct s; reflexivity. Qed.

Lemma binary_round_aux_sign m e l :
  not_negative (binary_round_aux prec emax false m e l).
Proof.
  unfold binary_round_aux.
  destruct (shr_fexp prec emax m e l) as [mrs' e'].
  destruct (shr_fexp prec emax _ e' loc_Exact) as [mrs'' e''].
  destruct (shr_m mrs''); simpl; [reflexivity | | exact I].
  match goal with |- context [if ?b then _ else _] => destruct b end; reflexivity.
Qed.

Lemma float_of_ratio_sign n d : not_negative (float_of_ratio n d).
Proof.
  destruct n as [|p], d as [|q]; try reflexivity.
  unfold float_of_ratio, SFdiv.
  destruct (SFdiv_core_binary prec emax (Z.pos p) 0 (Z.pos q) 0) as [[mz ez] lz].
  apply binary_round_aux_sign.
Qed.

Lemma js_parseFloat_sign s : not_negative (js_parseFloat s).
Proof.
  unfold js_parseFloat. destruct (take_digits s) as [ip r].
  match goal with |- context [if ?b then _ else _] => destruct b end;
    [apply float_of_ratio_sign | exact I].
Qed.

(** X9.  What [money] makes of a price text.  Of a range written with a
    hyphen it reads the lower end; an en dash is dropped with every
    other character that is no digit, dot, comma or hyphen before the
    range is split, so the digits on its two sides run together; commas
    are ignored; and the number read is never below zero (a text that
    starts with a hyphen denotes no number). *)
Theorem money_reads_the_lower_end a b :
  money (Some (a ++ "-" ++ b)%string) = money (Some a)
  /\ money (Some (a ++ "–" ++ b)%string) = money (Some (a ++ b)%string)
  /\ money (Some (a ++ "," ++ b)%string) = money (Some (a ++ b)%string)
  /\ money (Some ("-" ++ b)%string) = f_nan
  /\ not_negative (money (Some a)).
Proof.
  rewrite !money_some. unfold price_digits. repeat split.
  - rewrite !filter_str_app.
    change (filter_str keep_price_char "-") with "-".
    cbn [append]. rewrite before_dash_app_dash. reflexivity.
  - rewrite !filter_str_app.
    change (filter_str keep_price_char "–") with "". reflexivity.
  - rewrite !filter_str_app.
    change (filter_str keep_price_char ",") with ",".
    cbn [append]. apply f_equal. apply before_dash_comma.
  - apply js_parseFloat_sign.
Qed.

(** *** The markers of a block page *)

Lemma lower_char_not_upper c : is_upper (lower_char c) = false.
Proof. destruct c as [[] [] [] [] [] [] [] []]; vm_compute; reflexivity. Qed.

Lemma lower_no_upper s : all_chars (fun c => negb (is_upper c)) (lower s) = true.
Proof.
  induction s as [|c s IH]; simpl; [reflexivity | ].
  rewrite lower_char_not_upper, IH. reflexivity.
Qed.

(** X10.  The marker [/errors/validateCaptcha] is never found as such: the
    markup is lower-cased before the test and the marker has a capital
    letter.  Whether a page counts as blocked is decided by the three
    other markers (a page with that marker is caught by [captcha]). *)
Theorem mixed_case_marker_never_matches html :
  contains "/errors/validateCaptcha" (lower html) = false
  /\ blocked html
     = existsb (fun b => contains b (lower html))
               ["captcha"; "robot check"; "enter the characters you see"].
Proof.
  assert (H : contains "/errors/validateCaptcha" (lower html) = false).
  { destruct (contains "/errors/validateCaptcha" (lower html)) eqn:E; [ | reflexivity ].
    apply contains_iff in E. destruct E as (pre & post & E).
    pose proof (lower_no_upper html) as Hl. rewrite E in Hl.
    rewrite !all_chars_app in Hl.
    apply andb_true_iff in Hl. destruct Hl as (_ & Hl).
    apply andb_true_iff in Hl. destruct Hl as (Hl & _).
    discriminate Hl. }
  split; [exact H | ].
  unfold blocked, block_markers. cbn [existsb]. rewrite H, !orb_false_r. reflexivity.
Qed.

(** *** The two card scripts *)

(** X11.  On a card of the usual layout (the title under [h2 a span], the
    link under [h2 a[href]], a price text under [.a-price .a-offscreen])
    the fallback script and the main script give the same answer. *)
Theorem card_scripts_agree_on_usual_layout (card : Card) t l p :
  card "h2 a span" = Some t ->
  card "h2 a[href]" = Some l ->
  card ".a-price .a-offscreen" = Some p ->
  nonempty (textContent p) = true ->
  card_product_fallback card = card_product card.
Proof.
  intros Ht Hl Hp Hn.
  unfold card_product, card_product_fallback, card_title, card_link, card_price_text,
    text_of, first_of, title_selectors, link_selectors, offscreen_selectors.
  cbn [fold_right]. rewrite Ht, Hl, Hp. cbn [option_map truthy]. rewrite Hn.
  cbn [truthy]. rewrite Hn.
  assert (Hlink : absolute_link (if truthy (href l) then href l else None)
                  = absolute_link (href l)).
  { destruct (href l) as [[|c u]|]; reflexivity. }
  rewrite Hlink.
  destruct (nonempty (js_trim (textContent t))) eqn:E; [reflexivity | ].
  unfold make_product. rewrite E.
  destruct (absolute_link (href l)); reflexivity.
Qed.

Lemma card_scripts_agree_on_usual_layout_witness :
  card_product_fallback Demo.hat = card_product Demo.hat.
Proof.
  apply (card_scripts_agree_on_usual_layout Demo.hat
           (mkElem "Hat" None) (mkElem "" (Some "/dp/B01")) (mkElem "$12.99" None));
    reflexivity.
Defined.


(* ---------------------------------------------------------------- *)
(** ** The page snapshot and the paths of the extractor *)

Lemma take_length n : forall s, String.length (take n s) <= n.
Proof.
  induction n as [|n IH]; intros [|c s]; simpl; try lia.
  specialize (IH s). lia.
Qed.

Lemma take_lstripped sp n s : lstrip_by sp s = s -> lstrip_by sp (take n s) = take n s.
Proof.
  destruct n as [|n], s as [|c s]; simpl; try reflexivity.
  destruct (sp c) eqn:E; [ | reflexivity ].
  intros H. exfalso.
  pose proof (lstrip_head sp s) as Hh. rewrite H in Hh. simpl in Hh. congruence.
Qed.

Lemma strip_lstripped s : lstrip_by py_isspace (strip s) = strip s.
Proof.
  unfold strip. apply lstrip_fixed. apply rstrip_head. apply lstrip_head.
Qed.

Lemma str_or_nonempty o d : d <> EmptyString -> str_or o d <> EmptyString.
Proof.
  intros Hd. unfold str_or. destruct o as [[|c s]|]; simpl; try exact Hd. discriminate.
Qed.

Section Snapshot.

Context {W : Type}.
Variable perform : forall A : Type, call A -> W -> reply A * W.

Lemma yields_sample_element el :
  yields (fun o => forall x, o = Some x -> sample_ok x) (sample_element perform el).
Proof.
  unfold sample_element. apply yields_try_catch.
  - apply yields_seq. intros tag. apply yields_seq. intros role.
    apply yields_seq. intros aria. apply yields_seq. intros visible.
    apply yields_seq. intros txt.
    match goal with |- yields _ (if ?b then _ else _) => destruct b end;
      apply yields_ret; intros x H; [ | discriminate H ].
    assert (Hx : x = mkSample tag (str_or role "none") aria (take 80 (strip txt)))
      by congruence.
    rewrite Hx. unfold sample_ok. cbn [s_text s_role]. split; [ | split ].
    + apply take_length.
    + apply take_lstripped. apply strip_lstripped.
    + apply str_or_nonempty. discriminate.
  - intros e. apply yields_ret. discriminate.
Qed.

Lemma yields_weaken {A} (P Q : A -> Prop) (m : M W A) :
  (forall a, P a -> Q a) -> yields P m -> yields Q m.
Proof. intros H Hm s a s' E. apply H. eapply Hm. exact E. Qed.

Lemma yields_sample_elements els : forall acc,
  Forall sample_ok acc ->
  yields (fun l => Forall sample_ok l /\ List.length l <= List.length acc + List.length els)
         (sample_elements perform els acc).
Proof.
  induction els as [|el els IH]; intros acc Hacc; simpl.
  - apply yields_ret. split; [exact Hacc | lia].
  - eapply yields_bind; [apply yields_sample_element | ].
    intros o Ho. destruct o as [x|].
    + eapply yields_weaken; [ | apply IH ].
      * intros l (Hl & Hn). split; [exact Hl | ].
        rewrite List.length_app in Hn. simpl in Hn. lia.
      * apply Forall_app. split; [exact Hacc | ].
        constructor; [apply Ho; reflexivity | constructor].
    + eapply yields_weaken; [ | apply IH; exact Hacc ].
      intros l (Hl & Hn). split; [exact Hl | lia].
Qed.

Lemma yields_context_payload : yields snapshot_ok (extract_mcp_context_payload perform).
Proof.
  unfold extract_mcp_context_payload.
  assert (Hempty : forall t u, snapshot_ok (mkContext (Some t) (Some u) [])).
  { intros t u. unfold snapshot_ok. simpl.
    repeat split; try constructor; try discriminate; lia. }
  apply yields_try_catch.
  - apply yields_seq. intros t. apply yields_seq. intros u.
    apply yields_try_catch.
    + apply yields_seq. intros elements.
      eapply yields_bind; [apply (yields_sample_elements _ []); constructor | ].
      intros samples (Hs & Hn). apply yields_ret.
      unfold snapshot_ok. simpl. split; [ | split; [exact Hs | split ] ].
      * pose proof (firstn_le_length 100 elements). cbn [List.length] in Hn. lia.
      * split; discriminate.
      * discriminate.
    + intros e. apply yields_ret. apply Hempty.
  - intros e. apply yields_ret. unfold snapshot_ok. simpl.
    repeat split; try constructor; lia.
Qed.

(** X12.  The context snapshot never raises.  It holds at most 100
    samples; the text of a sample has at most 80 characters and no white
    space in front, its role is never empty; title and URL are there
    together or not at all, and without them there is no sample. *)
Theorem snapshot_is_total_and_bounded s :
  exists ctx,
    fst (extract_mcp_context_payload perform s) = Ok ctx
    /\ List.length (element_samples ctx) <= 100
    /\ Forall sample_ok (element_samples ctx)
    /\ (ctx_title ctx = None <-> ctx_url ctx = None)
    /\ (ctx_title ctx = None -> element_samples ctx = []).
Proof.
  destruct (safe_context_payload perform (fun _ => True) (fun _ _ => I) s) as (ctx & Hc).
  exists ctx. split; [exact Hc | ].
  apply (yields_context_payload s ctx (snd (extract_mcp_context_payload perform s))).
  apply pair_fst_snd. exact Hc.
Qed.

End Snapshot.

Section ExtractorPaths.

Context {W : Type}.
Variable perform : forall A : Type, call A -> W -> reply A * W.

Lemma emits_find_items_no_eval : emits not_eval (find_items perform).
Proof.
  unfold find_items. repeat emits_step ltac:(reflexivity).
  - apply emits_for_each. intros sel. apply emits_swallow.
    repeat emits_step ltac:(reflexivity).
  - apply emits_repeat_m. repeat emits_step ltac:(reflexivity).
  - generalize 5. intros n. induction n as [|n IH]; simpl;
      repeat emits_step ltac:(reflexivity). exact IH.
Qed.

(** X13.  A results page without product containers.  When the page is
    reached, shows no block marker and none of the polls finds a product
    container, [extract_products] returns the empty list without
    evaluating a card script; and when the markup can then be read,
    written and photographed, these three calls are all that follows the
    last poll. *)
Theorem page_without_cards_yields_nothing goal s html lo hi s1 s2 :
  open_search perform goal s = (Ok (html, lo, hi), s1) ->
  blocked html = false ->
  find_items perform s1 = (Ok [], s2) ->
  fst (extract_products perform goal s) = Ok []
  /\ (exists evs,
        trace (snd (extract_products perform goal s)) = (evs ++ trace s)%list
        /\ Forall not_eval evs)
  /\ (forall html' w1 w2 w3,
        perform string Content (world s2) = (Returns html', w1) ->
        perform unit (WriteFile debug_html_path html') w1 = (Returns tt, w2) ->
        perform unit (Screenshot "debug_no_cards.png") w2 = (Returns tt, w3) ->
        snd (extract_products perform goal s)
        = mkSession w3 (Called (Screenshot "debug_no_cards.png")
                          :: Called (WriteFile debug_html_path html')
                          :: Called Content :: trace s2)).
Proof.
  intros Hopen Hnb Hitems.
  assert (E : extract_products perform goal s =
              match save_page perform "debug_no_cards.png" s2 with
              | (Ok _, s3) => (Ok [], s3)
              | (Raise _, s3) =>
                  bind (swallow (save_page perform "debug_exception.png"))
                       (fun _ => ret []) s3
              | (Diverge, s3) => (Diverge, s3)
              end).
  { unfold extract_products, try_catch, bind at 1. rewrite Hopen, Hnb.
    unfold read_cards, bind at 1. rewrite Hitems. cbn [is_nil]. unfold bind at 1.
    destruct (save_page perform "debug_no_cards.png" s2) as [[[]|e|] s3]; reflexivity. }
  destruct (emits_open_search_no_eval perform goal s) as (ev0 & Ht0 & Hf0 & _).
  rewrite Hopen in Ht0. simpl in Ht0.
  destruct (emits_find_items_no_eval s1) as (ev1 & Ht1 & Hf1 & _).
  rewrite Hitems in Ht1. simpl in Ht1.
  destruct (emits_save_page_no_eval perform "debug_no_cards.png" s2)
    as (ev2 & Ht2 & Hf2 & Hd2).
  rewrite E. split; [ | split ].
  - destruct (save_page perform "debug_no_cards.png" s2) as [[[]|e|] s3]; simpl in *.
    + reflexivity.
    + apply extract_handler_empty.
    + congruence.
  - destruct (save_page perform "debug_no_cards.png" s2) as [[[]|e|] s3]; simpl in *.
    + exists (ev2 ++ ev1 ++ ev0). rewrite Ht2, Ht1, Ht0, <- !app_assoc.
      split; [reflexivity | ]. repeat (apply Forall_app; split); assumption.
    + destruct (extract_handler_trace perform s3) as (ev3 & Ht3 & Hf3).
      exists (ev3 ++ ev2 ++ ev1 ++ ev0). rewrite Ht3, Ht2, Ht1, Ht0, <- !app_assoc.
      split; [reflexivity | ]. repeat (apply Forall_app; split); assumption.
    + congruence.
  - intros html' w1 w2 w3 H1 H2 H3. unfold save_page, bind, do.
    rewrite H1. cbn [world trace]. rewrite H2. cbn [world trace]. rewrite H3. reflexivity.
Qed.

(** X14.  The fallback layout is consulted exactly when the main card
    query yields no product.  When the main query yields a product that
    passes the filter, it is the last call of the extraction; when it
    yields none, the cards of the fallback query are read with the
    fallback script, filtered and sorted in the same way. *)
Theorem fallback_layout_only_when_main_is_empty goal s html lo hi s1 items s2 cards s3 :
  open_search perform goal s = (Ok (html, lo, hi), s1) ->
  blocked html = false ->
  find_items perform s1 = (Ok items, s2) ->
  items <> [] ->
  do perform (EvalOnSelectorAll cards_selector) s2 = (Ok cards, s3) ->
  (filter (keep_product lo hi) (map_filter card_product cards) <> [] ->
   snd (extract_products perform goal s) = s3)
  /\ (map_filter card_product cards = [] ->
      forall cards' s4,
        do perform (EvalOnSelectorAll fallback_cards_selector) s3 = (Ok cards', s4) ->
        fst (extract_products perform goal s)
        = Ok (sort_by_price
                (filter (keep_product lo hi) (map_filter card_product_fallback cards')))
        /\ (filter (keep_product lo hi) (map_filter card_product_fallback cards') <> [] ->
            snd (extract_products perform goal s) = s4)).
Proof.
  intros Hopen Hnb Hitems Hne Heval.
  assert (E : extract_products perform goal s =
              try_catch
                (bind (if is_nil (map_filter card_product cards)
                       then bind (do perform (EvalOnSelectorAll fallback_cards_selector))
                                 (fun cards' => ret (map_filter card_product_fallback cards'))
                       else ret (map_filter card_product cards))
                      (fun products =>
                         if is_nil (filter (keep_product lo hi) products)
                         then bind (save_page perform "debug_no_products.png")
                                   (fun _ => ret [])
                         else ret (sort_by_price (filter (keep_product lo hi) products))))
                (fun _ => bind (swallow (save_page perform "debug_exception.png"))
                               (fun _ => ret []))
                s3).
  { unfold extract_products, try_catch, bind at 1. rewrite Hopen, Hnb.
    unfold read_cards, bind at 1. rewrite Hitems.
    destruct items as [|i items]; [contradiction | ]. cbn [is_nil].
    unfold bind at 1. rewrite Heval. reflexivity. }
  rewrite E. split.
  - intros Hsome.
    destruct (map_filter card_product cards) as [|p0 ps0] eqn:Emf; [contradiction | ].
    unfold try_catch, bind, ret. cbn [is_nil].
    destruct (filter (keep_product lo hi) (p0 :: ps0)); [contradiction | reflexivity].
  - intros Hnone cards' s4 Hfb. rewrite Hnone. cbn [is_nil].
    assert (E2 : forall (k : list Product -> M W (list Product)) h,
               try_catch
                 (bind (bind (do perform (EvalOnSelectorAll fallback_cards_selector))
                             (fun cards' => ret (map_filter card_product_fallback cards')))
                       k) h s3
               = try_catch (k (map_filter card_product_fallback cards')) h s4).
    { intros k h. unfold try_catch, bind. rewrite Hfb. reflexivity. }
    rewrite E2.
    destruct (filter (keep_product lo hi) (map_filter card_product_fallback cards'))
      as [|q qs]; cbn [is_nil].
    + split; [ | intros H; contradiction ].
      unfold try_catch, bind at 1.
      pose proof (emits_save_page_no_eval perform "debug_no_products.png" s4)
        as (evs & _ & _ & Hd).
      destruct (save_page perform "debug_no_products.png" s4) as [[u|e|] s5]; simpl in *.
      * reflexivity.
      * apply extract_handler_empty.
      * congruence.
    + split; [reflexivity | intros _; reflexivity].
Qed.

End ExtractorPaths.


Lemma page_without_cards_yields_nothing_witness :
  fst (extract_products Demo.perform "hat" (Demo.start Pages.bare_page)) = Ok [].
Proof.
  eapply proj1.
  eapply (page_without_cards_yields_nothing Demo.perform "hat"
            (Demo.start Pages.bare_page)).
  - vm_compute. reflexivity.
  - vm_compute. reflexivity.
  - vm_compute. reflexivity.
Defined.

Lemma fallback_layout_only_when_main_is_empty_witness :
  fst (extract_products Demo.perform "hat" (Demo.start Pages.fallback_page))
  = Ok [Demo.hat_product].
Proof.
  eapply eq_trans.
  - eapply (proj1 (proj2 (fallback_layout_only_when_main_is_empty Demo.perform "hat"
                            (Demo.start Pages.fallback_page) _ _ _ _ [0] _ [] _
                            _ _ _ _ _) eq_refl _ _ _)).
    Unshelve.
    all: try (vm_compute; reflexivity).
    discriminate.
  - vm_compute. reflexivity.
Defined.


(* ---------------------------------------------------------------- *)
(** ** The price parser *)

#[local] Open Scope string_scope.


(** *** Lower case commutes with the parser *)

Lemma lower_char_class c :
  lower_char (lower_char c) = lower_char c
  /\ py_isspace (lower_char c) = py_isspace c
  /\ Ascii.eqb (lower_char c) "." = Ascii.eqb c ".".
Proof. destruct c as [[] [] [] [] [] [] [] []]; vm_compute; repeat split. Qed.

Lemma lower_idem s : lower (lower s) = lower s.
Proof.
  induction s as [|c s IH]; simpl; [reflexivity | ].
  rewrite IH, (proj1 (lower_char_class c)). reflexivity.
Qed.

Lemma memb_lower c ms : memb true (lower_char c) ms = memb true c ms.
Proof.
  induction ms as [|m ms IH]; simpl; [reflexivity | ].
  unfold chr_eq. rewrite IH, (proj1 (lower_char_class c)). reflexivity.
Qed.

Lemma cset_mem_lower cs c : cset_mem true cs (lower_char c) = cset_mem true cs c.
Proof.
  destruct cs; simpl.
  - apply lower_char_facts.
  - apply lower_char_class.
  - apply memb_lower.
Qed.

Lemma rep_lower {R R'} (g : R -> R') cs :
  forall s lo hi pos (k : string -> nat -> option R) (k' : string -> nat -> option R'),
    (forall s' p, k' (lower s') p = option_map g (k s' p)) ->
    rep true cs lo hi (lower s) pos k' = option_map g (rep true cs lo hi s pos k).
Proof.
  induction s as [|c s IH]; intros lo hi pos k k' Hk; simpl.
  - destruct lo; [apply (Hk "") | reflexivity].
  - rewrite cset_mem_lower.
    rewrite (IH (pred lo) (option_map pred hi) (S pos) k k' Hk).
    pose proof (Hk (String c s) pos) as Hk0. simpl in Hk0. rewrite Hk0.
    destruct (cset_mem true cs c && more hi); [ | destruct lo; reflexivity ].
    destruct (rep true cs (pred lo) (option_map pred hi) s (S pos) k); simpl;
      [reflexivity | destruct lo; reflexivity].
Qed.

Lemma exec_lower {R R'} (g : R -> R') r :
  forall s pos cs (k : string -> nat -> captures -> option R)
         (k' : string -> nat -> captures -> option R'),
    (forall s' p c, k' (lower s') p c = option_map g (k s' p c)) ->
    exec true r (lower s) pos cs k' = option_map g (exec true r s pos cs k).
Proof.
  induction r as [ | c | r1 IH1 r2 IH2 | r1 IH1 r2 IH2 | r IH | c lo hi | n r IH ];
    intros s pos cs k k' Hk; simpl.
  - apply Hk.
  - destruct s as [|a s]; simpl; [reflexivity | ].
    rewrite cset_mem_lower, Hk. destruct (cset_mem true c a); reflexivity.
  - apply IH1. intros s' p c. apply IH2. exact Hk.
  - rewrite (IH1 s pos cs k k' Hk), (IH2 s pos cs k k' Hk).
    destruct (exec true r1 s pos cs k); reflexivity.
  - rewrite (IH s pos cs k k' Hk), Hk.
    destruct (exec true r s pos cs k); reflexivity.
  - apply rep_lower. intros s' p. apply Hk.
  - apply IH. intros s' p c. apply Hk.
Qed.

Lemma match_at_lower r s :
  match_at true r (lower s)
  = option_map (fun m => (fst (fst m), snd (fst m), lower (snd m))) (match_at true r s).
Proof.
  unfold match_at. apply exec_lower. intros s' p c. reflexivity.
Qed.

Lemma search_from_lower r : forall s i,
  search_from true r i (lower s) = option_map lower_match (search_from true r i s).
Proof.
  induction s as [|c s IH]; intros i.
  - cbn [lower search_from].
    pose proof (match_at_lower r "") as H. cbn [lower] in H. rewrite H.
    destruct (match_at true r "") as [[[cs e] rest]|]; reflexivity.
  - cbn [lower search_from].
    pose proof (match_at_lower r (String c s)) as H. cbn [lower] in H. rewrite H.
    destruct (match_at true r (String c s)) as [[[cs e] rest]|]; simpl; [reflexivity | ].
    apply IH.
Qed.

Lemma sub_del_lower r : forall s skip,
  sub_del true r skip (lower s) = lower (sub_del true r skip s).
Proof.
  induction s as [|c s IH]; intros skip; [reflexivity | ].
  cbn [lower sub_del]. destruct skip as [|n]; [ | apply IH ].
  pose proof (match_at_lower r (String c s)) as H. cbn [lower] in H. rewrite H.
  destruct (match_at true r (String c s)) as [[[cs [|e]] rest]|]; simpl;
    rewrite ?IH; reflexivity.
Qed.

Lemma lstrip_lower s : lstrip_by py_isspace (lower s) = lower (lstrip_by py_isspace s).
Proof.
  induction s as [|c s IH]; simpl; [reflexivity | ].
  rewrite (proj1 (proj2 (lower_char_class c))). destruct (py_isspace c); [exact IH | reflexivity].
Qed.

Lemma rstrip_lower s : rstrip_by py_isspace (lower s) = lower (rstrip_by py_isspace s).
Proof.
  induction s as [|c s IH]; simpl; [reflexivity | ].
  rewrite IH, (proj1 (proj2 (lower_char_class c))).
  destruct (rstrip_by py_isspace s); simpl; [destruct (py_isspace c) | ]; reflexivity.
Qed.

Lemma strip_lower s : strip (lower s) = lower (strip s).
Proof. unfold strip. rewrite lstrip_lower, rstrip_lower. reflexivity. Qed.

Lemma take_lower n : forall s, take n (lower s) = lower (take n s).
Proof. induction n as [|n IH]; intros [|c s]; simpl; try reflexivity. rewrite IH. reflexivity. Qed.

Lemma drop_lower n : forall s, drop n (lower s) = lower (drop n s).
Proof. induction n as [|n IH]; intros [|c s]; simpl; try reflexivity. apply IH. Qed.

Lemma group_or_empty_lower name m :
  group_or_empty name (lower_match m) = lower (group_or_empty name m).
Proof.
  unfold group_or_empty, group, lower_match. simpl.
  destruct (lookup_span name (m_spans m)) as [[b e]|]; [ | reflexivity ].
  rewrite drop_lower, take_lower. reflexivity.
Qed.

Lemma take_digits_lower s :
  take_digits (lower s) = (fst (take_digits s), lower (snd (take_digits s))).
Proof.
  induction s as [|c s IH]; [reflexivity | ].
  cbn [lower take_digits]. rewrite (proj1 (lower_char_facts c)).
  destruct (is_digit c) eqn:E.
  - rewrite IH. destruct (take_digits s) as [d r]. simpl. f_equal. f_equal.
    unfold lower_char. destruct (is_upper c) eqn:U; [ | reflexivity ].
    exfalso. revert E U. clear.
    destruct c as [[] [] [] [] [] [] [] []]; vm_compute; congruence.
  - reflexivity.
Qed.

Lemma py_float_cases t :
  py_float t =
  match snd (take_digits t) with
  | EmptyString => decimal (fst (take_digits t)) EmptyString
  | String c fr =>
      if Ascii.eqb c "." then decimal (fst (take_digits t)) (fst (take_digits fr))
      else decimal (fst (take_digits t)) EmptyString
  end.
Proof.
  unfold py_float. destruct (take_digits t) as [ip [|c fr]]; [reflexivity | ].
  destruct c as [[] [] [] [] [] [] [] []]; reflexivity.
Qed.

Lemma py_float_lower t : py_float (lower t) = py_float t.
Proof.
  rewrite !py_float_cases, take_digits_lower. cbn [fst snd].
  destruct (snd (take_digits t)) as [|c fr]; [reflexivity | ]. cbn [lower].
  rewrite (proj2 (proj2 (lower_char_class c))), take_digits_lower. reflexivity.
Qed.

Lemma string_in_lower_ops x l : string_in (lower (lower x)) l = string_in (lower x) l.
Proof. rewrite lower_idem. reflexivity. Qed.

(** X15.  The parser does not look at the case of the letters.  Parsing
    the goal in lower case gives the same bounds, and as query the
    query of the goal in lower case. *)
Theorem parse_ignores_case goal :
  parse_price_filters (lower goal)
  = (fst (parse_price_filters goal), lower (snd (parse_price_filters goal))).
Proof.
  unfold parse_price_filters, search, sub_empty.
  rewrite strip_lower, !search_from_lower, !sub_del_lower, !strip_lower.
  destruct (search_from true RANGE_RE 0 (strip goal)) as [m|]; cbn [option_map].
  - rewrite !group_or_empty_lower, !py_float_lower. reflexivity.
  - destruct (search_from true PRICE_RE 0 (strip goal)) as [m|]; cbn [option_map];
      [ | reflexivity ].
    rewrite !group_or_empty_lower, py_float_lower, lower_idem.
    destruct (string_in (lower (group_or_empty "op" m)) lower_ops); [reflexivity | ].
    destruct (string_in (lower (group_or_empty "op" m)) upper_ops); reflexivity.
Qed.

Lemma py_float_not_negative t : not_negative (py_float t).
Proof.
  rewrite py_float_cases.
  destruct (snd (take_digits t)) as [|c fr];
    [ | destruct (Ascii.eqb c ".") ]; apply float_of_ratio_sign.
Qed.

Lemma parse_bounds_not_negative goal x :
  fst (fst (parse_price_filters goal)) = Some x
  \/ snd (fst (parse_price_filters goal)) = Some x -> not_negative x.
Proof.
  pose proof py_float_not_negative as Hf.
  unfold parse_price_filters.
  destruct (search true RANGE_RE (strip goal)) as [m|]; cbn [fst snd].
  + intros [H|H]; injection H as <-; apply Hf.
  + destruct (search true PRICE_RE (strip goal)) as [m|]; cbn [fst snd];
      [ | intros [H|H]; discriminate H ].
    destruct (string_in _ lower_ops); cbn [fst snd];
      [ intros [H|H]; [injection H as <-; apply Hf | discriminate H] | ].
    destruct (string_in _ upper_ops); cbn [fst snd];
      intros [H|H]; try discriminate H. injection H as <-. apply Hf.
Qed.




(* ---------------------------------------------------------------- *)
(** ** The search URL *)

(** *** Escaping *)

Lemma percent_safe c : all_chars url_safe (SearchUrl.percent c) = true.
Proof. destruct c as [[] [] [] [] [] [] [] []]; vm_compute; reflexivity. Qed.

Lemma quote_plus_safe s : all_chars url_safe (SearchUrl.quote_plus s) = true.
Proof.
  induction s as [|c s IH]; [reflexivity | ].
  cbn [SearchUrl.quote_plus]. rewrite all_chars_app, IH, andb_true_r.
  destruct (Ascii.eqb c " "); [reflexivity | ].
  destruct (SearchUrl.always_safe c) eqn:E; [ | apply percent_safe ].
  simpl. unfold url_safe. rewrite E. reflexivity.
Qed.

Lemma quote_plus_nonempty s : s <> "" -> SearchUrl.quote_plus s <> "".
Proof.
  destruct s as [|c s]; [congruence | intros _ ]. cbn [SearchUrl.quote_plus].
  destruct (Ascii.eqb c " "); [discriminate | ].
  destruct (SearchUrl.always_safe c); discriminate.
Qed.

Lemma digit_is_unreserved c :
  is_digit c = true \/ c = "-"%char ->
  Ascii.eqb c " " = false /\ SearchUrl.always_safe c = true.
Proof.
  intros [H | ->]; [ | split; reflexivity ].
  unfold SearchUrl.always_safe, SearchUrl.is_alnum. rewrite H. split; [ | reflexivity ].
  destruct (Ascii.eqb_spec c " ") as [->|]; [discriminate H | reflexivity].
Qed.

Lemma quote_plus_digits s :
  all_chars (fun c => is_digit c || Ascii.eqb c "-") s = true -> SearchUrl.quote_plus s = s.
Proof.
  induction s as [|c s IH]; [reflexivity | ].
  cbn [all_chars SearchUrl.quote_plus]. intros H. apply andb_true_iff in H.
  destruct H as (Hc & Hs). rewrite (IH Hs).
  assert (Hd : is_digit c = true \/ c = "-"%char).
  { apply orb_true_iff in Hc. destruct Hc as [Hc|Hc]; [left; exact Hc | right].
    apply Ascii.eqb_eq. exact Hc. }
  destruct (digit_is_unreserved c Hd) as (-> & ->). reflexivity.
Qed.

(** *** Cents *)

Lemma string_of_uint_digits d :
  all_chars is_digit (NilEmpty.string_of_uint d) = true.
Proof. induction d; simpl; try rewrite IHd; reflexivity. Qed.

Lemma str_of_int_digits n :
  (0 <= n)%Z ->
  all_chars is_digit (SearchUrl.str_of_int n) = true /\ SearchUrl.str_of_int n <> "".
Proof.
  intros Hn. unfold SearchUrl.str_of_int.
  destruct n as [|p|p]; [split; [reflexivity | discriminate] | | lia].
  cbn [Z.to_int NilZero.string_of_int]. unfold NilZero.string_of_uint.
  destruct (Pos.to_uint p) eqn:E; try (split; [reflexivity | discriminate]);
    (split; [apply string_of_uint_digits | discriminate]).
Qed.

Lemma round_half_even_nonneg m e : (0 <= SearchUrl.round_half_even m e)%Z.
Proof.
  unfold SearchUrl.round_half_even.
  destruct (0 <=? e)%Z eqn:E.
  - apply Z.leb_le in E. apply Z.mul_nonneg_nonneg; [lia | ].
    apply Z.pow_nonneg. lia.
  - apply Z.leb_gt in E.
    assert (Hd : (0 < 2 ^ (- e))%Z) by (apply Z.pow_pos_nonneg; lia).
    assert (Hq : (0 <= Z.pos m / 2 ^ (- e))%Z) by (apply Z.div_pos; lia).
    cbv zeta.
    destruct (2 * (Z.pos m mod 2 ^ (- e)) ?= 2 ^ (- e))%Z; try lia.
    destruct (Z.even _); lia.
Qed.

Lemma binary_round_aux_signed sx m e l :
  match binary_round_aux prec emax sx m e l with
  | S754_zero s | S754_infinity s | S754_finite s _ _ => s = sx
  | S754_nan => True
  end.
Proof.
  unfold binary_round_aux.
  destruct (shr_fexp prec emax m e l) as [mrs' e'].
  destruct (shr_fexp prec emax _ e' loc_Exact) as [mrs'' e''].
  destruct (shr_m mrs''); simpl; [reflexivity | | exact I].
  match goal with |- context [if ?b then _ else _] => destruct b end; reflexivity.
Qed.

Lemma times_100_sign x : not_negative x -> not_negative (SFmul prec emax x f100).
Proof.
  destruct x as [s|s| |s m e]; simpl; intros H; try subst s; try reflexivity; try exact I.
  unfold f100.
  match goal with |- not_negative (binary_round_aux _ _ ?sx ?m ?e ?l) =>
    pose proof (binary_round_aux_signed sx m e l) as Hs;
    destruct (binary_round_aux prec emax sx m e l) end; simpl in *; auto.
Qed.

(** Amounts in cents: a numeral, unless the amount is not finite. *)
Lemma cents_cases p :
  (forall x, p = Some x -> not_negative x) ->
  match SearchUrl.cents p with
  | Returns a =>
      cents_overflow p = false
      /\ all_chars is_digit a = true
      /\ (a = "" <-> p = None)
  | Throws e =>
      cents_overflow p = true
      /\ (exn_class e = "OverflowError" \/ exn_class e = "ValueError")
  end.
Proof.
  intros Hp. destruct p as [x|]; [ | repeat split; intros; reflexivity ].
  pose proof (times_100_sign x (Hp x eq_refl)) as Hs.
  unfold SearchUrl.cents, cents_overflow.
  destruct (SFmul prec emax x f100) as [s|s| |s m e]; simpl in *.
  - repeat split; intros H; discriminate H.
  - split; [reflexivity | left; reflexivity].
  - split; [reflexivity | right; reflexivity].
  - subst s.
    destruct (str_of_int_digits _ (round_half_even_nonneg m e)) as (Hd & Hne).
    repeat split; try exact Hd; intros H; [contradiction | discriminate H].
Qed.


(** The URL text and the target of the navigation stand for the same
    answer of [build_amazon_search_url]. *)
Lemma search_url_refines_target goal :
  match SearchUrl.build_amazon_search_url goal, build_amazon_search_url goal with
  | Returns (_, lo, hi), Returns (t, lo', hi') => t = AmazonSearch goal /\ lo = lo' /\ hi = hi'
  | Throws _, Throws _ => True
  | _, _ => False
  end.
Proof.
  pose proof (parse_bounds_not_negative goal) as Hsign.
  unfold SearchUrl.build_amazon_search_url, build_amazon_search_url.
  destruct (parse_price_filters goal) as [[lo hi] cleaned]. cbn [fst snd] in *.
  assert (Hlo := cents_cases lo (fun x H => Hsign x (or_introl H))).
  assert (Hhi := cents_cases hi (fun x H => Hsign x (or_intror H))).
  destruct lo as [x|], hi as [y|];
    try (destruct (SearchUrl.cents _) as [a|e];
         [ destruct Hlo as (-> & _) | destruct Hlo as (-> & _); exact I ];
         destruct (SearchUrl.cents _) as [b|e'];
         [ destruct Hhi as (-> & _) | destruct Hhi as (-> & _) ];
         cbn [orb]; try rewrite orb_true_r; repeat split; exact I).
  repeat split.
Qed.

Lemma lstrip_all sp s : all_chars sp s = true -> lstrip_by sp s = "".
Proof.
  induction s as [|c s IH]; simpl; [reflexivity | ].
  intros H. apply andb_true_iff in H. destruct H as (-> & H). apply IH. exact H.
Qed.

(** X18.  A goal that is empty or blank searches for shirts: the search
    terms are replaced by the word [shirt] and no price filter is set. *)
Theorem blank_goal_searches_for_shirts goal :
  all_chars py_isspace goal = true ->
  SearchUrl.build_amazon_search_url goal
  = Returns ("https://www.amazon.com/s?k=shirt&s=price-asc-rank", None, None).
Proof.
  intros H.
  assert (Hs : strip goal = "") by (unfold strip; rewrite (lstrip_all _ _ H); reflexivity).
  unfold SearchUrl.build_amazon_search_url, parse_price_filters. rewrite Hs. reflexivity.
Qed.

Lemma blank_goal_searches_for_shirts_witness :
  SearchUrl.build_amazon_search_url "   "
  = Returns ("https://www.amazon.com/s?k=shirt&s=price-asc-rank", None, None).
Proof. apply blank_goal_searches_for_shirts. reflexivity. Defined.


(* ---------------------------------------------------------------- *)
(** ** The planner *)

Section PlannerFacts.

Import Planner.

Lemma get_set_other key key' v d :
  key <> key' -> get key (set key' v d) = get key d.
Proof.
  intros Hne. induction d as [|[k v'] d IH]; simpl.
  - destruct (String.eqb_spec key' key); [congruence | reflexivity].
  - destruct (String.eqb_spec k key') as [->|Hk]; simpl.
    + destruct (String.eqb_spec key' key); [congruence | reflexivity].
    + destruct (String.eqb k key); [reflexivity | exact IH].
Qed.

Lemma get_set_same key v d : get key (set key v d) = Some v.
Proof.
  induction d as [|[k v'] d IH]; simpl.
  - rewrite String.eqb_refl. reflexivity.
  - destruct (String.eqb_spec k key) as [->|Hk]; simpl.
    + rewrite String.eqb_refl. reflexivity.
    + destruct (String.eqb_spec k key); [contradiction | exact IH].
Qed.

Lemma get_without_same key d : get key (without key d) = None.
Proof.
  induction d as [|[k v'] d IH]; simpl; [reflexivity | ].
  destruct (String.eqb_spec k key) as [->|Hk]; simpl; [exact IH | ].
  destruct (String.eqb_spec k key); [contradiction | exact IH].
Qed.

Lemma normalize_dict_normal goal d : normal_step goal (normalize_dict goal d).
Proof.
  unfold normalize_dict.
  set (d1 := match get "target" d with
             | Some v => set "selector" v (without "target" d)
             | None => d
             end).
  assert (H1 : get "target" d1 = None).
  { unfold d1. destruct (get "target" d) as [v|] eqn:E; [ | exact E ].
    rewrite get_set_other by discriminate. apply get_without_same. }
  destruct (is_text "action" "fill" d1 && missing "value" d1) eqn:E.
  - split.
    + rewrite get_set_other by discriminate. exact H1.
    + intros _. exists (JString goal). split; [apply get_set_same | right; reflexivity].
  - split; [exact H1 | ].
    intros Hf. rewrite Hf in E. simpl in E. unfold missing in E.
    destruct (get "value" d1) as [v|]; [ | discriminate E ].
    exists v. split; [reflexivity | left].
    apply negb_false_iff in E. exact E.
Qed.

Lemma normalize_returns goal steps l :
  normalize goal steps = Returns l ->
  List.length l = List.length steps
  /\ Forall (normal_step goal) l
  /\ Forall (fun v => is_dict v = true) steps.
Proof.
  revert l. induction steps as [|step rest IH]; intros l H; simpl in H.
  - injection H as <-. repeat split; constructor.
  - destruct (normalize_step goal step) as [d|e] eqn:Es; [ | discriminate H ].
    destruct (normalize goal rest) as [l'|e]; [ | discriminate H ].
    injection H as <-. destruct (IH l' eq_refl) as (Hl & Hn & Hd).
    assert (Hstep : is_dict step = true /\ normal_step goal d).
    { destruct step as [ | | | | s | l0 | d0]; simpl in Es; try discriminate Es.
      - destruct (contains "target" s); discriminate Es.
      - destruct (existsb _ l0); discriminate Es.
      - injection Es as <-. split; [reflexivity | apply normalize_dict_normal]. }
    destruct Hstep as (H1 & H2).
    repeat split; simpl; [rewrite Hl; reflexivity | | ]; constructor; assumption.
Qed.

Lemma normalize_raises goal steps :
  Exists (fun v => is_dict v = false) steps ->
  exists e, normalize goal steps = Throws e
            /\ (exn_class e = "TypeError" \/ exn_class e = "AttributeError").
Proof.
  induction 1 as [step rest Hs | step rest _ IH]; simpl.
  - destruct step as [ | | | | s | l0 | d0]; try discriminate Hs; simpl;
      try (eexists; split; [reflexivity | left; reflexivity]).
    + destruct (contains "target" s); eexists; split; try reflexivity; right; reflexivity.
    + destruct (existsb _ l0); eexists; split; try reflexivity;
        [left | right]; reflexivity.
  - destruct (normalize_step goal step) as [d|e] eqn:Es.
    + destruct IH as (e & -> & He). exists e. split; [reflexivity | exact He].
    + exists e. split; [reflexivity | ].
      destruct step as [ | | | | s | l0 | d0]; simpl in Es; try discriminate Es;
        try (injection Es as <-; left; reflexivity).
      * destruct (contains "target" s); injection Es as <-; right; reflexivity.
      * destruct (existsb _ l0); injection Es as <-; [left | right]; reflexivity.
Qed.

Lemma normalize_default goal :
  normalize goal (map JDict (default_plan goal)) = Returns (default_plan goal).
Proof.
  unfold default_plan. cbn [map normalize normalize_step].
  assert (Hfill : normalize_dict goal
                    [("action", JString "fill"); ("selector", JString "#twotabsearchtextbox");
                     ("value", JString goal)]
                  = [("action", JString "fill"); ("selector", JString "#twotabsearchtextbox");
                     ("value", JString goal)]).
  { unfold normalize_dict. cbn. destruct (nonempty goal); reflexivity. }
  rewrite Hfill. reflexivity.
Qed.


(** X20.  Without an answer of the model the planner returns the fallback
    plan.  That is so when the API key is missing or empty (the
    [ValueError] of [get_openai_client] is swallowed), when the client
    cannot be made, when the request fails, and when the answer is
    blank. *)
Theorem planner_falls_back_to_the_default_plan sv goal ctx :
  truthy (api_key sv) = false
  \/ (exists e, get_openai_client sv = Throws e)
  \/ (exists e, completion sv goal (element_samples ctx) = Throws e)
  \/ (exists content, completion sv goal (element_samples ctx) = Returns content
                      /\ strip content = "") ->
  generate_ai_plan sv goal ctx = Returns (default_plan goal)
  /\ (truthy (api_key sv) = false -> get_openai_client sv = Throws missing_key).
Proof.
  intros H.
  assert (Hk : truthy (api_key sv) = false -> get_openai_client sv = Throws missing_key).
  { intros E. unfold get_openai_client. rewrite E. reflexivity. }
  split; [ | exact Hk ].
  assert (Hm : model_steps sv goal ctx = JList []).
  { unfold model_steps.
    destruct H as [H | [(e & H) | [(e & H) | (content & H & Hs)]]].
    - rewrite (Hk H). reflexivity.
    - rewrite H. reflexivity.
    - rewrite H. destruct (get_openai_client sv); reflexivity.
    - rewrite H. unfold read_answer. rewrite Hs. simpl.
      destruct (get_openai_client sv); reflexivity. }
  unfold generate_ai_plan. rewrite Hm. apply normalize_default.
Qed.

(** X21.  The planner raises on an answer that is a list with an entry
    that is no object.  The normalisation loop stands outside every
    [try]: the membership test or the first method call on such an entry
    raises a [TypeError] or an [AttributeError], which leaves
    [generate_ai_plan]. *)
Theorem planner_raises_on_a_step_that_is_no_object sv goal ctx x l :
  model_steps sv goal ctx = JList (x :: l) ->
  Exists (fun v => is_dict v = false) (x :: l) ->
  exists e, generate_ai_plan sv goal ctx = Throws e
            /\ (exn_class e = "TypeError" \/ exn_class e = "AttributeError").
Proof.
  intros Hm Hx. unfold generate_ai_plan. rewrite Hm. apply normalize_raises. exact Hx.
Qed.

End PlannerFacts.


Lemma planner_falls_back_to_the_default_plan_witness :
  Planner.generate_ai_plan PlannerCases.offline "hat" (mkContext None None [])
  = Returns (Planner.default_plan "hat").
Proof.
  apply (planner_falls_back_to_the_default_plan PlannerCases.offline "hat"
           (mkContext None None [])).
  left. reflexivity.
Defined.

Lemma planner_raises_on_a_step_that_is_no_object_witness :
  exists e,
    Planner.generate_ai_plan
      (PlannerCases.answering "[1]" (Planner.JList [Planner.JInt 1]))
      "hat" (mkContext None None [])
    = Throws e
    /\ (exn_class e = "TypeError" \/ exn_class e = "AttributeError").
Proof.
  apply (planner_raises_on_a_step_that_is_no_object
           (PlannerCases.answering "[1]" (Planner.JList [Planner.JInt 1]))
           "hat" (mkContext None None []) (Planner.JInt 1) []).
  - vm_compute. reflexivity.
  - left. reflexivity.
Defined.


(* ---------------------------------------------------------------- *)
(** ** Retries and element samples *)

#[local] Open Scope list_scope.

Section AroundFacts.

Context {W : Type}.
Variable perform : forall A : Type, call A -> W -> reply A * W.

(** *** [retry] *)

Lemma retry_loop_outcomes {A} (fn : M W A) (sleep : M W unit) : forall n last_err s,
  match retry_loop fn sleep n last_err s with
  | (Ok (Some a), s') => exists s0, fn s0 = (Ok a, s')
  | (Ok None, s') => n = 0 /\ last_err = None /\ s' = s
  | (Raise e, s') =>
      (n = 0 /\ last_err = Some e /\ s' = s)
      \/ (exists s0 s1, fn s0 = (Raise e, s1) /\ sleep s1 = (Ok tt, s'))
      \/ (exists s1, sleep s1 = (Raise e, s'))
  | (Diverge, _) => True
  end.
Proof.
  induction n as [|n IH]; intros last_err s.
  - simpl. destruct last_err as [e|]; simpl; [left | ]; repeat split.
  - cbn [retry_loop]. unfold bind at 1, try_catch, bind at 1.
    destruct (fn s) as [[a|e|] s1] eqn:Ef.
    + simpl. exists s. exact Ef.
    + unfold bind at 1. destruct (sleep s1) as [[[]|e'|] s2] eqn:Es.
      * unfold ret at 1. cbn iota beta.
        specialize (IH (Some e) s2).
        destruct (retry_loop fn sleep n (Some e) s2) as [[[a|]|e2|] s3]; try exact IH.
        -- destruct IH as (_ & H & _). discriminate H.
        -- destruct IH as [(_ & H & ->) | IH]; [ | right; exact IH].
           injection H as <-. right. left. exists s, s1. split; assumption.
      * right. right. exists s1. exact Es.
      * exact I.
    + exact I.
Qed.

(** X22.  What [retry] does.  With no turn to take it returns [None]
    without calling the function.  A value it returns is the value of
    the last call of the function, after which nothing else runs.  An
    exception it raises is the one of the last failed call, raised after
    one more sleep, unless the sleep itself raised. *)
Theorem retry_raises_the_last_error {A} (fn : M W A) (tries : Z) (sleep : M W unit) s :
  ((tries <= 0)%Z -> retry fn tries sleep s = (Ok None, s))
  /\ (fst (retry fn tries sleep s) = Ok None -> (tries <= 0)%Z)
  /\ (forall a, fst (retry fn tries sleep s) = Ok (Some a) ->
                exists s0, fn s0 = (Ok a, snd (retry fn tries sleep s)))
  /\ (forall e, fst (retry fn tries sleep s) = Raise e ->
                (exists s0 s1, fn s0 = (Raise e, s1)
                               /\ sleep s1 = (Ok tt, snd (retry fn tries sleep s)))
                \/ (exists s1, sleep s1 = (Raise e, snd (retry fn tries sleep s)))).
Proof.
  unfold retry.
  pose proof (retry_loop_outcomes fn sleep (Z.to_nat tries) None s) as H.
  split; [ | split; [ | split ] ].
  - intros Ht. replace (Z.to_nat tries) with 0 by lia. reflexivity.
  - intros E. destruct (retry_loop fn sleep (Z.to_nat tries) None s) as [[[a|]|e|] s'];
      try discriminate E.
    destruct H as (H & _). lia.
  - intros a E. destruct (retry_loop fn sleep (Z.to_nat tries) None s) as [[[a'|]|e|] s'];
      try discriminate E.
    injection E as <-. exact H.
  - intros e E. destruct (retry_loop fn sleep (Z.to_nat tries) None s) as [[[a'|]|e'|] s'];
      try discriminate E.
    injection E as <-.
    destruct H as [(_ & H & _) | H]; [discriminate H | exact H].
Qed.

(** *** [extract_mcp_context] *)

Lemma emits_context_sample P el :
  (forall (A : Type) (c : call A), P (Called c)) -> emits P (context_sample perform el).
Proof. intros HP. unfold context_sample. repeat emits_step ltac:(apply HP). Qed.

Lemma safe_context_sample el : safe (context_sample perform el).
Proof.
  unfold context_sample. eapply (safe_try_catch (fun _ => True));
    [ | intros; apply safe_ret ].
  repeat emits_step ltac:(exact I).
Qed.

Lemma safe_context_samples els : forall acc, safe (context_samples perform els acc).
Proof.
  induction els as [|el els IH]; intros acc; simpl.
  - apply safe_ret.
  - apply safe_bind; [apply safe_context_sample | intros o; apply IH].
Qed.

Lemma yields_context_sample el :
  yields (fun o => forall x, o = Some x -> sample_ok x) (context_sample perform el).
Proof.
  unfold context_sample. apply yields_try_catch.
  - apply yields_seq. intros role. apply yields_seq. intros aria.
    apply yields_seq. intros txt. apply yields_seq. intros tag.
    apply yields_ret. intros x H.
    assert (Hx : x = mkSample tag (str_or role "none") aria (take 80 (strip txt)))
      by congruence.
    rewrite Hx. unfold sample_ok. cbn [s_text s_role]. split; [ | split ].
    + apply take_length.
    + apply take_lstripped. apply strip_lstripped.
    + apply str_or_nonempty. discriminate.
  - intros e. apply yields_ret. discriminate.
Qed.

Lemma yields_context_samples els : forall acc,
  Forall sample_ok acc ->
  yields (fun l => Forall sample_ok l /\ List.length l <= List.length acc + List.length els)
         (context_samples perform els acc).
Proof.
  induction els as [|el els IH]; intros acc Hacc; simpl.
  - apply yields_ret. split; [exact Hacc | lia].
  - eapply yields_bind; [apply yields_context_sample | ].
    intros o Ho. destruct o as [x|].
    + eapply yields_weaken; [ | apply IH ].
      * intros l (Hl & Hn). split; [exact Hl | ].
        rewrite List.length_app in Hn. simpl in Hn. lia.
      * apply Forall_app. split; [exact Hacc | ].
        constructor; [apply Ho; reflexivity | constructor].
    + eapply yields_weaken; [ | apply IH; exact Hacc ].
      intros l (Hl & Hn). split; [exact Hl | lia].
Qed.

(** X23.  [extract_mcp_context] has no guard around its element query: an
    exception of the query leaves the function.  Once the elements are
    there nothing raises any more: an element whose reads fail is
    skipped, at most 200 samples are returned, never more than there are
    elements, each with a text of at most 80 characters and a role that
    is not empty. *)
Theorem context_samples_are_bounded s :
  match perform (list handle)
                (QuerySelectorAll "input, button, a, div[role], span, img") (world s) with
  | (Throws e, _) => fst (extract_mcp_context perform s) = Raise e
  | (Returns elements, _) =>
      exists samples,
        fst (extract_mcp_context perform s) = Ok samples
        /\ List.length samples <= 200
        /\ List.length samples <= List.length elements
        /\ Forall sample_ok samples
  end.
Proof.
  unfold extract_mcp_context, bind, do.
  destruct (perform (list handle) _ (world s)) as [[elements|e] w]; [ | reflexivity ].
  match goal with |- context [context_samples perform ?l ?acc ?s0] =>
    destruct (safe_context_samples l acc s0) as (samples & Hs);
    pose proof (yields_context_samples l acc (Forall_nil _) s0 samples
                  (snd (context_samples perform l acc s0))
                  (pair_fst_snd _ _ Hs)) as (Hok & Hn)
  end.
  exists samples. split; [exact Hs | ].
  cbn [List.length Nat.add] in Hn.
  pose proof (firstn_le_length 200 elements) as H1.
  assert (H2 : List.length (firstn 200 elements) <= List.length elements).
  { rewrite List.length_firstn. lia. }
  repeat split; try lia. exact Hok.
Qed.

End AroundFacts.

Lemma retry_raises_the_last_error_witness :
  retry AroundCases.flaky 0 AroundCases.nap (mkSession 0 []) = (Ok None, mkSession 0 []).
Proof.
  apply (proj1 (retry_raises_the_last_error AroundCases.flaky 0 AroundCases.nap
                  (mkSession 0 []))).
  reflexivity.
Defined.


(* ---------------------------------------------------------------- *)
(** ** The page context and the service *)

Section ServiceFacts.

Context {W : Type}.
Variable perform : forall A : Type, call A -> W -> reply A * W.

Lemma emits_extract_page_context headless query :
  emits (fun _ => True) (extract_page_context perform headless query).
Proof.
  unfold extract_page_context.
  apply emits_bind; [apply emits_do; exact I | intros _ ].
  apply emits_try_finally; [ | apply emits_do; exact I ].
  repeat emits_step ltac:(exact I).
  apply emits_swallow. repeat emits_step ltac:(exact I).
Qed.

(** X24.  [extract_page_context] does not mind a failed navigation.  With
    a browser that starts and stops, the function returns the URL it
    asked for (not the one the page ended on) and the markup of whatever
    page is open, whether [goto] and the wait for the results went
    through or not.  Only a failure of [page.content()] leaves the
    function, and then [browser.close()] is not called. *)
Theorem page_context_survives_a_failed_navigation headless query s :
  session_ok perform ->
  let s3 := snd (page_visited perform headless query s) in
  match perform string Content (world s3) with
  | (Returns html, _) =>
      fst (extract_page_context perform headless query s) = Ok (page_url query, html)
  | (Throws e, _) =>
      fst (extract_page_context perform headless query s) = Raise e
      /\ trace (snd (extract_page_context perform headless query s))
         = Called PwStop :: Called Content :: trace s3
  end.
Proof.
  intros Hok. unfold page_visited, extract_page_context.
  set (nav := bind (do perform (Goto (Url (page_url query))))
                   (fun _ => do perform (WaitForSelector ".s-main-slot" "visible"))).
  assert (Hsw : emits (fun _ => True) nav)
    by (unfold nav; repeat emits_step ltac:(exact I)).
  unfold try_finally, bind.
  destruct (safe_do_session perform PwStart Hok eq_refl s) as ([] & H0).
  destruct (do perform PwStart s) as [r0 s0]. simpl in H0. subst r0.
  destruct (safe_do_session perform (Launch headless) Hok eq_refl s0) as ([] & H1).
  destruct (do perform (Launch headless) s0) as [r1 s1]. simpl in H1. subst r1.
  destruct (safe_do_session perform NewPage Hok eq_refl s1) as ([] & H2).
  destruct (do perform NewPage s1) as [r2 s2]. simpl in H2. subst r2.
  destruct (safe_swallow (fun _ => True) nav Hsw s2) as ([] & H3).
  destruct (swallow nav s2) as [r3 s3].
  simpl in H3. subst r3. cbn [snd].
  assert (Hc : do perform Content s3
               = match perform string Content (world s3) with
                 | (Returns a, w') => (Ok a, mkSession w' (Called Content :: trace s3))
                 | (Throws e, w') => (Raise e, mkSession w' (Called Content :: trace s3))
                 end) by reflexivity.
  rewrite Hc. clear Hc.
  destruct (perform string Content (world s3)) as [[html|e] w4]; cbn [world trace].
  - match goal with |- context [do perform BrowserClose ?s4] =>
      destruct (safe_do_session perform BrowserClose Hok eq_refl s4) as ([] & H5);
      destruct (do perform BrowserClose s4) as [r5 s5]
    end.
    simpl in H5. subst r5. unfold ret.
    match goal with |- context [do perform PwStop ?s6] =>
      destruct (safe_do_session perform PwStop Hok eq_refl s6) as ([] & H6);
      destruct (do perform PwStop s6) as [r6 s7]
    end.
    simpl in H6. subst r6. reflexivity.
  - match goal with |- context [do perform PwStop ?s6] =>
      destruct (safe_do_session perform PwStop Hok eq_refl s6) as ([] & H6);
      unfold do in *;
      destruct (perform unit PwStop (world s6)) as [[[]|e6] w7]
    end; simpl in *; try discriminate H6.
    split; reflexivity.
Qed.


End ServiceFacts.

Lemma page_context_survives_a_failed_navigation_witness :
  fst (extract_page_context Demo.perform true None (Demo.start (Demo.offline [])))
  = Ok ("https://www.amazon.com/", "<html></html>").
Proof.
  exact (page_context_survives_a_failed_navigation Demo.perform true None
           (Demo.start (Demo.offline [])) demo_session_ok).
Defined.


